(** * Thumbnailer: a shallow embedding of [pelican/plugins/thumbnailer/thumbnailer.py]

    The plugin resizes a tree of images into thumbnails and expands a
    [gallery] metadata tag.  The embedding follows the Python source function
    by function.  Strings are [string]; dictionaries whose order matters are
    association lists, the metadata mapping and the file system are [gmap]s;
    effects (file system, logging, exceptions) are threaded through a small
    state-and-exception monad.

    Library functions the source calls ([os.path], [str], [int], [re]) are
    modelled after CPython's [posixpath]/[genericpath] sources for POSIX
    ([os.path.sep = "/"]) and ASCII strings. *)

From Stdlib Require Import ZArith Ascii String.
From stdpp Require Import base tactics option list strings gmap.

Local Open Scope string_scope.
Local Open Scope Z_scope.

(** Let [simpl] compute string concatenation on constructors. *)
#[local] Arguments String.append !s1 s2 : simpl nomatch.

(** ** Python [str] methods *)

Module str.

Definition eqb_ascii (a b : ascii) : bool := Ascii.eqb a b.

(** [s.startswith(p)] *)
Fixpoint startswith (s p : string) {struct p} : bool :=
  match p with
  | EmptyString => true
  | String b p' =>
      match s with
      | EmptyString => false
      | String a s' => eqb_ascii a b && startswith s' p'
      end
  end.

(** [s.endswith(c)] for a one-character [c] *)
Fixpoint endswith_char (s : string) (c : ascii) : bool :=
  match s with
  | EmptyString => false
  | String a EmptyString => eqb_ascii a c
  | String _ r => endswith_char r c
  end.

(** [c in s] for a one-character [c] *)
Fixpoint contains_char (c : ascii) (s : string) : bool :=
  match s with
  | EmptyString => false
  | String a r => eqb_ascii a c || contains_char c r
  end.

(** [s[n:]] *)
Fixpoint drop (n : nat) (s : string) : string :=
  match n, s with
  | O, _ => s
  | S _, EmptyString => EmptyString
  | S k, String _ r => drop k r
  end.

(** [s[:n]] *)
Fixpoint take (n : nat) (s : string) : string :=
  match n, s with
  | O, _ => EmptyString
  | S _, EmptyString => EmptyString
  | S k, String a r => String a (take k r)
  end.

(** [s.rfind(c)]: index of the last occurrence of [c], or [-1]. *)
Fixpoint rfind (c : ascii) (s : string) : Z :=
  match s with
  | EmptyString => -1
  | String a r =>
      let k := rfind c r in
      if 0 <=? k then k + 1 else if eqb_ascii a c then 0 else -1
  end.

(** [s.rstrip(chars)] and [s.lstrip(chars)], the stripped characters given
    as a predicate. *)
Fixpoint rstrip_by (f : ascii -> bool) (s : string) : string :=
  match s with
  | EmptyString => EmptyString
  | String a r =>
      match rstrip_by f r with
      | EmptyString => if f a then EmptyString else String a EmptyString
      | r' => String a r'
      end
  end.

Fixpoint lstrip_by (f : ascii -> bool) (s : string) : string :=
  match s with
  | EmptyString => EmptyString
  | String a r => if f a then lstrip_by f r else s
  end.

(** [s.rstrip(c)] for a one-character [c] *)
Definition rstrip_char (c : ascii) (s : string) : string :=
  rstrip_by (fun a => eqb_ascii a c) s.

(** [s == c * len(s)]: every character of [s] is [c]. *)
Fixpoint all_char (c : ascii) (s : string) : bool :=
  match s with
  | EmptyString => true
  | String a r => eqb_ascii a c && all_char c r
  end.

(** [s.split(c)] for a one-character separator. *)
Fixpoint split_char (c : ascii) (s : string) : list string :=
  match s with
  | EmptyString => [EmptyString]
  | String a r =>
      if eqb_ascii a c then EmptyString :: split_char c r
      else match split_char c r with
           | h :: t => String a h :: t
           | [] => [String a EmptyString]
           end
  end.

(** [sep.join(l)] *)
Fixpoint join (sep : string) (l : list string) : string :=
  match l with
  | [] => EmptyString
  | [x] => x
  | x :: r => x ++ sep ++ join sep r
  end.

(** [s.replace(old, new)]: left to right, non-overlapping.  [skip] counts the
    characters of a matched occurrence of [old] still to be passed over.
    For an empty [old] Python inserts [new] before every character and at
    the end. *)
Fixpoint replace_from (old new : string) (skip : nat) (s : string) : string :=
  match s with
  | EmptyString => EmptyString
  | String a r =>
      match skip with
      | S k => replace_from old new k r
      | O =>
          if startswith s old
          then new ++ replace_from old new (String.length old - 1)%nat r
          else String a (replace_from old new O r)
      end
  end.

Fixpoint intersperse_before (new : string) (s : string) : string :=
  match s with
  | EmptyString => new
  | String a r => new ++ String a (intersperse_before new r)
  end.

Definition replace (s old new : string) : string :=
  match old with
  | EmptyString => intersperse_before new s
  | _ => replace_from old new O s
  end.

End str.

(** ** [os.path] (posixpath) *)

Module path.

Definition sep : ascii := "/"%char.

(** [posixpath.join(a, *p)] *)
Definition join_step (acc b : string) : string :=
  if str.startswith b "/" then b
  else if String.eqb acc "" || str.endswith_char acc sep then acc ++ b
  else acc ++ "/" ++ b.

Definition join (a : string) (p : list string) : string :=
  fold_left join_step p a.

(** [posixpath.basename(p)]: [i = p.rfind(sep) + 1; return p[i:]] *)
Definition basename (p : string) : string :=
  let i := str.rfind sep p + 1 in
  str.drop (Z.to_nat i) p.

(** [posixpath.dirname(p)] *)
Definition dirname (p : string) : string :=
  let i := str.rfind sep p + 1 in
  let head := str.take (Z.to_nat i) p in
  if negb (String.eqb head "") && negb (str.all_char sep head)
  then str.rstrip_char sep head
  else head.

(** [genericpath._splitext(p, sep, None, extsep)]: the loop that skips the
    leading dots of the file name. *)
Fixpoint skip_dots (rest : string) (n : nat) : bool :=
  match n with
  | O => false
  | S k =>
      match rest with
      | String a r => if str.eqb_ascii a "."%char then skip_dots r k else true
      | EmptyString => true
      end
  end.

Definition splitext (p : string) : string * string :=
  let sepIndex := str.rfind sep p in
  let dotIndex := str.rfind "."%char p in
  if (sepIndex <? dotIndex) &&
     skip_dots (str.drop (Z.to_nat (sepIndex + 1)) p)
               (Z.to_nat (dotIndex - (sepIndex + 1)))
  then (str.take (Z.to_nat dotIndex) p, str.drop (Z.to_nat dotIndex) p)
  else (p, "").

(** [genericpath.commonprefix([a, b])]: the longest common leading part,
    character by character for strings, component by component for lists. *)
Fixpoint commonprefix (a b : string) : string :=
  match a, b with
  | String x a', String y b' =>
      if str.eqb_ascii x y then String x (commonprefix a' b') else ""
  | _, _ => ""
  end.

Fixpoint commonprefix_list (a b : list string) : list string :=
  match a, b with
  | x :: a', y :: b' =>
      if String.eqb x y then x :: commonprefix_list a' b' else []
  | _, _ => []
  end.

(** [posixpath.normpath(path)] *)
Definition norm_step (initial_slashes : nat) (new_comps : list string)
    (comp : string) : list string :=
  if String.eqb comp "" || String.eqb comp "." then new_comps
  else if negb (String.eqb comp "..")
          || (Nat.eqb initial_slashes 0 && bool_decide (new_comps = []))
          || match last new_comps with
             | Some l => String.eqb l ".."
             | None => false
             end
       then (new_comps ++ [comp])%list
       else removelast new_comps.

Definition normpath (p : string) : string :=
  if String.eqb p "" then "."
  else
    let initial_slashes :=
      if str.startswith p "/"
      then if str.startswith p "//" && negb (str.startswith p "///")
           then 2%nat else 1%nat
      else 0%nat in
    let comps := fold_left (norm_step initial_slashes) (str.split_char sep p) [] in
    let p' := str.join "/" comps in
    let p'' := (if Nat.eqb initial_slashes 2 then "//"
                else if Nat.eqb initial_slashes 1 then "/" else "") ++ p' in
    if String.eqb p'' "" then "." else p''.

(** [posixpath.abspath(path)]; [cwd] is the result of [os.getcwd()]. *)
Definition abspath (cwd p : string) : string :=
  normpath (if str.startswith p "/" then p else join cwd [p]).

(** [posixpath.relpath(path, start)]; [None] is the [ValueError] raised for
    an empty [path]. *)
Definition relpath (cwd p start : string) : option string :=
  if String.eqb p "" then None
  else
    let nonempty := filter (fun x => x <> "") in
    let start_list := nonempty (str.split_char sep (abspath cwd start)) in
    let path_list := nonempty (str.split_char sep (abspath cwd p)) in
    let i := length (commonprefix_list start_list path_list) in
    let rel_list :=
      (replicate (length start_list - i)%nat ".." ++ List.skipn i path_list)%list in
    match rel_list with
    | [] => Some "."
    | a :: r => Some (join a r)
    end.

End path.

(** ** Exceptions, the world, and the monad of effects *)

(** Python exception classes the program can meet.  [IOError] stands for
    [OSError] and all its subclasses ([IOError] is an alias of [OSError] in
    Python 3; [FileNotFoundError] and PIL's [UnidentifiedImageError] derive
    from it), which is what [except IOError] catches. *)
Inductive exn :=
  | ValueError | TypeError | AttributeError | UnboundLocalError
  | IOError | re_error | OtherError (name : string).

#[global] Instance exn_eq_dec : EqDecision exn.
Proof. solve_decision. Defined.

(** A file-system entry: a regular file with its bytes, or a directory. *)
Inductive node := File (content : string) | Dir.

#[global] Instance node_eq_dec : EqDecision node.
Proof. solve_decision. Defined.

Inductive level := DEBUG | INFO.

(** What the program does to the outside, in order. *)
Inductive event :=
  | EvLog (lvl : level) (msg : string)
  | EvMakedirs (p : string)
  | EvOpen (p : string)
  | EvSave (p : string).

Record world := World { fs : gmap string node; trace : list event }.

Definition M (A : Type) : Type := world -> (exn + A) * world.

Definition ret {A} (a : A) : M A := fun w => (inr a, w).
Definition raise {A} (e : exn) : M A := fun w => (inl e, w).
Definition bind {A B} (m : M A) (k : A -> M B) : M B :=
  fun w => match m w with
           | (inr a, w') => k a w'
           | (inl e, w') => (inl e, w')
           end.
(** [try: body except cls: handler] *)
Definition try_except {A} (body : M A) (cls : exn) (handler : M A) : M A :=
  fun w => match body w with
           | (inl e, w') => if decide (e = cls) then handler w' else (inl e, w')
           | r => r
           end.
Definition lift {A} (r : exn + A) : M A := fun w => (r, w).
Definition emit (e : event) : M unit :=
  fun w => (inr tt, World (fs w) (trace w ++ [e])%list).

Notation "'do' x <- m ; k" := (bind m (fun x => k))
  (at level 10, x name, m at level 100, k at level 200, only parsing).

(** [for x in xs: body(x)] *)
Fixpoint for_ {A} (xs : list A) (body : A -> M unit) : M unit :=
  match xs with
  | [] => ret tt
  | x :: r => do _ <- body x; for_ r body
  end.

(** A loop that updates a local variable [acc]. *)
Fixpoint fold_ {A S} (xs : list A) (acc : S) (body : S -> A -> M S) : M S :=
  match xs with
  | [] => ret acc
  | x :: r => do acc' <- body acc x; fold_ r acc' body
  end.

(** The same sequencing for pure code that may raise. *)
Definition ebind {A B} (m : exn + A) (k : A -> exn + B) : exn + B :=
  match m with inr a => k a | inl e => inl e end.
Notation "'do' x <-e m ; k" := (ebind m (fun x => k))
  (at level 10, x name, m at level 100, k at level 200, only parsing).

Module logger.
Definition debug (msg : string) : M unit := emit (EvLog DEBUG msg).
Definition info (msg : string) : M unit := emit (EvLog INFO msg).
End logger.

(** ** [int(s)] on ASCII strings *)

Definition is_digit (a : ascii) : bool :=
  let n := nat_of_ascii a in (48 <=? n)%nat && (n <=? 57)%nat.

Definition digit_val (a : ascii) : Z := Z.of_nat (nat_of_ascii a) - 48.

(** Whitespace that [int] strips: TAB..CR, FS..US and the space. *)
Definition is_space (a : ascii) : bool :=
  let n := nat_of_ascii a in
  ((9 <=? n)%nat && (n <=? 13)%nat) || ((28 <=? n)%nat && (n <=? 32)%nat).

(** Digits with single underscores between them; [prev] tells whether the
    previous character was a digit. *)
Fixpoint int_digits (acc : Z) (prev : bool) (s : string) : option Z :=
  match s with
  | EmptyString => if prev then Some acc else None
  | String a r =>
      if is_digit a then int_digits (10 * acc + digit_val a) true r
      else if str.eqb_ascii a "_"%char && prev then int_digits acc false r
      else None
  end.

Definition int_literal (s : string) : option Z :=
  let t := str.rstrip_by is_space (str.lstrip_by is_space s) in
  match t with
  | String "+" r => int_digits 0 false r
  | String "-" r => Z.opp <$> int_digits 0 false r
  | _ => int_digits 0 false t
  end.

(** [int(x)]: [x] is a string, or [None] (an unmatched regex group). *)
Definition int (x : option string) : exn + Z :=
  match x with
  | None => inl TypeError
  | Some s => match int_literal s with
              | Some z => inr z
              | None => inl ValueError
              end
  end.

(** ** [re]: a backtracking matcher for the fragment the program needs *)

Module re.

Inductive cclass := CDigit | CChar (c : ascii) | CAny.

Definition in_class (k : cclass) (a : ascii) : bool :=
  match k with
  | CDigit => is_digit a
  | CChar c => str.eqb_ascii a c
  | CAny => negb (str.eqb_ascii a "010"%char)
  end.

(** [RGroup n r] is the [n]-th capturing group. *)
Inductive regex :=
  | REps
  | RClass (k : cclass)
  | RStar (k : cclass)
  | RPlus (k : cclass)
  | RSeq (r1 r2 : regex)
  | RAlt (r1 r2 : regex)
  | RGroup (n : nat) (r : regex).

(** One way of matching at the start of a string: the text matched, the
    groups captured (most recent first), and what is left. *)
Record result := Result
  { matched : string; groups : list (nat * string); rest : string }.

Definition push (a : ascii) (x : result) : result :=
  Result (String a (matched x)) (groups x) (rest x).

(** All ways to match [k*] at the start of [s], longest first (greedy). *)
Fixpoint star (k : cclass) (s : string) : list result :=
  match s with
  | EmptyString => [Result "" [] ""]
  | String a r =>
      if in_class k a then (map (push a) (star k r) ++ [Result "" [] s])%list
      else [Result "" [] s]
  end.

(** All ways to match [r] at the start of [s], in the order a backtracking
    engine tries them. *)
Fixpoint run (r : regex) (s : string) : list result :=
  match r with
  | REps => [Result "" [] s]
  | RClass k =>
      match s with
      | String a t => if in_class k a then [Result (String a "") [] t] else []
      | EmptyString => []
      end
  | RStar k => star k s
  | RPlus k =>
      match s with
      | String a t => if in_class k a then map (push a) (star k t) else []
      | EmptyString => []
      end
  | RSeq r1 r2 =>
      x ← run r1 s;
      y ← run r2 (rest x);
      [Result (matched x ++ matched y) (groups y ++ groups x)%list (rest y)]
  | RAlt r1 r2 => (run r1 s ++ run r2 s)%list
  | RGroup n r1 =>
      map (fun x => Result (matched x) ((n, matched x) :: groups x) (rest x))
          (run r1 s)
  end.

(** [pattern.match(s)] *)
Definition match_ (r : regex) (s : string) : option result := head (run r s).

(** [pattern.search(s)]: the first position, from the left, with a match. *)
Fixpoint search (r : regex) (s : string) : option result :=
  match match_ r s with
  | Some x => Some x
  | None => match s with
            | EmptyString => None
            | String _ t => search r t
            end
  end.

(** [m.group(n)] *)
Definition group (m : result) (n : nat) : option string :=
  snd <$> List.find (fun g => Nat.eqb (fst g) n) (groups m).

End re.

(** ** The file system: [os.path.exists], [os.makedirs]

    Paths are compared as written: the model does not identify [a//b] with
    [a/b].  The program only tests and creates paths that come out of
    [path.dirname] and [path.join]. *)
Module os.

Definition path_exists (p : string) : M bool :=
  fun w => (inr (bool_decide (is_Some (fs w !! p))), w).

(** The directories above [s]: for [a/b/c], [a] and [a/b]. *)
Fixpoint dir_prefixes (acc s : string) : list string :=
  match s with
  | EmptyString => []
  | String c r =>
      if str.eqb_ascii c path.sep
      then ((if String.eqb acc "" || str.endswith_char acc path.sep
             then [] else [acc]) ++ dir_prefixes (acc ++ "/") r)%list
      else dir_prefixes (acc ++ String c "") r
  end.

Definition is_file (m : gmap string node) (p : string) : bool :=
  match m !! p with Some (File _) => true | _ => false end.

Definition mkdir_all (ps : list string) (m : gmap string node)
  : gmap string node :=
  foldr (fun q acc => <[q := Dir]> acc) m ps.

(** When [os.makedirs(p)] fails: on the empty path, when [p] exists, and
    when a path component is a regular file. *)
Definition makedirs_blocked (p : string) (m : gmap string node) : bool :=
  String.eqb p "" || bool_decide (is_Some (m !! p))
  || existsb (is_file m) (dir_prefixes "" p ++ [p])%list.

(** [os.makedirs(p)] with [exist_ok=False]: creates [p] and the missing
    directories above it, or raises an [OSError]. *)
Definition makedirs (p : string) : M unit :=
  fun w =>
    if makedirs_blocked p (fs w) then (inl IOError, w)
    else (inr tt, World (mkdir_all (dir_prefixes "" p ++ [p])%list (fs w))
                        (trace w ++ [EvMakedirs p])%list).

End os.

(** ** The image library and the host

    PIL is outside the repository: its images and operations are taken as an
    interface.  [decode] is what [Image.open] makes of a file's bytes ([None]:
    it raises [UnidentifiedImageError], an [OSError]); [encode] is what
    [Image.save] would write for a file name (it may raise: an unknown
    extension is a [ValueError], an unsupported mode an [OSError]). *)
Class PIL := {
  Image : Type;
  size : Image -> Z * Z;
  ImageOps_fit : Image -> Z * Z -> exn + Image;
  Image_copy_thumbnail : Image -> Z * Z -> exn + Image;
  decode : string -> option Image;
  encode : Image -> string -> exn + string;
}.

(** What the program asks of its surroundings: whether [from PIL import ...]
    succeeded, the working directory, the listing [os.walk] gives for a
    directory, [re.compile], and [template.format(filename=, url=,
    thumbnail=)]. *)
Class Host := {
  enabled : bool;
  getcwd : string;
  os_walk : string -> list (string * list string * list string);
  re_compile : string -> exn + re.regex;
  str_format : string -> list (string * string) -> exn + string;
}.

(** [pelican.settings]: [PATH] and [OUTPUT_PATH] are read with
    [settings[...]], the other keys with [settings.get(...)]; an absent key is
    [None].  [THUMBNAIL_SIZES] lists the items of the configured dict in
    order. *)
Record Settings := {
  PATH : string;
  OUTPUT_PATH : string;
  IMAGE_PATH : option string;
  THUMBNAIL_DIR : option string;
  THUMBNAIL_SIZES : option (list (string * string));
  THUMBNAIL_INCLUDE_REGEX : option string;
  THUMBNAIL_KEEP_NAME : option bool;
  THUMBNAIL_KEEP_TREE : option bool;
  GALLERY_TEMPLATE : option string;
  GALLERY_THUMBNAIL : option string;
}.

Record Pelican := { settings : Settings }.

(** The values a metadata field holds here: [None] or a string. *)
Inductive pyval := PyNone | PyStr (s : string).

(** Truth value of an optional flag and of an optional string. *)
Definition truthy (o : option bool) : bool := default false o.
Definition truthy_str (o : option string) : bool :=
  match o with
  | Some s => negb (String.eqb s "")
  | None => false
  end.

Definition dq : string := String (ascii_of_nat 34) "".
Definition nl : string := String (ascii_of_nat 10) "".
Definition backslash : string := String (ascii_of_nat 92) "".

Definition DEFAULT_IMAGE_DIR := "pictures".
Definition DEFAULT_THUMBNAIL_DIR := "thumbnails".
Definition DEFAULT_THUMBNAIL_SIZES : list (string * string) :=
  [("thumbnail_square", "150"); ("thumbnail_wide", "150x?");
   ("thumbnail_tall", "?x150")].
Definition DEFAULT_TEMPLATE : string :=
  "<a href=" ++ dq ++ "{url}" ++ dq ++ " rel=" ++ dq ++ "shadowbox" ++ dq
  ++ " title=" ++ dq ++ "{filename}" ++ dq ++ "><img src=" ++ dq
  ++ "{thumbnail}" ++ dq ++ " alt=" ++ dq ++ "{filename}" ++ dq ++ "></a>".
Definition DEFAULT_GALLERY_THUMB := "thumbnail_square".

(** ** class Resizer *)

Record Resizer := mkResizer { _name : string; _spec : string; _root : string }.

(** [REGEX = re.compile(r"(\d+|\?)x(\d+|\?)")] *)
Definition REGEX : re.regex :=
  let dim := re.RAlt (re.RPlus re.CDigit) (re.RClass (re.CChar "?")) in
  re.RSeq (re.RGroup 1 dim) (re.RSeq (re.RClass (re.CChar "x")) (re.RGroup 2 dim)).

(** [Resizer.__init__]: three assignments. *)
Definition Resizer__init__ (name spec root : string) : exn + Resizer :=
  inr (mkResizer name spec root).

(** The bound method held by the local variable [resizer]. *)
Inductive resizer_fn := null_resize | exact_resize | aspect_resize.

Definition __name__ (f : resizer_fn) : string :=
  match f with
  | null_resize => "_null_resize"
  | exact_resize => "_exact_resize"
  | aspect_resize => "_aspect_resize"
  end.

(** The local variables of [resize]; [None] is a name not yet bound. *)
Record locals := Locals
  { resizer : resizer_fn; targetw : option Z; targeth : option Z }.

Section thumbnailer.
Context {pil : PIL} {host : Host}.

Definition _null_resize (w h : Z) (image : Image) : exn + Image := inr image.
Definition _exact_resize (w h : Z) (image : Image) : exn + Image :=
  ImageOps_fit image (w, h).
Definition _aspect_resize (w h : Z) (image : Image) : exn + Image :=
  Image_copy_thumbnail image (w, h).

Definition call (f : resizer_fn) : Z -> Z -> Image -> exn + Image :=
  match f with
  | null_resize => _null_resize
  | exact_resize => _exact_resize
  | aspect_resize => _aspect_resize
  end.

(** Lines 54-88 of [resize]: the choice of [resizer], [targetw], [targeth]. *)
Definition resize_locals (self : Resizer) (image : Image) : exn + locals :=
  let l0 := Locals null_resize None None in
  if negb (str.contains_char "x" (_spec self)) then
    do n <-e int (Some (_spec self));
    inr (Locals exact_resize (Some n) (Some n))
  else
    match re.search REGEX (_spec self) with
    | None => inl AttributeError
    | Some matches =>
        let tmpw := re.group matches 1 in
        let tmph := re.group matches 2 in
        (* Full Size *)
        let l1 :=
          if bool_decide (tmpw = Some "?") && bool_decide (tmph = Some "?")
          then Locals null_resize (Some (size image).1) (Some (size image).2)
          else l0 in
        (* Set Height Size *)
        if bool_decide (tmpw = Some "?") then
          do h <-e int tmph;
          inr (Locals aspect_resize (Some (size image).1) (Some h))
        (* Set Width Size *)
        else if bool_decide (tmph = Some "?") then
          do w <-e int tmpw;
          inr (Locals aspect_resize (Some w) (Some (size image).2))
        (* Scale and Crop *)
        else
          do w <-e int tmpw;
          do h <-e int tmph;
          inr (Locals exact_resize (Some w) (Some h))
    end.

Definition resize (self : Resizer) (image : Image) : M Image :=
  do l <- lift (resize_locals self image);
  do _ <- logger.debug ("Using resizer " ++ __name__ (resizer l));
  match targetw l, targeth l with
  | Some w, Some h => lift (call (resizer l) w h image)
  | _, _ => raise UnboundLocalError
  end.

Definition get_thumbnail_name (self : Resizer) (in_path : string) : string :=
  let prefix := path.commonprefix in_path (_root self) in
  let new_filename := str.drop (String.length prefix) in_path in
  let new_filename :=
    if str.startswith new_filename "/" then str.drop 1 new_filename
    else new_filename in
  let '(basename, ext) := path.splitext new_filename in
  basename ++ "_" ++ _name self ++ ext.

(** [Image.open(p)]: an [OSError] when there is no such file or its bytes
    are not an image PIL can identify. *)
Definition Image_open (p : string) : M Image :=
  do _ <- emit (EvOpen p);
  fun w => match fs w !! p with
           | Some (File bytes) =>
               match decode bytes with
               | Some image => (inr image, w)
               | None => (inl IOError, w)
               end
           | _ => (inl IOError, w)
           end.

(** [image.save(filename)]: the format comes from the extension, then the
    file is created and written.  A failed save leaves no file. *)
Definition Image_save (image : Image) (filename : string) : M unit :=
  do bytes <- lift (encode image filename);
  fun w =>
    let parent := path.dirname filename in
    if (negb (String.eqb parent "") && negb (bool_decide (fs w !! parent = Some Dir)))
       || bool_decide (fs w !! filename = Some Dir)
    then (inl IOError, w)
    else (inr tt, World (<[filename := File bytes]> (fs w))
                        (trace w ++ [EvSave filename])%list).

Definition resize_file_to (self : Resizer) (in_path out_path : string)
    (keep_filename : option bool) : M unit :=
  let filename :=
    if truthy keep_filename
    then path.join out_path [path.basename in_path]
    else path.join out_path [get_thumbnail_name self in_path] in
  let out_path := path.dirname filename in
  do e <- os.path_exists out_path;
  do _ <- (if negb e then os.makedirs out_path else ret tt);
  do e <- os.path_exists filename;
  if negb e then
    try_except
      (do image <- Image_open in_path;
       do thumbnail <- resize self image;
       do _ <- Image_save thumbnail filename;
       logger.info ("Generated Thumbnail " ++ path.basename filename))
      IOError
      (logger.info ("Generating Thumbnail for " ++ path.basename filename
                    ++ " skipped"))
  else ret tt.

Definition _image_path (pelican : Pelican) : string :=
  str.rstrip_char "/"
    (path.join (PATH (settings pelican))
               [default DEFAULT_IMAGE_DIR (IMAGE_PATH (settings pelican))]).

Definition get_out_path (pelican : Pelican) (in_path in_filename name : string)
  : M string :=
  let base_out_path :=
    path.join (OUTPUT_PATH (settings pelican))
              [default DEFAULT_THUMBNAIL_DIR (THUMBNAIL_DIR (settings pelican))] in
  do _ <- logger.debug ("Processing thumbnail " ++ in_filename ++ "=>" ++ name);
  if truthy (THUMBNAIL_KEEP_NAME (settings pelican)) then
    if truthy (THUMBNAIL_KEEP_TREE (settings pelican)) then
      match path.relpath getcwd in_filename in_path with
      | Some rel => ret (path.join base_out_path [name; path.dirname rel])
      | None => raise ValueError
      end
    else ret (path.join base_out_path [name])
  else ret base_out_path.

(** [dict((k, Resizer(k, v, in_path)) for k, v in sizes.items())] *)
Fixpoint make_resizers (in_path : string) (sizes : list (string * string))
  : exn + list (string * Resizer) :=
  match sizes with
  | [] => inr []
  | (k, v) :: rest =>
      do r <-e Resizer__init__ k v in_path;
      do rs <-e make_resizers in_path rest;
      inr ((k, r) :: rs)
  end.

(** Lines 144-149: the inclusion filter. *)
Definition make_is_included (pelican : Pelican) : exn + (string -> bool) :=
  let include_regex := THUMBNAIL_INCLUDE_REGEX (settings pelican) in
  if truthy_str include_regex then
    do pattern <-e re_compile (default "" include_regex);
    inr (fun name => bool_decide (is_Some (re.match_ pattern name)))
  else inr (fun name => negb (str.startswith name ".")).

Definition resize_thumbnails (pelican : Pelican) : M unit :=
  if negb enabled then ret tt
  else
    let in_path := _image_path pelican in
    do is_included <- lift (make_is_included pelican);
    let sizes :=
      default DEFAULT_THUMBNAIL_SIZES (THUMBNAIL_SIZES (settings pelican)) in
    do resizers <- lift (make_resizers in_path sizes);
    do _ <- logger.debug "Thumbnailer Started";
    for_ (os_walk in_path) (fun '(dirpath, _, filenames) =>
      for_ filenames (fun filename =>
        if is_included filename then
          for_ resizers (fun '(name, resizer) =>
            let in_filename := path.join dirpath [filename] in
            do out_path <- get_out_path pelican in_path in_filename name;
            resize_file_to resizer in_filename out_path
              (THUMBNAIL_KEEP_NAME (settings pelican)))
        else ret tt)).

(** The [url] and [thumbnail] computed for one file of the gallery. *)
Definition gallery_url (generator : Pelican) (base_path dirpath filename : string)
  : string :=
  let url := str.drop 1 (str.replace (path.join dirpath [filename]) base_path "") in
  str.replace
    (path.join "/static"
       [default DEFAULT_IMAGE_DIR (IMAGE_PATH (settings generator)); url])
    backslash "/".

Definition gallery_thumbnail (generator : Pelican) (resizer : Resizer)
    (filename : string) : string :=
  let thumbnail := get_thumbnail_name resizer filename in
  str.replace
    (path.join "/"
       [default DEFAULT_THUMBNAIL_DIR (THUMBNAIL_DIR (settings generator));
        thumbnail])
    backslash "/".

(** The body of the inner loop: one more line, or none for a dot file. *)
Definition gallery_line (generator : Pelican) (template base_path : string)
    (resizer : Resizer) (dirpath : string) (lines : list string)
    (filename : string) : M (list string) :=
  if negb (str.startswith filename ".") then
    let url := gallery_url generator base_path dirpath filename in
    do _ <- logger.debug ("GALLERY: " ++ url);
    let thumbnail := gallery_thumbnail generator resizer filename in
    do line <- lift (str_format template
                       [("filename", filename); ("url", url);
                        ("thumbnail", thumbnail)]);
    ret (lines ++ [line])%list
  else ret lines.

Definition expand_gallery (generator : Pelican) (metadata : gmap string pyval)
  : M (gmap string pyval) :=
  match metadata !! "gallery" with
  | None | Some PyNone => ret metadata
  | Some (PyStr gallery) =>
      let lines := [] in
      let base_path := _image_path generator in
      let in_path := path.join base_path [gallery] in
      let template :=
        default DEFAULT_TEMPLATE (GALLERY_TEMPLATE (settings generator)) in
      let thumbnail_name :=
        default DEFAULT_GALLERY_THUMB (GALLERY_THUMBNAIL (settings generator)) in
      do resizer <- lift (Resizer__init__ thumbnail_name "?x?" base_path);
      do lines <-
        fold_ (os_walk in_path) lines (fun lines '(dirpath, _, filenames) =>
          fold_ filenames lines
            (gallery_line generator template base_path resizer dirpath));
      ret (<["gallery_content" := PyStr (str.join nl lines)]> metadata)
  end.

End thumbnailer.

(** ** A small concrete image library and host, to run the program on *)

Module demo.

(** Images are just their sizes; a file holding [WxH] decodes to that size. *)
Definition demo_decode (bytes : string) : option (Z * Z) :=
  match re.match_ REGEX bytes with
  | Some m =>
      match int (re.group m 1), int (re.group m 2) with
      | inr w, inr h => Some (w, h)
      | _, _ => None
      end
  | None => None
  end.

Definition demo_fit (image : Z * Z) (box : Z * Z) : exn + (Z * Z) :=
  if (0 <? box.1) && (0 <? box.2) then inr box else inl ValueError.

(** Shrinks to fit the box, keeping the aspect ratio; never enlarges. *)
Definition demo_thumbnail (image : Z * Z) (box : Z * Z) : exn + (Z * Z) :=
  let '(x, y) := image in
  let '(x, y) := if box.1 <? x then (box.1, Z.max (y * box.1 / x) 1) else (x, y) in
  let '(x, y) := if box.2 <? y then (Z.max (x * box.2 / y) 1, box.2) else (x, y) in
  inr (x, y).

Definition demo_encode (image : Z * Z) (filename : string) : exn + string :=
  let ext := (path.splitext filename).2 in
  if bool_decide (ext ∈ [".jpg"; ".png"; ".gif"]) then inr "IMG"
  else inl ValueError.

#[export] Instance demo_pil : PIL := {|
  Image := Z * Z;
  size := id;
  ImageOps_fit := demo_fit;
  Image_copy_thumbnail := demo_thumbnail;
  decode := demo_decode;
  encode := demo_encode;
|}.

(** Patterns without metacharacters. *)
Fixpoint literal (s : string) : re.regex :=
  match s with
  | EmptyString => re.REps
  | String a r => re.RSeq (re.RClass (re.CChar a)) (literal r)
  end.

(** [template.format] with keyword arguments [kw], for templates whose only braces are plain
    fields [{name}]. *)
Fixpoint format_from (kw : list (string * string)) (field : option string)
    (s : string) : exn + string :=
  match s with
  | EmptyString => match field with None => inr "" | Some _ => inl ValueError end
  | String a r =>
      match field with
      | None =>
          if str.eqb_ascii a "{" then format_from kw (Some "") r
          else if str.eqb_ascii a "}" then inl ValueError
          else do out <-e format_from kw None r; inr (String a out)
      | Some f =>
          if str.eqb_ascii a "}" then
            match List.find (fun kv => String.eqb kv.1 f) kw with
            | Some kv => do out <-e format_from kw None r; inr (kv.2 ++ out)
            | None => inl (OtherError "KeyError")
            end
          else format_from kw (Some (f ++ String a "")) r
      end
  end.

Definition pictures := "/site/content/pictures".

Definition demo_walk (top : string) : list (string * list string * list string) :=
  if String.eqb top pictures then
    [(pictures, ["sub"; "vacation"], ["a.jpg"; ".hidden.jpg"; "notes.txt"]);
     (pictures ++ "/sub", [], ["img.jpg"]);
     (pictures ++ "/vacation", ["day1"], ["a.jpg"; ".hidden.jpg"]);
     (pictures ++ "/vacation/day1", [], ["b.png"])]
  else if String.eqb top (pictures ++ "/vacation") then
    [(pictures ++ "/vacation", ["day1"], ["a.jpg"; ".hidden.jpg"]);
     (pictures ++ "/vacation/day1", [], ["b.png"])]
  else [].

#[export] Instance demo_host : Host := {|
  enabled := true;
  getcwd := "/site";
  os_walk := demo_walk;
  re_compile := fun s => inr (literal s);
  str_format := fun template kw => format_from kw None template;
|}.

Definition demo_settings : Settings := {|
  PATH := "/site/content";
  OUTPUT_PATH := "/site/output";
  IMAGE_PATH := None;
  THUMBNAIL_DIR := None;
  THUMBNAIL_SIZES := Some [("thumb", "100x100")];
  THUMBNAIL_INCLUDE_REGEX := None;
  THUMBNAIL_KEEP_NAME := None;
  THUMBNAIL_KEEP_TREE := None;
  GALLERY_TEMPLATE := None;
  GALLERY_THUMBNAIL := None;
|}.

Definition demo_pelican : Pelican := {| settings := demo_settings |}.

Definition demo_fs : gmap string node :=
  list_to_map
    [("/site", Dir); ("/site/content", Dir); (pictures, Dir);
     (pictures ++ "/sub", Dir); (pictures ++ "/vacation", Dir);
     (pictures ++ "/vacation/day1", Dir);
     (pictures ++ "/a.jpg", File "400x300");
     (pictures ++ "/.hidden.jpg", File "10x10");
     (pictures ++ "/notes.txt", File "remember the milk");
     (pictures ++ "/sub/img.jpg", File "640x480");
     (pictures ++ "/vacation/a.jpg", File "800x600");
     (pictures ++ "/vacation/.hidden.jpg", File "1x1");
     (pictures ++ "/vacation/day1/b.png", File "50x50");
     ("/site/output", Dir)].

Definition demo_world : world := World demo_fs [].

End demo.

(** * Vocabulary of the statements *)

Section vocabulary.
Context {pil : PIL} {host : Host}.

(** A well-formed dimension: a non-empty string of decimal digits. *)
Fixpoint all_digits (s : string) : bool :=
  match s with
  | EmptyString => true
  | String a r => is_digit a && all_digits r
  end.

Definition numeric (s : string) : bool :=
  negb (String.eqb s "") && all_digits s.

(** The number a string of digits denotes. *)
Fixpoint decimal_from (acc : Z) (s : string) : Z :=
  match s with
  | EmptyString => acc
  | String a r => decimal_from (10 * acc + digit_val a) r
  end.

Definition decimal (s : string) : Z := decimal_from 0 s.

(** Where a greedy run of digits stops: at the end, or before a non-digit. *)
Definition stops (s : string) : bool :=
  match s with
  | EmptyString => true
  | String c _ => negb (is_digit c)
  end.

(** One side of [REGEX]: [\d+|\?]. *)
Definition dim : re.regex :=
  re.RAlt (re.RPlus re.CDigit) (re.RClass (re.CChar "?")).

(** A dimension token: digits or the question mark. *)
Definition token (s : string) : bool := numeric s || String.eqb s "?".

(** A spec that is neither an integer for [int] nor matched by [REGEX]. *)
Definition malformed (spec : string) : bool :=
  bool_decide (int_literal spec = None)
  && bool_decide (re.search REGEX spec = None).

(** The world after [logger.debug(msg)]. *)
Definition logged (w : world) (msg : string) : world :=
  World (fs w) (trace w ++ [EvLog DEBUG msg])%list.

(** What is left of a path once one leading separator is removed. *)
Definition strip_sep (s : string) : string :=
  if str.startswith s "/" then str.drop 1 s else s.

(** [name] put, after an underscore, before the extension of [s]. *)
Definition suffixed (name s : string) : string :=
  (path.splitext s).1 ++ "_" ++ name ++ (path.splitext s).2.

(** [Lang r s]: the regular expression [r] matches exactly the string [s]. *)
Inductive Lang : re.regex -> string -> Prop :=
  | Lang_eps : Lang re.REps ""
  | Lang_class k a : re.in_class k a = true -> Lang (re.RClass k) (String a "")
  | Lang_star_nil k : Lang (re.RStar k) ""
  | Lang_star_cons k a s :
      re.in_class k a = true -> Lang (re.RStar k) s -> Lang (re.RStar k) (String a s)
  | Lang_plus k a s :
      re.in_class k a = true -> Lang (re.RStar k) s -> Lang (re.RPlus k) (String a s)
  | Lang_seq r1 r2 s1 s2 :
      Lang r1 s1 -> Lang r2 s2 -> Lang (re.RSeq r1 r2) (s1 ++ s2)
  | Lang_alt_l r1 r2 s : Lang r1 s -> Lang (re.RAlt r1 r2) s
  | Lang_alt_r r1 r2 s : Lang r2 s -> Lang (re.RAlt r1 r2) s
  | Lang_group n r s : Lang r s -> Lang (re.RGroup n r) s.

(** One job of the batch: a source file, a resizer name and the resizer. *)
Definition job : Type := string * string * Resizer.

(** The body of the innermost loop of [resize_thumbnails]. *)
Definition run_job (pelican : Pelican) (in_path : string) (j : job) : M unit :=
  do out_path <- get_out_path pelican in_path j.1.1 j.1.2;
  resize_file_to j.2 j.1.1 out_path (THUMBNAIL_KEEP_NAME (settings pelican)).

(** The jobs in the order of the three nested loops. *)
Definition walk_jobs (is_included : string -> bool)
    (resizers : list (string * Resizer))
    (walk : list (string * list string * list string)) : list job :=
  entry ← walk;
  filename ← List.filter is_included entry.2;
  nr ← resizers;
  [(path.join entry.1.1 [filename], nr.1, nr.2)].

(** The [resizers] dict of [resize_thumbnails], as its items. *)
Definition batch_resizers (pelican : Pelican) : list (string * Resizer) :=
  map (fun kv => (kv.1, mkResizer kv.1 kv.2 (_image_path pelican)))
      (default DEFAULT_THUMBNAIL_SIZES (THUMBNAIL_SIZES (settings pelican))).

Definition batch_jobs (pelican : Pelican) (is_included : string -> bool)
  : list job :=
  walk_jobs is_included (batch_resizers pelican)
            (os_walk (_image_path pelican)).

(** [not filename.startswith(".")] *)
Definition not_hidden (filename : string) : bool :=
  negb (str.startswith filename ".").

(** The files a gallery shows, with their directories, in walk order. *)
Definition gallery_files (walk : list (string * list string * list string))
  : list (string * string) :=
  entry ← walk;
  filename ← List.filter not_hidden entry.2;
  [(entry.1.1, filename)].

(** [line] is the template rendered for the file [df.2] of directory [df.1]. *)
Definition rendered (generator : Pelican) (template base_path : string)
    (resizer : Resizer) (df : string * string) (line : string) : Prop :=
  str_format template
    [("filename", df.2);
     ("url", gallery_url generator base_path df.1 df.2);
     ("thumbnail", gallery_thumbnail generator resizer df.2)] = inr line.

Definition gallery_log (generator : Pelican) (base_path : string)
    (df : string * string) : event :=
  EvLog DEBUG ("GALLERY: " ++ gallery_url generator base_path df.1 df.2).

(** [old] occurs somewhere in [s]. *)
Fixpoint occurs (old s : string) : bool :=
  match s with
  | EmptyString => false
  | String _ r => str.startswith s old || occurs old r
  end.

(** A directory name that [path.join] appends as it is: not empty, no slash
    in front, none at the end. *)
Definition plain_dir (s : string) : bool :=
  negb (String.eqb s "") && negb (str.startswith s "/")
  && negb (str.endswith_char s path.sep).

(** The backslash. *)
Definition bs : ascii := ascii_of_nat 92.

(** The local [filename] of [resize_file_to]: where the thumbnail goes. *)
Definition target_filename (self : Resizer) (in_path out_path : string)
    (keep_filename : option bool) : string :=
  if truthy keep_filename
  then path.join out_path [path.basename in_path]
  else path.join out_path [get_thumbnail_name self in_path].

(** The [try] statement of [resize_file_to]. *)
Definition attempt (self : Resizer) (in_path filename : string) : M unit :=
  try_except
    (do image <- Image_open in_path;
     do thumbnail <- resize self image;
     do _ <- Image_save thumbnail filename;
     logger.info ("Generated Thumbnail " ++ path.basename filename))
    IOError
    (logger.info ("Generating Thumbnail for " ++ path.basename filename
                  ++ " skipped")).

(** [path.exists(p)] in the world [w]. *)
Definition present (p : string) (w : world) : bool :=
  bool_decide (is_Some (fs w !! p)).

(** The image [Image.open] gets from a path, if any. *)
Definition source_image (m : gmap string node) (p : string) : option Image :=
  match m !! p with
  | Some (File bytes) => decode bytes
  | _ => None
  end.

Definition skipped (filename : string) : event :=
  EvLog INFO ("Generating Thumbnail for " ++ path.basename filename ++ " skipped").

Definition generated (filename : string) : event :=
  EvLog INFO ("Generated Thumbnail " ++ path.basename filename).

Definition using_resizer (f : resizer_fn) : event :=
  EvLog DEBUG ("Using resizer " ++ __name__ f).

(** What the handler makes of an exception raised after the events [evs]. *)
Definition handled (filename : string) (e : exn) (evs : list event)
  : (exn + unit) * list event * option string :=
  if decide (e = IOError) then (inr tt, (evs ++ [skipped filename])%list, None)
  else (inl e, evs, None).

(** The [try] statement as a function of what it reads: the source image and
    the entry at the target's directory.  It gives the result, the events
    and the bytes written, if any. *)
Definition attempt_pure (self : Resizer) (in_path filename : string)
    (src : option Image) (parent : option node)
  : (exn + unit) * list event * option string :=
  match src with
  | None => handled filename IOError [EvOpen in_path]
  | Some image =>
      match resize_locals self image with
      | inl e => handled filename e [EvOpen in_path]
      | inr l =>
          let evs := [EvOpen in_path; using_resizer (resizer l)] in
          match targetw l, targeth l with
          | Some tw, Some th =>
              match call (resizer l) tw th image with
              | inl e => handled filename e evs
              | inr thumbnail =>
                  match encode thumbnail filename with
                  | inl e => handled filename e evs
                  | inr bytes =>
                      if negb (String.eqb (path.dirname filename) "")
                         && negb (bool_decide (parent = Some Dir))
                      then handled filename IOError evs
                      else (inr tt,
                            (evs ++ [EvSave filename; generated filename])%list,
                            Some bytes)
                  end
              end
          | _, _ => (inl UnboundLocalError, evs, None)
          end
      end
  end.

(** The world an outcome of the [try] statement leads to. *)
Definition apply_outcome (filename : string) (w : world)
    (o : (exn + unit) * list event * option string) : (exn + unit) * world :=
  (o.1.1,
   World (match o.2 with
          | Some bytes => <[filename := File bytes]> (fs w)
          | None => fs w
          end)
         (trace w ++ o.1.2)%list).

(** What the [try] statement computes from a decoded image for [save]: the
    bytes to write at [filename], or the exception raised on the way. *)
Definition thumbnail_bytes (self : Resizer) (image : Image) (filename : string)
  : exn + string :=
  match resize_locals self image with
  | inl e => inl e
  | inr l =>
      match targetw l, targeth l with
      | Some tw, Some th =>
          match call (resizer l) tw th image with
          | inl e => inl e
          | inr thumbnail => encode thumbnail filename
          end
      | _, _ => inl UnboundLocalError
      end
  end.

(** The second half of [resize_file_to], from [if not path.exists(filename)]
    on, in a world [w] where the directory has been dealt with. *)
Definition generate (self : Resizer) (in_path filename : string) (w : world)
  : (exn + unit) * world :=
  if present filename w then (inr tt, w)
  else apply_outcome filename w
         (attempt_pure self in_path filename
            (source_image (fs w) in_path) (fs w !! path.dirname filename)).

(** The world after [os.makedirs(d)] has succeeded in [w]. *)
Definition made (d : string) (w : world) : world :=
  World (os.mkdir_all (os.dir_prefixes "" d ++ [d])%list (fs w))
        (trace w ++ [EvMakedirs d])%list.

(** From [w] to [w'] nothing happened but debug logging. *)
Definition only_debug (w w' : world) : Prop :=
  fs w' = fs w
  /\ exists evs, trace w' = (trace w ++ evs)%list
                 /\ Forall (fun ev => exists msg, ev = EvLog DEBUG msg) evs.

(** The body of the gallery loops, on a file with its directory. *)
Definition gallery_step (generator : Pelican) (template base_path : string)
    (resizer : Resizer) (lines : list string) (df : string * string)
  : M (list string) :=
  gallery_line generator template base_path resizer df.1 lines df.2.

(** Events that do not write a file. *)
Definition no_save (evs : list event) : Prop :=
  forall p, EvSave p ∉ evs.

(** Two file systems with the same regular files. *)
Definition same_files (m m' : gmap string node) : Prop :=
  forall p c, m' !! p = Some (File c) <-> m !! p = Some (File c).

(** The value [get_out_path] returns. *)
Definition out_path_of (pelican : Pelican) (in_path in_filename name : string)
  : exn + string :=
  let base_out_path :=
    path.join (OUTPUT_PATH (settings pelican))
              [default DEFAULT_THUMBNAIL_DIR (THUMBNAIL_DIR (settings pelican))] in
  if truthy (THUMBNAIL_KEEP_NAME (settings pelican)) then
    if truthy (THUMBNAIL_KEEP_TREE (settings pelican)) then
      match path.relpath getcwd in_filename in_path with
      | Some rel => inr (path.join base_out_path [name; path.dirname rel])
      | None => inl ValueError
      end
    else inr (path.join base_out_path [name])
  else inr base_out_path.

(** The message [get_out_path] logs. *)
Definition processing (in_filename name : string) : string :=
  "Processing thumbnail " ++ in_filename ++ "=>" ++ name.

(** Events that only create directories. *)
Definition only_makedirs (evs : list event) : Prop :=
  Forall (fun e => exists d, e = EvMakedirs d) evs.

(** A path component as a directory listing gives it: not empty, without a
    separator, and neither [.] nor [..]. *)
Definition component (s : string) : bool :=
  negb (String.eqb s "") && negb (str.contains_char "/" s)
  && negb (String.eqb s ".") && negb (String.eqb s "..").

(** A normalised absolute path: [/c1/.../cn]. *)
Definition rooted (cs : list string) : string := "/" ++ str.join "/" cs.

(** A directory path [path.join] extends with a separator. *)
Definition dir_path (s : string) : bool :=
  negb (String.eqb s "") && negb (str.endswith_char s path.sep).

(** The directory [get_out_path] returns for a file in the subdirectory
    [dirs] of the image root. *)
Definition out_dir (pelican : Pelican) (name : string) (dirs : list string)
  : string :=
  if truthy (THUMBNAIL_KEEP_NAME (settings pelican)) then
    if truthy (THUMBNAIL_KEEP_TREE (settings pelican)) then
      path.join (OUTPUT_PATH (settings pelican))
                [default DEFAULT_THUMBNAIL_DIR (THUMBNAIL_DIR (settings pelican))]
      ++ "/" ++ name ++ "/" ++ str.join "/" dirs
    else
      path.join (OUTPUT_PATH (settings pelican))
                [default DEFAULT_THUMBNAIL_DIR (THUMBNAIL_DIR (settings pelican))]
      ++ "/" ++ name
  else
    path.join (OUTPUT_PATH (settings pelican))
              [default DEFAULT_THUMBNAIL_DIR (THUMBNAIL_DIR (settings pelican))].

(** The directory the thumbnail file of such a file is in. *)
Definition written_dir (pelican : Pelican) (name : string) (dirs : list string)
  : string :=
  if truthy (THUMBNAIL_KEEP_NAME (settings pelican)) then out_dir pelican name dirs
  else
    path.join (OUTPUT_PATH (settings pelican))
              [default DEFAULT_THUMBNAIL_DIR (THUMBNAIL_DIR (settings pelican))]
    ++ "/" ++ str.join "/" dirs.

End vocabulary.

(** ** More settings and worlds to run the program on *)

Module demo_regex.
Import demo.

(** The demo settings with the include-regex [b]. *)
Definition pelican_b : Pelican :=
  {| settings := {|
       PATH := "/site/content"; OUTPUT_PATH := "/site/output";
       IMAGE_PATH := None; THUMBNAIL_DIR := None;
       THUMBNAIL_SIZES := Some [("thumb", "100x100")];
       THUMBNAIL_INCLUDE_REGEX := Some "b";
       THUMBNAIL_KEEP_NAME := None; THUMBNAIL_KEEP_TREE := None;
       GALLERY_TEMPLATE := None; GALLERY_THUMBNAIL := None |} |}.
End demo_regex.

Module demo_gallery.
Import demo.

(** The demo settings with a short gallery template. *)
Definition pelican_g : Pelican :=
  {| settings := {|
       PATH := "/site/content"; OUTPUT_PATH := "/site/output";
       IMAGE_PATH := None; THUMBNAIL_DIR := None;
       THUMBNAIL_SIZES := None; THUMBNAIL_INCLUDE_REGEX := None;
       THUMBNAIL_KEEP_NAME := None; THUMBNAIL_KEEP_TREE := None;
       GALLERY_TEMPLATE := Some "{filename}|{url}|{thumbnail}";
       GALLERY_THUMBNAIL := None |} |}.

Definition vacation : gmap string pyval := {[ "gallery" := PyStr "vacation" ]}.

Definition vacation_lines : list string :=
  ["a.jpg|/static/pictures/vacation/a.jpg|/thumbnails/a_thumbnail_square.jpg";
   "b.png|/static/pictures/vacation/day1/b.png|/thumbnails/b_thumbnail_square.png"].

End demo_gallery.

Module demo_batch.
Import demo.

Definition thumb : Resizer := mkResizer "thumb" "100x100" pictures.

(** The world after one batch pass over the demo tree. *)
Definition after_first : world := (resize_thumbnails demo_pelican demo_world).2.

Definition job_a : job := (pictures ++ "/a.jpg", "thumb", thumb).
Definition job_notes : job := (pictures ++ "/notes.txt", "thumb", thumb).
Definition jobs_rest : list job :=
  [(pictures ++ "/sub/img.jpg", "thumb", thumb);
   (pictures ++ "/vacation/a.jpg", "thumb", thumb);
   (pictures ++ "/vacation/day1/b.png", "thumb", thumb)].

(** The world when the batch reaches the text file. *)
Definition before_notes : world :=
  (for_ [job_a] (run_job demo_pelican pictures)
        (logged demo_world "Thumbnailer Started")).2.

End demo_batch.

Module demo_tree.
Import demo.

(** The demo settings keeping the file names and the tree. *)
Definition pelican_tree : Pelican :=
  {| settings := {|
       PATH := "/site/content"; OUTPUT_PATH := "/site/output";
       IMAGE_PATH := None; THUMBNAIL_DIR := None;
       THUMBNAIL_SIZES := Some [("thumb", "100x100")];
       THUMBNAIL_INCLUDE_REGEX := None;
       THUMBNAIL_KEEP_NAME := Some true; THUMBNAIL_KEEP_TREE := Some true;
       GALLERY_TEMPLATE := None; GALLERY_THUMBNAIL := None |} |}.

End demo_tree.

(** The demo site with one size whose spec is a question mark on both
    sides. *)
Module demo_full.
Import demo.

Definition pelican_full : Pelican := {| settings := {|
  PATH := "/site/content";
  OUTPUT_PATH := "/site/output";
  IMAGE_PATH := None;
  THUMBNAIL_DIR := None;
  THUMBNAIL_SIZES := Some [("full", "?x?")];
  THUMBNAIL_INCLUDE_REGEX := None;
  THUMBNAIL_KEEP_NAME := None;
  THUMBNAIL_KEEP_TREE := None;
  GALLERY_TEMPLATE := None;
  GALLERY_THUMBNAIL := None;
|} |}.

Definition full : Resizer := mkResizer "full" "?x?" pictures.

Definition job_a : job := (pictures ++ "/a.jpg", "full", full).

Definition jobs_rest : list job :=
  [(pictures ++ "/notes.txt", "full", full);
   (pictures ++ "/sub/img.jpg", "full", full);
   (pictures ++ "/vacation/a.jpg", "full", full);
   (pictures ++ "/vacation/day1/b.png", "full", full)].

(** The world in which the pass stops, at the first picture. *)
Definition stopped : world :=
  (run_job pelican_full pictures job_a
           (logged demo_world "Thumbnailer Started")).2.

End demo_full.

(** Hosts on which a pass ends at once: one without PIL, one whose [re]
    rejects an unbalanced parenthesis; and settings that make the gallery
    template fail. *)
Module demo_failing.
Import demo.

Definition host_without_pil : Host := {|
  enabled := false;
  getcwd := "/site";
  os_walk := demo_walk;
  re_compile := fun s => inr (literal s);
  str_format := fun template kw => format_from kw None template;
|}.

Definition host_strict : Host := {|
  enabled := true;
  getcwd := "/site";
  os_walk := demo_walk;
  re_compile := fun s => if String.eqb s "(" then inl re_error else inr (literal s);
  str_format := fun template kw => format_from kw None template;
|}.

Definition pelican_bad_regex : Pelican := {| settings := {|
  PATH := "/site/content";
  OUTPUT_PATH := "/site/output";
  IMAGE_PATH := None;
  THUMBNAIL_DIR := None;
  THUMBNAIL_SIZES := None;
  THUMBNAIL_INCLUDE_REGEX := Some "(";
  THUMBNAIL_KEEP_NAME := None;
  THUMBNAIL_KEEP_TREE := None;
  GALLERY_TEMPLATE := None;
  GALLERY_THUMBNAIL := None;
|} |}.

Definition pelican_bad_template : Pelican := {| settings := {|
  PATH := "/site/content";
  OUTPUT_PATH := "/site/output";
  IMAGE_PATH := None;
  THUMBNAIL_DIR := None;
  THUMBNAIL_SIZES := None;
  THUMBNAIL_INCLUDE_REGEX := None;
  THUMBNAIL_KEEP_NAME := None;
  THUMBNAIL_KEEP_TREE := None;
  GALLERY_TEMPLATE := Some "{filename} {caption}";
  GALLERY_THUMBNAIL := None;
|} |}.

Definition missing : gmap string pyval := {[ "gallery" := PyStr "nowhere" ]}.

End demo_failing.

(** * Lemmas and theorems *)

(** ** The model on concrete inputs *)

Section running_the_model.
#[local] Existing Instance demo.demo_pil.
#[local] Existing Instance demo.demo_host.

Example join_absolute_restarts :
  path.join "/out" ["thumbnails"; "/abs"; "x.jpg"] = "/abs/x.jpg".
Proof. reflexivity. Qed.

Example join_empty_last : path.join "/out/thumb" [""] = "/out/thumb/".
Proof. reflexivity. Qed.

Example dirname_nested :
  path.dirname "/out/thumbnails/sub/img_thumb.jpg" = "/out/thumbnails/sub".
Proof. reflexivity. Qed.

Example dirname_bare : path.dirname "img.jpg" = "".
Proof. reflexivity. Qed.

Example dirname_root : path.dirname "//img.jpg" = "//".
Proof. reflexivity. Qed.

Example splitext_last_dot :
  path.splitext "sub/.img.tar.gz" = ("sub/.img.tar", ".gz").
Proof. reflexivity. Qed.

Example splitext_leading_dots : path.splitext "sub/..bashrc" = ("sub/..bashrc", "").
Proof. reflexivity. Qed.

Example commonprefix_by_character :
  path.commonprefix "cat.jpg" "content/pictures" = "c".
Proof. reflexivity. Qed.

Example normpath_dots : path.normpath "/a//b/./c/../d/" = "/a/b/d".
Proof. reflexivity. Qed.

Example relpath_below_start :
  path.relpath "/cwd" "/a/b/c/d.jpg" "/a/b" = Some "c/d.jpg".
Proof. reflexivity. Qed.

Example relpath_beside_start :
  path.relpath "/cwd" "x/../c/d.jpg" "y" = Some "../c/d.jpg".
Proof. reflexivity. Qed.

Example replace_every_occurrence : str.replace "/a/b/a/b" "/a" "" = "/b/b".
Proof. reflexivity. Qed.

Example int_sign_space_underscore : int (Some " +1_000 ") = inr 1000.
Proof. reflexivity. Qed.

Example int_question_mark : int (Some "?") = inl ValueError.
Proof. reflexivity. Qed.

Example search_skips_to_a_match :
  (fun m => (re.group m 1, re.group m 2)) <$> re.search REGEX "12ax3x41b"
  = Some (Some "3", Some "41").
Proof. reflexivity. Qed.

Example search_without_match : re.search REGEX "boxus" = None.
Proof. reflexivity. Qed.

Example default_sizes_on_a_wide_image :
  map (fun kv => (resize (mkResizer kv.1 kv.2 "/pics") ((400, 300) : Image)
                         demo.demo_world).1)
      DEFAULT_THUMBNAIL_SIZES
  = [inr (150, 150); inr (150, 112); inr (200, 150)].
Proof. reflexivity. Qed.

Example thumbnail_name_of_nested_file :
  get_thumbnail_name (mkResizer "thumb" "150" "/site/content/pictures")
                     "/site/content/pictures/sub/img.jpg"
  = "sub/img_thumb.jpg".
Proof. reflexivity. Qed.

(** One batch pass over the demo tree: what it does, in order. *)
Example batch_pass_trace :
  (resize_thumbnails demo.demo_pelican demo.demo_world).1 = inr tt
  /\ trace (resize_thumbnails demo.demo_pelican demo.demo_world).2
     = [EvLog DEBUG "Thumbnailer Started";
        EvLog DEBUG "Processing thumbnail /site/content/pictures/a.jpg=>thumb";
        EvMakedirs "/site/output/thumbnails";
        EvOpen "/site/content/pictures/a.jpg";
        EvLog DEBUG "Using resizer _exact_resize";
        EvSave "/site/output/thumbnails/a_thumb.jpg";
        EvLog INFO "Generated Thumbnail a_thumb.jpg";
        EvLog DEBUG "Processing thumbnail /site/content/pictures/notes.txt=>thumb";
        EvOpen "/site/content/pictures/notes.txt";
        EvLog INFO "Generating Thumbnail for notes_thumb.txt skipped";
        EvLog DEBUG "Processing thumbnail /site/content/pictures/sub/img.jpg=>thumb";
        EvMakedirs "/site/output/thumbnails/sub";
        EvOpen "/site/content/pictures/sub/img.jpg";
        EvLog DEBUG "Using resizer _exact_resize";
        EvSave "/site/output/thumbnails/sub/img_thumb.jpg";
        EvLog INFO "Generated Thumbnail img_thumb.jpg";
        EvLog DEBUG "Processing thumbnail /site/content/pictures/vacation/a.jpg=>thumb";
        EvMakedirs "/site/output/thumbnails/vacation";
        EvOpen "/site/content/pictures/vacation/a.jpg";
        EvLog DEBUG "Using resizer _exact_resize";
        EvSave "/site/output/thumbnails/vacation/a_thumb.jpg";
        EvLog INFO "Generated Thumbnail a_thumb.jpg";
        EvLog DEBUG "Processing thumbnail /site/content/pictures/vacation/day1/b.png=>thumb";
        EvMakedirs "/site/output/thumbnails/vacation/day1";
        EvOpen "/site/content/pictures/vacation/day1/b.png";
        EvLog DEBUG "Using resizer _exact_resize";
        EvSave "/site/output/thumbnails/vacation/day1/b_thumb.png";
        EvLog INFO "Generated Thumbnail b_thumb.png"].
Proof. split; vm_compute; reflexivity. Qed.

(** A malformed spec stops the batch at the first image that decodes. *)
Example batch_with_malformed_spec :
  (resize_thumbnails
     {| settings := {|
          PATH := "/site/content"; OUTPUT_PATH := "/site/output";
          IMAGE_PATH := None; THUMBNAIL_DIR := None;
          THUMBNAIL_SIZES := Some [("thumb", "bogus")];
          THUMBNAIL_INCLUDE_REGEX := None;
          THUMBNAIL_KEEP_NAME := None; THUMBNAIL_KEEP_TREE := None;
          GALLERY_TEMPLATE := None; GALLERY_THUMBNAIL := None |} |}
     demo.demo_world).1
  = inl ValueError.
Proof. vm_compute. reflexivity. Qed.

End running_the_model.

(** ** Facts about strings *)

Section string_facts.

Lemma sapp_assoc (a b c : string) : (a ++ b) ++ c = a ++ (b ++ c).
Proof. induction a as [|x a IH]; simpl; [reflexivity | by rewrite IH]. Qed.

Lemma sapp_nil_r (a : string) : a ++ "" = a.
Proof. induction a as [|x a IH]; simpl; [reflexivity | by rewrite IH]. Qed.

Lemma slength_app (a b : string) :
  String.length (a ++ b) = (String.length a + String.length b)%nat.
Proof. induction a as [|x a IH]; simpl; [reflexivity | by rewrite IH]. Qed.

Lemma eqb_ascii_true a b : str.eqb_ascii a b = true <-> a = b.
Proof. apply Ascii.eqb_eq. Qed.

Lemma eqb_ascii_refl a : str.eqb_ascii a a = true.
Proof. apply Ascii.eqb_refl. Qed.

Lemma sdrop_app_length (a b : string) : str.drop (String.length a) (a ++ b) = b.
Proof. induction a as [|x a IH]; simpl; [by destruct b | exact IH]. Qed.

Lemma stake_app_length (a b : string) : str.take (String.length a) (a ++ b) = a.
Proof.
  induction a as [|x a IH]; simpl; [by destruct b | by rewrite IH].
Qed.

Lemma startswith_app (a b : string) : str.startswith (a ++ b) a = true.
Proof.
  induction a as [|x a IH]; simpl; [reflexivity|].
  by rewrite eqb_ascii_refl, IH.
Qed.

Lemma startswith_inv (s p : string) :
  str.startswith s p = true -> exists t, s = p ++ t.
Proof.
  revert s. induction p as [|x p IH]; intros s H; simpl in *.
  - by exists s.
  - destruct s as [|y s]; [discriminate|].
    apply andb_prop in H as [E H]. apply eqb_ascii_true in E as ->.
    destruct (IH _ H) as [t Ht]. exists t. by rewrite Ht.
Qed.

(** The common prefix of a path and a root it extends is the root. *)
Lemma commonprefix_app (a b : string) : path.commonprefix (a ++ b) a = a.
Proof.
  induction a as [|x a IH]; simpl.
  - by destruct b.
  - by rewrite eqb_ascii_refl, IH.
Qed.

Lemma commonprefix_is_prefix_l (a b : string) :
  exists t, a = path.commonprefix a b ++ t.
Proof.
  revert b. induction a as [|x a IH]; intros b; simpl.
  - by exists "".
  - destruct b as [|y b]; [by eexists|].
    destruct (str.eqb_ascii x y); [|by eexists].
    destruct (IH b) as [t Ht]. exists t. simpl. by rewrite <- Ht.
Qed.

Lemma commonprefix_is_prefix_r (a b : string) :
  exists t, b = path.commonprefix a b ++ t.
Proof.
  revert b. induction a as [|x a IH]; intros b; simpl.
  - by exists b.
  - destruct b as [|y b]; [by eexists|].
    destruct (str.eqb_ascii x y) eqn:E; [|by eexists].
    apply eqb_ascii_true in E as ->.
    destruct (IH b) as [t Ht]. exists t. simpl. by rewrite <- Ht.
Qed.

Lemma commonprefix_longest (a b q ta tb : string) :
  a = q ++ ta -> b = q ++ tb -> exists t, path.commonprefix a b = q ++ t.
Proof.
  revert a b. induction q as [|x q IH]; intros a b -> ->; simpl.
  - by eexists.
  - rewrite eqb_ascii_refl. destruct (IH _ _ eq_refl eq_refl) as [t ->].
    by exists t.
Qed.

End string_facts.

(** ** Facts about [int] and the regular expression of [Resizer] *)

Section int_regex_facts.

Lemma is_digit_cases a :
  is_digit a = true ->
  a ∈ ["0"; "1"; "2"; "3"; "4"; "5"; "6"; "7"; "8"; "9"]%char.
Proof.
  destruct a as [[] [] [] [] [] [] [] []]; vm_compute; intros H;
    try discriminate H; set_solver.
Qed.

Lemma is_digit_plain a :
  is_digit a = true ->
  is_space a = false /\ a <> "+"%char /\ a <> "-"%char /\ a <> "_"%char
  /\ a <> "x"%char /\ a <> "?"%char.
Proof.
  intros H%is_digit_cases.
  repeat (apply elem_of_cons in H as [->|H]; [by vm_compute|]).
  by apply elem_of_nil in H.
Qed.

Lemma int_digits_all s : forall acc prev,
  all_digits s = true -> (s <> "" \/ prev = true) ->
  int_digits acc prev s = Some (decimal_from acc s).
Proof.
  induction s as [|a s IH]; intros acc prev Hd Hne; simpl in *.
  - destruct Hne as [?| ->]; [done | reflexivity].
  - apply andb_prop in Hd as [Ha Hs]. rewrite Ha. apply IH; auto.
Qed.

Lemma lstrip_digits s : all_digits s = true -> str.lstrip_by is_space s = s.
Proof.
  destruct s as [|a s]; simpl; [done|]. intros [Ha _]%andb_prop.
  by destruct (is_digit_plain a Ha) as [-> _].
Qed.

Lemma rstrip_digits s : all_digits s = true -> str.rstrip_by is_space s = s.
Proof.
  induction s as [|a s IH]; simpl; [done|]. intros [Ha Hs]%andb_prop.
  rewrite (IH Hs). destruct (is_digit_plain a Ha) as [-> _]. by destruct s.
Qed.

Lemma int_literal_numeric s :
  numeric s = true -> int_literal s = Some (decimal s).
Proof.
  unfold numeric, int_literal, decimal. intros [Hne Hd]%andb_prop.
  rewrite (lstrip_digits s Hd), (rstrip_digits s Hd).
  destruct s as [|a s]; [discriminate|].
  assert (Hall := Hd). simpl in Hd. apply andb_prop in Hd as [Ha Hs].
  destruct (is_digit_plain a Ha) as (_ & Hp & Hm & _).
  transitivity (int_digits 0 false (String a s)).
  - destruct a as [[] [] [] [] [] [] [] []]; try reflexivity; congruence.
  - apply int_digits_all; [exact Hall | by left].
Qed.

Lemma int_numeric s : numeric s = true -> int (Some s) = inr (decimal s).
Proof. intros H. unfold int. by rewrite (int_literal_numeric s H). Qed.

Lemma contains_char_app c a b :
  str.contains_char c (a ++ b) = str.contains_char c a || str.contains_char c b.
Proof.
  induction a as [|x a IH]; simpl; [done|]. rewrite IH. by rewrite orb_assoc.
Qed.

Lemma digits_no_x s : all_digits s = true -> str.contains_char "x" s = false.
Proof.
  induction s as [|a s IH]; simpl; [done|]. intros [Ha Hs]%andb_prop.
  rewrite (IH Hs), orb_false_r. apply Ascii.eqb_neq.
  by destruct (is_digit_plain a Ha) as (_ & _ & _ & _ & ? & _).
Qed.

Lemma numeric_not_q s : numeric s = true -> s <> "?".
Proof. intros H ->. by vm_compute in H. Qed.

(** The greedy run takes all the digits first. *)
Lemma star_digits w t :
  all_digits w = true -> stops t = true ->
  exists l, re.star re.CDigit (w ++ t) = re.Result w [] t :: l.
Proof.
  intros Hw Ht. induction w as [|a w IH]; simpl in *.
  - destruct t as [|c t]; simpl in *; [by eexists|].
    apply negb_true_iff in Ht. rewrite Ht. by eexists.
  - apply andb_prop in Hw as [Ha Hw]. rewrite Ha.
    destruct (IH Hw) as [l ->]. simpl. by eexists.
Qed.

Lemma run_dim_numeric w t :
  numeric w = true -> stops t = true ->
  exists l, re.run dim (w ++ t) = re.Result w [] t :: l.
Proof.
  intros [Hne Hw]%andb_prop Ht. destruct w as [|a w]; [discriminate|].
  simpl in Hw. apply andb_prop in Hw as [Ha Hw]. simpl. rewrite Ha.
  destruct (star_digits w t Hw Ht) as [l ->]. simpl. by eexists.
Qed.

Lemma run_dim_q t : re.run dim (String "?" t) = [re.Result "?" [] t].
Proof. reflexivity. Qed.

Lemma run_dim_token a t :
  token a = true -> stops t = true ->
  exists l, re.run dim (a ++ t) = re.Result a [] t :: l.
Proof.
  intros [H|H]%orb_prop Ht; [by apply run_dim_numeric|].
  apply String.eqb_eq in H as ->. by eexists.
Qed.

Lemma run_seq_head r1 r2 s x l1 y l2 :
  re.run r1 s = x :: l1 -> re.run r2 (re.rest x) = y :: l2 ->
  exists l, re.run (re.RSeq r1 r2) s
            = re.Result (re.matched x ++ re.matched y)
                        (re.groups y ++ re.groups x)%list (re.rest y) :: l.
Proof.
  intros H1 H2.
  change (re.run (re.RSeq r1 r2) s) with
    (x ← re.run r1 s; y ← re.run r2 (re.rest x);
     [re.Result (re.matched x ++ re.matched y)
                (re.groups y ++ re.groups x)%list (re.rest y)]).
  rewrite H1. cbn [mbind list_bind]. rewrite H2. cbn [mbind list_bind].
  simpl. by eexists.
Qed.

Lemma run_group_head n r s x l :
  re.run r s = x :: l ->
  exists l', re.run (re.RGroup n r) s
             = re.Result (re.matched x) ((n, re.matched x) :: re.groups x)
                         (re.rest x) :: l'.
Proof.
  intros H.
  change (re.run (re.RGroup n r) s) with
    (map (fun x => re.Result (re.matched x) ((n, re.matched x) :: re.groups x)
                             (re.rest x)) (re.run r s)).
  rewrite H. simpl. by eexists.
Qed.

Lemma search_at_start r s x :
  re.match_ r s = Some x -> re.search r s = Some x.
Proof. intros H. destruct s; simpl; by rewrite H. Qed.

Lemma REGEX_eq :
  REGEX = re.RSeq (re.RGroup 1 dim)
                  (re.RSeq (re.RClass (re.CChar "x")) (re.RGroup 2 dim)).
Proof. reflexivity. Qed.

Lemma search_REGEX a b :
  token a = true -> token b = true ->
  exists m, re.search REGEX (a ++ "x" ++ b) = Some m
            /\ re.group m 1 = Some a /\ re.group m 2 = Some b.
Proof.
  intros Ha Hb.
  destruct (run_dim_token a (String "x" b) Ha eq_refl) as [l1 H1].
  destruct (run_dim_token b "" Hb eq_refl) as [l2 H2].
  rewrite sapp_nil_r in H2.
  destruct (run_group_head 1 _ _ _ _ H1) as [l1' G1].
  destruct (run_group_head 2 _ _ _ _ H2) as [l2' G2].
  assert (re.run (re.RClass (re.CChar "x")) (String "x" b)
          = [re.Result "x" [] b]) as Hx by reflexivity.
  destruct (run_seq_head _ _ _ _ _ _ _ Hx G2) as [l3 G3].
  destruct (run_seq_head _ _ _ _ _ _ _ G1 G3) as [l Hl].
  rewrite <- REGEX_eq in Hl.
  eexists. split; [|split].
  - change ("x" ++ b) with (String "x" b).
    apply search_at_start. unfold re.match_. by rewrite Hl.
  - reflexivity.
  - reflexivity.
Qed.

Lemma contains_x a b : str.contains_char "x" (a ++ "x" ++ b) = true.
Proof. rewrite contains_char_app. simpl. by rewrite orb_true_r. Qed.

End int_regex_facts.

(** ** Resizer.resize *)

Section resize_facts.
Context {pil : PIL} {host : Host}.

Lemma resize_ok self image f tw th w :
  resize_locals self image = inr (Locals f (Some tw) (Some th)) ->
  resize self image w
  = (call f tw th image, logged w ("Using resizer " ++ __name__ f)).
Proof. intros H. unfold resize, bind, lift. rewrite H. reflexivity. Qed.

Lemma resize_err self image e w :
  resize_locals self image = inl e -> resize self image w = (inl e, w).
Proof. intros H. unfold resize, bind, lift. by rewrite H. Qed.

Lemma resize_locals_square name root image n :
  numeric n = true ->
  resize_locals (mkResizer name n root) image
  = inr (Locals exact_resize (Some (decimal n)) (Some (decimal n))).
Proof.
  intros H. unfold resize_locals. cbn [_spec].
  apply andb_prop in H as H'. destruct H' as [_ Hd].
  rewrite (digits_no_x n Hd). cbn [negb]. by rewrite (int_numeric n H).
Qed.

Lemma resize_locals_width name root image w :
  numeric w = true ->
  resize_locals (mkResizer name (w ++ "x?") root) image
  = inr (Locals aspect_resize (Some (decimal w)) (Some (size image).2)).
Proof.
  intros H.
  destruct (search_REGEX w "?") as (m & Hm & G1 & G2);
    [by unfold token; rewrite H | reflexivity |].
  pose proof (contains_x w "?") as Hx.
  change (w ++ "x" ++ "?") with (w ++ "x?") in Hm, Hx.
  unfold resize_locals. cbn [_spec]. rewrite Hx, Hm, G1, G2. cbn [negb].
  rewrite bool_decide_eq_false_2
    by (intros [= E]; by apply (numeric_not_q w H)).
  rewrite bool_decide_eq_true_2 by reflexivity.
  cbv zeta. by rewrite (int_numeric w H).
Qed.

Lemma resize_locals_height name root image h :
  numeric h = true ->
  resize_locals (mkResizer name ("?x" ++ h) root) image
  = inr (Locals aspect_resize (Some (size image).1) (Some (decimal h))).
Proof.
  intros H.
  destruct (search_REGEX "?" h) as (m & Hm & G1 & G2);
    [reflexivity | by unfold token; rewrite H |].
  pose proof (contains_x "?" h) as Hx.
  change ("?" ++ "x" ++ h) with ("?x" ++ h) in Hm, Hx.
  unfold resize_locals. cbn [_spec]. rewrite Hx, Hm, G1, G2. cbn [negb].
  rewrite bool_decide_eq_true_2 by reflexivity.
  cbv zeta. by rewrite (int_numeric h H).
Qed.

Lemma resize_locals_both name root image w h :
  numeric w = true -> numeric h = true ->
  resize_locals (mkResizer name (w ++ "x" ++ h) root) image
  = inr (Locals exact_resize (Some (decimal w)) (Some (decimal h))).
Proof.
  intros Hw Hh.
  destruct (search_REGEX w h) as (m & Hm & G1 & G2);
    [by unfold token; rewrite Hw | by unfold token; rewrite Hh |].
  unfold resize_locals. cbn [_spec]. rewrite contains_x, Hm, G1, G2. cbn [negb].
  rewrite !bool_decide_eq_false_2
    by (intros [= E]; first [by apply (numeric_not_q w Hw)
                            | by apply (numeric_not_q h Hh)]).
  cbv zeta. by rewrite (int_numeric w Hw), (int_numeric h Hh).
Qed.

Lemma resize_locals_malformed name spec root image :
  malformed spec = true ->
  resize_locals (mkResizer name spec root) image
  = inl (if str.contains_char "x" spec then AttributeError else ValueError).
Proof.
  intros [Hi Hs]%andb_prop. apply bool_decide_eq_true in Hi, Hs.
  unfold resize_locals, int. simpl _spec.
  destruct (str.contains_char "x" spec); simpl.
  - by rewrite Hs.
  - by rewrite Hi.
Qed.

End resize_facts.

(** C1.  What the code does with the spec [?x?]: both tokens are [?], the
    first [if] picks [_null_resize] and the source size, but the next test is
    an [if], not an [elif], so the branch for [tmpw == "?"] runs as well and
    evaluates [int("?")]: [resize] raises [ValueError] for every image,
    instead of returning the image unmodified. *)
Theorem C1_resize_passthrough_spec_raises {pil : PIL} (name root : string)
    (image : Image) (w : world) :
  resize_locals (mkResizer name "?x?" root) image = inl ValueError
  /\ resize (mkResizer name "?x?" root) image w = (inl ValueError, w).
Proof. split; reflexivity. Qed.

(** C2, as the code has it.  Constructing a [Resizer] never fails and does not
    look at the spec; a spec that is neither an integer nor matched by the
    regex makes every call of [resize] raise: [ValueError] (from [int]) when
    it has no [x], [AttributeError] (from [matches.group] on [None]) when it
    has one. *)
Theorem C2_malformed_spec_fails_at_resize {pil : PIL} (name spec root : string) :
  malformed spec = true ->
  Resizer__init__ name spec root = inr (mkResizer name spec root)
  /\ forall (image : Image) (w : world),
       resize (mkResizer name spec root) image w
       = (inl (if str.contains_char "x" spec then AttributeError else ValueError), w).
Proof.
  intros Hm. split; [reflexivity|]. intros image w.
  apply resize_err. by apply resize_locals_malformed.
Qed.

Lemma C2_malformed_spec_fails_at_resize_witness :
  malformed "bogus" = true
  /\ Resizer__init__ "thumb" "bogus" "/pics" = inr (mkResizer "thumb" "bogus" "/pics")
  /\ forall (image : @Image demo.demo_pil) (w : world),
       resize (mkResizer "thumb" "bogus" "/pics") image w = (inl ValueError, w).
Proof.
  split; [reflexivity|].
  apply (@C2_malformed_spec_fails_at_resize demo.demo_pil "thumb" "bogus" "/pics").
  reflexivity.
Defined.

(** C2 as stated fails: the malformed spec [bogus] is accepted when the
    [Resizer] is constructed. *)
Lemma C2_counterexample :
  malformed "bogus" = true
  /\ ~ (exists e, Resizer__init__ "thumb" "bogus" "/pics" = inl e).
Proof. split; [reflexivity|]. intros [e He]. discriminate He. Qed.

(** C3.  The strategy and the target for the well-formed specs other than
    [?x?]: [N] gives the exact crop (N, N); [Wx?] the aspect fit in
    (W, source height); [?xH] the aspect fit in (source width, H); [WxH] the
    exact crop (W, H).  [resize] logs the strategy and returns what the
    strategy returns for that target. *)
Theorem C3_resize_strategy_and_target {pil : PIL} (name root W H : string)
    (image : Image) (w : world) :
  numeric W = true -> numeric H = true ->
  (resize_locals (mkResizer name W root) image
     = inr (Locals exact_resize (Some (decimal W)) (Some (decimal W)))
   /\ resize (mkResizer name W root) image w
     = (_exact_resize (decimal W) (decimal W) image,
        logged w "Using resizer _exact_resize"))
  /\ (resize_locals (mkResizer name (W ++ "x?") root) image
     = inr (Locals aspect_resize (Some (decimal W)) (Some (size image).2))
   /\ resize (mkResizer name (W ++ "x?") root) image w
     = (_aspect_resize (decimal W) (size image).2 image,
        logged w "Using resizer _aspect_resize"))
  /\ (resize_locals (mkResizer name ("?x" ++ H) root) image
     = inr (Locals aspect_resize (Some (size image).1) (Some (decimal H)))
   /\ resize (mkResizer name ("?x" ++ H) root) image w
     = (_aspect_resize (size image).1 (decimal H) image,
        logged w "Using resizer _aspect_resize"))
  /\ (resize_locals (mkResizer name (W ++ "x" ++ H) root) image
     = inr (Locals exact_resize (Some (decimal W)) (Some (decimal H)))
   /\ resize (mkResizer name (W ++ "x" ++ H) root) image w
     = (_exact_resize (decimal W) (decimal H) image,
        logged w "Using resizer _exact_resize")).
Proof.
  intros HW HH.
  pose proof (resize_locals_square name root image W HW) as E1.
  pose proof (resize_locals_width name root image W HW) as E2.
  pose proof (resize_locals_height name root image H HH) as E3.
  pose proof (resize_locals_both name root image W H HW HH) as E4.
  repeat split; try assumption.
  - by rewrite (resize_ok _ _ _ _ _ w E1).
  - by rewrite (resize_ok _ _ _ _ _ w E2).
  - by rewrite (resize_ok _ _ _ _ _ w E3).
  - by rewrite (resize_ok _ _ _ _ _ w E4).
Qed.

Lemma C3_resize_strategy_and_target_witness :
  numeric "300" = true /\ numeric "200" = true
  /\ resize (mkResizer "thumb" "300x200" "/pics") ((400, 300) : @Image demo.demo_pil)
            demo.demo_world
     = (inr (300, 200), logged demo.demo_world "Using resizer _exact_resize").
Proof.
  split; [reflexivity|]. split; [reflexivity|].
  destruct (@C3_resize_strategy_and_target demo.demo_pil "thumb" "/pics"
              "300" "200" (400, 300) demo.demo_world eq_refl eq_refl)
    as (_ & _ & _ & _ & E).
  exact E.
Defined.

(** ** Thumbnail names *)

Section naming_facts.

Lemma get_thumbnail_name_eq self in_path :
  get_thumbnail_name self in_path
  = suffixed (_name self)
      (strip_sep (str.drop (String.length (path.commonprefix in_path (_root self)))
                           in_path)).
Proof.
  unfold get_thumbnail_name, suffixed, strip_sep.
  by destruct (path.splitext _).
Qed.

Lemma get_thumbnail_name_under_root name spec root rel :
  get_thumbnail_name (mkResizer name spec root) (root ++ "/" ++ rel)
  = suffixed name rel.
Proof.
  rewrite get_thumbnail_name_eq. cbn [_name _root].
  rewrite commonprefix_app, sdrop_app_length. reflexivity.
Qed.

End naming_facts.

(** C4.  [get_thumbnail_name] drops from the input path the longest prefix it
    shares with the root, then one leading separator, and puts ['_'] and the
    resizer's name before the extension.  For a path under the root that is
    the path relative to the root with the suffix inserted; for
    [<root>/sub/img.jpg] and the name [thumb] it is [sub/img_thumb.jpg]. *)
Theorem C4_get_thumbnail_name (name spec root : string) :
  (forall in_path,
     exists p rest,
       in_path = p ++ rest
       /\ (exists t, root = p ++ t)
       /\ (forall q ta tb, in_path = q ++ ta -> root = q ++ tb -> exists t, p = q ++ t)
       /\ get_thumbnail_name (mkResizer name spec root) in_path
          = suffixed name (strip_sep rest))
  /\ (forall rel,
        get_thumbnail_name (mkResizer name spec root) (root ++ "/" ++ rel)
        = (path.splitext rel).1 ++ "_" ++ name ++ (path.splitext rel).2)
  /\ get_thumbnail_name (mkResizer "thumb" spec root) (root ++ "/sub/img.jpg")
     = "sub/img_thumb.jpg".
Proof.
  split; [|split].
  - intros in_path.
    destruct (commonprefix_is_prefix_l in_path root) as [rest Hrest].
    exists (path.commonprefix in_path root), rest. split; [exact Hrest|].
    split; [apply commonprefix_is_prefix_r|].
    split; [intros q ta tb; apply commonprefix_longest|].
    rewrite get_thumbnail_name_eq. cbn [_name _root].
    rewrite Hrest at 2. by rewrite sdrop_app_length.
  - intros rel. apply get_thumbnail_name_under_root.
  - apply (get_thumbnail_name_under_root "thumb" spec root "sub/img.jpg").
Qed.

(** ** What the matcher accepts *)

Section matcher_facts.

Lemma star_sound k s x :
  x ∈ re.star k s ->
  s = re.matched x ++ re.rest x /\ Lang (re.RStar k) (re.matched x).
Proof.
  revert x. induction s as [|a s IH]; intros x Hx; simpl in Hx.
  - apply list_elem_of_singleton in Hx as ->. split; [done | constructor].
  - destruct (re.in_class k a) eqn:Ha.
    + apply elem_of_app in Hx as [Hx|Hx].
      * apply list_elem_of_In, in_map_iff in Hx as (y & <- & Hy).
        apply list_elem_of_In, IH in Hy as [Hs Hl]. simpl. split.
        -- by rewrite Hs at 1.
        -- by constructor.
      * apply list_elem_of_singleton in Hx as ->. split; [done | constructor].
    + apply list_elem_of_singleton in Hx as ->. split; [done | constructor].
Qed.

Lemma star_complete k m t :
  Lang (re.RStar k) m -> re.Result m [] t ∈ re.star k (m ++ t).
Proof.
  intros H. remember (re.RStar k) as r eqn:Er.
  induction H; inversion Er; subst; simpl.
  - destruct t as [|c t]; simpl; [apply list_elem_of_singleton; done|].
    destruct (re.in_class k c); [|apply list_elem_of_singleton; done].
    apply elem_of_app. right. by apply list_elem_of_singleton.
  - rewrite H. apply elem_of_app. left.
    apply list_elem_of_In, in_map_iff.
    exists (re.Result s [] t). split; [done|].
    apply list_elem_of_In. by apply IHLang.
Qed.

Lemma run_sound r : forall s x,
  x ∈ re.run r s -> s = re.matched x ++ re.rest x /\ Lang r (re.matched x).
Proof.
  induction r as [|k|k|k|r1 IH1 r2 IH2|r1 IH1 r2 IH2|n r IH];
    intros s x Hx; simpl in Hx.
  - apply list_elem_of_singleton in Hx as ->. split; [done | constructor].
  - destruct s as [|a s]; [by apply elem_of_nil in Hx|].
    destruct (re.in_class k a) eqn:Ha; [|by apply elem_of_nil in Hx].
    apply list_elem_of_singleton in Hx as ->. split; [done | by constructor].
  - by apply star_sound.
  - destruct s as [|a s]; [by apply elem_of_nil in Hx|].
    destruct (re.in_class k a) eqn:Ha; [|by apply elem_of_nil in Hx].
    apply list_elem_of_In, in_map_iff in Hx as (y & <- & Hy).
    apply list_elem_of_In, star_sound in Hy as [Hs Hl]. simpl. split.
    + by rewrite Hs at 1.
    + by constructor.
  - apply list_elem_of_bind in Hx as (y & Hx & Hy).
    apply list_elem_of_bind in Hx as (z & Hx & Hz).
    apply list_elem_of_singleton in Hx as ->. simpl.
    apply IH1 in Hy as [Hs1 Hl1]. apply IH2 in Hz as [Hs2 Hl2]. split.
    + rewrite sapp_assoc, <- Hs2. exact Hs1.
    + by constructor.
  - apply elem_of_app in Hx as [Hx|Hx].
    + apply IH1 in Hx as [? ?]. split; [done | by apply Lang_alt_l].
    + apply IH2 in Hx as [? ?]. split; [done | by apply Lang_alt_r].
  - apply list_elem_of_In, in_map_iff in Hx as (y & <- & Hy).
    apply list_elem_of_In, IH in Hy as [? ?]. simpl. split; [done | by constructor].
Qed.

Lemma run_complete r m :
  Lang r m ->
  forall t, exists x, x ∈ re.run r (m ++ t) /\ re.matched x = m /\ re.rest x = t.
Proof.
  induction 1 as [|k a Ha|k|k a s Ha Hs _|k a s Ha Hs _
                 |r1 r2 s1 s2 _ IH1 _ IH2|r1 r2 s _ IH|r1 r2 s _ IH|n r s _ IH];
    intros t.
  - exists (re.Result "" [] t). simpl. split; [by apply list_elem_of_singleton | done].
  - exists (re.Result (String a "") [] t). simpl. rewrite Ha.
    split; [by apply list_elem_of_singleton | done].
  - exists (re.Result "" [] t). split; [|done].
    apply (star_complete k "" t). constructor.
  - exists (re.Result (String a s) [] t). split; [|done].
    apply (star_complete k (String a s) t). by constructor.
  - exists (re.Result (String a s) [] t). split; [|done]. simpl. rewrite Ha.
    apply list_elem_of_In, in_map_iff. exists (re.Result s [] t).
    split; [done|]. apply list_elem_of_In. by apply star_complete.
  - destruct (IH1 (s2 ++ t)) as (x & Hx & Hm1 & Hr1).
    destruct (IH2 t) as (y & Hy & Hm2 & Hr2).
    exists (re.Result (re.matched x ++ re.matched y)
                      (re.groups y ++ re.groups x)%list (re.rest y)).
    simpl. rewrite Hm1, Hm2, Hr2. split; [|done].
    apply list_elem_of_bind. exists x. rewrite sapp_assoc. split; [|exact Hx].
    apply list_elem_of_bind. exists y. rewrite Hr1. split; [|exact Hy].
    apply list_elem_of_singleton. by rewrite Hm1, Hm2, Hr2.
  - destruct (IH t) as (x & Hx & ? & ?). exists x. split; [|done].
    simpl. apply elem_of_app. by left.
  - destruct (IH t) as (x & Hx & ? & ?). exists x. split; [|done].
    simpl. apply elem_of_app. by right.
  - destruct (IH t) as (x & Hx & Hm & Hr).
    exists (re.Result (re.matched x) ((n, re.matched x) :: re.groups x) (re.rest x)).
    simpl. split; [|done].
    apply list_elem_of_In, in_map_iff. exists x. split; [done|].
    by apply list_elem_of_In.
Qed.

(** [pattern.match(name)] succeeds exactly when the pattern matches some
    leading part of [name]. *)
Lemma match_is_prefix_match r name :
  is_Some (re.match_ r name) <->
  exists pre post, name = pre ++ post /\ Lang r pre.
Proof.
  unfold re.match_. split.
  - intros [x Hx]. destruct (re.run r name) as [|y l] eqn:E; [discriminate|].
    simpl in Hx. injection Hx as ->.
    assert (x ∈ re.run r name) as Hin by (rewrite E; apply list_elem_of_here).
    apply run_sound in Hin as [? ?]. by exists (re.matched x), (re.rest x).
  - intros (pre & post & -> & HL).
    destruct (run_complete r pre HL post) as (x & Hx & _).
    destruct (re.run r (pre ++ post)) as [|y l]; [by apply elem_of_nil in Hx|].
    by eexists.
Qed.

End matcher_facts.

(** ** The batch pass as a list of jobs *)

Section loop_facts.

Lemma bind_assoc {A B C} (m : M A) (f : A -> M B) (g : B -> M C) w :
  bind (bind m f) g w = bind m (fun x => bind (f x) g) w.
Proof. unfold bind. destruct (m w) as [[e|a] w']; reflexivity. Qed.

Lemma bind_ext {A B} (m : M A) (f g : A -> M B) w :
  (forall a w', f a w' = g a w') -> bind m f w = bind m g w.
Proof. intros H. unfold bind. destruct (m w) as [[e|a] w']; [done | apply H]. Qed.

Lemma for_app {A} (l1 l2 : list A) (body : A -> M unit) w :
  for_ (l1 ++ l2)%list body w = (do _ <- for_ l1 body; for_ l2 body) w.
Proof.
  revert w. induction l1 as [|x l1 IH]; intros w; simpl.
  - reflexivity.
  - rewrite bind_assoc. apply bind_ext. intros _ w'. apply IH.
Qed.

Lemma for_ext {A} (l : list A) (b1 b2 : A -> M unit) w :
  (forall x w', b1 x w' = b2 x w') -> for_ l b1 w = for_ l b2 w.
Proof.
  intros H. revert w. induction l as [|x l IH]; intros w; simpl; [done|].
  unfold bind. rewrite H. destruct (b2 x w) as [[e|[]] w']; [done | apply IH].
Qed.

Lemma for_bind {A B} (l : list A) (g : A -> list B) (body : B -> M unit) w :
  for_ (l ≫= g) body w = for_ l (fun x => for_ (g x) body) w.
Proof.
  revert w. induction l as [|x l IH]; intros w; [done|].
  cbn [mbind list_bind]. rewrite for_app. simpl. apply bind_ext.
  intros _ w'. apply IH.
Qed.

Lemma for_filter {A} (f : A -> bool) (l : list A) (body : A -> M unit) w :
  for_ (List.filter f l) body w
  = for_ l (fun x => if f x then body x else ret tt) w.
Proof.
  revert w. induction l as [|x l IH]; intros w; simpl; [done|].
  destruct (f x); simpl.
  - apply bind_ext. intros _ w'. apply IH.
  - unfold bind at 1. simpl. apply IH.
Qed.

Lemma for_singleton {A} (x : A) (body : A -> M unit) w :
  for_ [x] body w = body x w.
Proof.
  simpl. unfold bind. by destruct (body x w) as [[e|[]] w'].
Qed.

End loop_facts.

Section batch_facts.
Context {pil : PIL} {host : Host}.

Lemma make_resizers_ok in_path sizes :
  make_resizers in_path sizes
  = inr (map (fun kv => (kv.1, mkResizer kv.1 kv.2 in_path)) sizes).
Proof.
  induction sizes as [|[k v] sizes IH]; simpl; [done|]. by rewrite IH.
Qed.

Lemma resize_thumbnails_jobs pelican is_included w :
  enabled = true ->
  make_is_included pelican = inr is_included ->
  resize_thumbnails pelican w
  = for_ (batch_jobs pelican is_included)
         (run_job pelican (_image_path pelican))
         (logged w "Thumbnailer Started").
Proof.
  intros He Hf. unfold resize_thumbnails. rewrite He. cbn [negb].
  unfold bind at 1. unfold lift at 1. rewrite Hf.
  unfold bind at 1. unfold lift at 1. rewrite make_resizers_ok.
  unfold bind at 1. unfold logger.debug, emit. cbn [fs trace].
  fold (logged w "Thumbnailer Started").
  unfold batch_jobs, walk_jobs. fold (batch_resizers pelican).
  rewrite for_bind. apply for_ext. intros [[dirpath dirs] filenames] w1.
  rewrite for_bind, for_filter. apply for_ext. intros filename w2.
  destruct (is_included filename); [|done].
  rewrite for_bind. apply for_ext. intros [name res] w3.
  rewrite for_singleton. reflexivity.
Qed.

Lemma resize_thumbnails_disabled pelican w :
  enabled = false -> resize_thumbnails pelican w = (inr tt, w).
Proof. intros He. unfold resize_thumbnails. by rewrite He. Qed.

End batch_facts.

Section filter_facts.
Context {pil : PIL} {host : Host}.

Lemma batch_jobs_elem pelican f (j : job) :
  j ∈ batch_jobs pelican f <->
  exists dirpath dirs filenames filename name res,
    (dirpath, dirs, filenames) ∈ os_walk (_image_path pelican)
    /\ filename ∈ filenames /\ f filename = true
    /\ (name, res) ∈ batch_resizers pelican
    /\ j = (path.join dirpath [filename], name, res).
Proof.
  unfold batch_jobs, walk_jobs. rewrite list_elem_of_bind. split.
  - intros ([[dirpath dirs] filenames] & Hj & Hw).
    apply list_elem_of_bind in Hj as (filename & Hj & Hf).
    apply list_elem_of_bind in Hj as ([name res] & Hj & Hr).
    apply list_elem_of_singleton in Hj.
    apply list_elem_of_In, filter_In in Hf as [Hf Hinc].
    exists dirpath, dirs, filenames, filename, name, res.
    repeat split; try done. by apply list_elem_of_In.
  - intros (dirpath & dirs & filenames & filename & name & res
            & Hw & Hf & Hinc & Hr & ->).
    exists (dirpath, dirs, filenames). split; [|done].
    apply list_elem_of_bind. exists filename. split.
    + apply list_elem_of_bind. exists (name, res). split; [|done].
      by apply list_elem_of_singleton.
    + apply list_elem_of_In, filter_In. split; [|done].
      by apply list_elem_of_In.
Qed.

End filter_facts.

(** C9.  The inclusion filter of the batch walk.  Without a configured
    include-regex (the setting is absent or empty, which is what the test
    [if include_regex] looks at) a file is included exactly when its name does
    not start with a dot.  With one, the filter is the compiled pattern's
    [match]: a file is included exactly when the pattern matches some leading
    part of its bare name, whether or not the name starts with a dot.  The
    batch runs one job per walked file that the filter includes and per
    resizer, and no other. *)
Theorem C9_inclusion_filter {pil : PIL} {host : Host} (pelican : Pelican) :
  (truthy_str (THUMBNAIL_INCLUDE_REGEX (settings pelican)) = false ->
   exists f, make_is_included pelican = inr f
     /\ forall name, f name = true <-> str.startswith name "." = false)
  /\ (forall rx pattern,
        THUMBNAIL_INCLUDE_REGEX (settings pelican) = Some rx -> rx <> "" ->
        re_compile rx = inr pattern ->
        exists f, make_is_included pelican = inr f
          /\ forall name,
               f name = true <-> exists pre post, name = pre ++ post /\ Lang pattern pre)
  /\ (forall f w,
        enabled = true -> make_is_included pelican = inr f ->
        resize_thumbnails pelican w
        = for_ (batch_jobs pelican f) (run_job pelican (_image_path pelican))
               (logged w "Thumbnailer Started")
        /\ forall j : job,
             j ∈ batch_jobs pelican f <->
             exists dirpath dirs filenames filename name res,
               (dirpath, dirs, filenames) ∈ os_walk (_image_path pelican)
               /\ filename ∈ filenames /\ f filename = true
               /\ (name, res) ∈ batch_resizers pelican
               /\ j = (path.join dirpath [filename], name, res)).
Proof.
  split; [|split].
  - intros Hn. unfold make_is_included. rewrite Hn. eexists. split; [done|].
    intros name. apply negb_true_iff.
  - intros rx pattern Hrx Hne Hc. unfold make_is_included. rewrite Hrx.
    simpl. replace (String.eqb rx "") with false
      by (symmetry; by apply String.eqb_neq).
    simpl. rewrite Hc. simpl. eexists. split; [done|].
    intros name. rewrite bool_decide_eq_true. apply match_is_prefix_match.
  - intros f w He Hf. split.
    + by apply resize_thumbnails_jobs.
    + intros j. apply batch_jobs_elem.
Qed.

Lemma C9_inclusion_filter_witness :
  (exists f, @make_is_included demo.demo_host demo.demo_pelican = inr f
     /\ f "photo.png" = true /\ f ".dotfile.png" = false)
  /\ (exists f, @make_is_included demo.demo_host demo_regex.pelican_b = inr f
        /\ f "b.png" = true /\ f "a.jpg" = false).
Proof.
  destruct (@C9_inclusion_filter demo.demo_pil demo.demo_host demo.demo_pelican)
    as (H1 & _ & _).
  destruct (@C9_inclusion_filter demo.demo_pil demo.demo_host demo_regex.pelican_b)
    as (_ & H2 & _).
  split.
  - destruct (H1 eq_refl) as (f & Hf & _).
    exists f. split; [exact Hf|]. injection Hf as <-. split; reflexivity.
  - destruct (H2 "b" (demo.literal "b") eq_refl ltac:(discriminate) eq_refl)
      as (f & Hf & _).
    exists f. split; [exact Hf|]. injection Hf as <-. split; reflexivity.
Defined.

(** ** Gallery expansion *)

Section gallery_facts.
Context {host : Host}.

Lemma world_eta w : World (fs w) (trace w) = w.
Proof. by destruct w. Qed.

Lemma gallery_inner generator template base_path resizer dirpath :
  forall filenames acc w lines,
    Forall2 (rendered generator template base_path resizer)
            (map (pair dirpath) (List.filter not_hidden filenames)) lines ->
    fold_ filenames acc
          (gallery_line generator template base_path resizer dirpath) w
    = (inr (acc ++ lines)%list,
       World (fs w)
             (trace w ++ map (gallery_log generator base_path)
                             (map (pair dirpath) (List.filter not_hidden filenames)))%list).
Proof.
  induction filenames as [|f filenames IH]; intros acc w lines HF.
  - simpl in *. apply Forall2_nil_inv_l in HF as ->.
    by rewrite !app_nil_r, world_eta.
  - cbn [List.filter] in *. cbn [fold_]. unfold bind at 1, gallery_line at 1.
    fold (not_hidden f). destruct (not_hidden f) eqn:Hh.
    + cbn [map] in HF. apply Forall2_cons_inv_l in HF as (line & ls & Hl & HF & ->).
      unfold rendered in Hl. cbn [fst snd] in Hl.
      unfold bind, logger.debug, emit, lift, ret. rewrite Hl.
      rewrite (IH _ _ ls HF). cbn [fs trace map].
      unfold gallery_log at 2. cbn [fst snd].
      by rewrite <- !app_assoc.
    + unfold ret. by apply IH.
Qed.

Lemma gallery_outer generator template base_path resizer :
  forall walk acc w lines,
    Forall2 (rendered generator template base_path resizer)
            (gallery_files walk) lines ->
    fold_ walk acc
          (fun lines '(dirpath, _, filenames) =>
             fold_ filenames lines
                   (gallery_line generator template base_path resizer dirpath)) w
    = (inr (acc ++ lines)%list,
       World (fs w)
             (trace w ++ map (gallery_log generator base_path)
                             (gallery_files walk))%list).
Proof.
  induction walk as [|[[dirpath dirs] filenames] walk IH]; intros acc w lines HF.
  - simpl in *. apply Forall2_nil_inv_l in HF as ->.
    by rewrite !app_nil_r, world_eta.
  - assert (gallery_files ((dirpath, dirs, filenames) :: walk)
            = (map (pair dirpath) (List.filter not_hidden filenames)
               ++ gallery_files walk)%list) as E.
    { unfold gallery_files. cbn [mbind list_bind fst snd]. f_equal. }
    rewrite E in *. apply Forall2_app_inv_l in HF as (l1 & l2 & H1 & H2 & ->).
    cbn [fold_]. unfold bind at 1.
    rewrite (gallery_inner _ _ _ _ _ _ _ _ _ H1).
    rewrite (IH _ _ _ H2). cbn [fs trace].
    by rewrite map_app, <- !app_assoc.
Qed.

Lemma gallery_files_elem walk d f :
  (d, f) ∈ gallery_files walk <->
  exists dirs filenames,
    (d, dirs, filenames) ∈ walk /\ f ∈ filenames /\ str.startswith f "." = false.
Proof.
  unfold gallery_files. rewrite list_elem_of_bind. split.
  - intros ([[d' dirs] filenames] & Hx & Hw).
    apply list_elem_of_bind in Hx as (f' & Hx & Hf).
    apply list_elem_of_singleton in Hx. injection Hx as -> ->.
    apply list_elem_of_In, filter_In in Hf as [Hf Hn].
    exists dirs, filenames. repeat split; [done | by apply list_elem_of_In |].
    by apply negb_true_iff.
  - intros (dirs & filenames & Hw & Hf & Hn).
    exists (d, dirs, filenames). split; [|done].
    apply list_elem_of_bind. exists f. split; [by apply list_elem_of_singleton|].
    apply list_elem_of_In, filter_In. split; [by apply list_elem_of_In|].
    by apply negb_true_iff.
Qed.

End gallery_facts.

(** C8.  [expand_gallery] returns the metadata as it is, and does nothing
    else, when [gallery] is absent or [None].  Otherwise, with the template
    rendering every walked file whose name does not start with a dot, it
    renders one fragment for each such file, in walk order, and stores them,
    joined with newlines, under [gallery_content]. *)
Theorem C8_expand_gallery {host : Host} (generator : Pelican)
    (metadata : gmap string pyval) (w : world) :
  ((metadata !! "gallery" = None \/ metadata !! "gallery" = Some PyNone) ->
   expand_gallery generator metadata w = (inr metadata, w))
  /\ (forall gallery lines,
        metadata !! "gallery" = Some (PyStr gallery) ->
        let base_path := _image_path generator in
        let files := gallery_files (os_walk (path.join base_path [gallery])) in
        Forall2 (rendered generator
                   (default DEFAULT_TEMPLATE (GALLERY_TEMPLATE (settings generator)))
                   base_path
                   (mkResizer
                      (default DEFAULT_GALLERY_THUMB
                               (GALLERY_THUMBNAIL (settings generator)))
                      "?x?" base_path))
                files lines ->
        (expand_gallery generator metadata w).1
        = inr (<["gallery_content" := PyStr (str.join nl lines)]> metadata)
        /\ length lines = length files
        /\ forall d f,
             (d, f) ∈ files <->
             exists dirs filenames,
               (d, dirs, filenames) ∈ os_walk (path.join base_path [gallery])
               /\ f ∈ filenames /\ str.startswith f "." = false).
Proof.
  split.
  - intros [Hg|Hg]; unfold expand_gallery; by rewrite Hg.
  - intros gallery lines Hg base_path files HF. subst base_path files.
    split; [|split].
    + unfold expand_gallery. rewrite Hg. cbv zeta.
      unfold Resizer__init__. unfold bind at 1, lift at 1.
      unfold bind at 1.
      rewrite (gallery_outer _ _ _ _ _ [] w lines HF). reflexivity.
    + symmetry. by eapply Forall2_length.
    + intros d f. apply gallery_files_elem.
Qed.

(** ** More facts about strings and paths *)

Section path_facts.

Lemma take_drop n s : str.take n s ++ str.drop n s = s.
Proof.
  revert s. induction n as [|n IH]; intros s; [done|].
  destruct s as [|a s]; [done|]. simpl. by rewrite IH.
Qed.

Lemma splitext_app p : (path.splitext p).1 ++ (path.splitext p).2 = p.
Proof.
  unfold path.splitext. destruct (_ && _); simpl.
  - apply take_drop.
  - apply sapp_nil_r.
Qed.

Lemma endswith_char_app a b c :
  b <> "" -> str.endswith_char (a ++ b) c = str.endswith_char b c.
Proof.
  intros Hb. induction a as [|x a IH]; [done|].
  simpl. rewrite IH. destruct (a ++ b) eqn:E; [|done].
  destruct a; [|discriminate]. simpl in E. congruence.
Qed.

Lemma startswith_slash_false s :
  str.contains_char "/" s = false -> str.startswith s "/" = false.
Proof.
  destruct s as [|a s]; [done|]. simpl. intros H%orb_false_elim.
  destruct H as [-> _]. done.
Qed.

Lemma plain_dir_inv s :
  plain_dir s = true ->
  s <> "" /\ str.startswith s "/" = false /\ str.endswith_char s path.sep = false.
Proof.
  unfold plain_dir. intros [[H1 H2]%andb_prop H3]%andb_prop.
  apply negb_true_iff in H1, H2, H3. apply String.eqb_neq in H1. done.
Qed.

Lemma join_step_plain a b :
  a <> "" -> str.endswith_char a path.sep = false ->
  str.startswith b "/" = false ->
  path.join_step a b = a ++ "/" ++ b.
Proof.
  intros Ha He Hb. unfold path.join_step. rewrite Hb, He.
  by apply String.eqb_neq in Ha as ->.
Qed.

Lemma replace_char_absent c s new :
  str.contains_char c s = false -> str.replace s (String c "") new = s.
Proof.
  unfold str.replace. induction s as [|a s IH]; [done|].
  simpl. intros [Ha Hs]%orb_false_elim. rewrite Ha. simpl. by rewrite IH.
Qed.

Lemma replace_from_skip old new a t :
  str.replace_from old new (String.length a) (a ++ t)
  = str.replace_from old new 0 t.
Proof.
  induction a as [|x a IH]; simpl; [done|]. exact IH.
Qed.

Lemma replace_from_absent old new s :
  occurs old s = false -> str.replace_from old new 0 s = s.
Proof.
  induction s as [|a s IH]; [done|]. cbn [occurs str.replace_from].
  intros [H1 H2]%orb_false_elim. rewrite H1. by rewrite IH.
Qed.

(** Removing a root from a path that starts with it and does not contain it
    again leaves the rest. *)
Lemma replace_prefix old r :
  old <> "" -> occurs old r = false -> str.replace (old ++ r) old "" = r.
Proof.
  intros Hne Ho. destruct old as [|c old]; [done|].
  pose proof (startswith_app (String c old) r) as Hs.
  unfold str.replace. change (String c old ++ r) with (String c (old ++ r)) in *.
  cbn [str.replace_from]. rewrite Hs.
  change (String.length (String c old) - 1)%nat with (String.length old - 0)%nat.
  rewrite Nat.sub_0_r, replace_from_skip. simpl. by apply replace_from_absent.
Qed.

End path_facts.

Section gallery_url_facts.
Context {host : Host}.

Lemma commonprefix_bare filename root :
  str.startswith root "/" = true -> str.contains_char "/" filename = false ->
  path.commonprefix filename root = "".
Proof.
  intros Hr Hf. destruct filename as [|a f]; [done|].
  destruct root as [|b r]; [done|]. simpl in *.
  apply andb_prop in Hr as [Hb _]. apply eqb_ascii_true in Hb as ->.
  apply orb_false_elim in Hf as [-> _]. done.
Qed.

Lemma get_thumbnail_name_bare name spec root filename :
  str.startswith root "/" = true -> str.contains_char "/" filename = false ->
  get_thumbnail_name (mkResizer name spec root) filename = suffixed name filename.
Proof.
  intros Hr Hf. rewrite get_thumbnail_name_eq. cbn [_name _root].
  rewrite (commonprefix_bare _ _ Hr Hf). simpl. unfold strip_sep.
  by rewrite (startswith_slash_false _ Hf).
Qed.

Lemma suffixed_no_leading_slash name filename :
  str.contains_char "/" filename = false ->
  str.startswith (suffixed name filename) "/" = false.
Proof.
  intros Hf. unfold suffixed. rewrite <- (splitext_app filename) in Hf.
  destruct (path.splitext filename).1 as [|a s]; [done|].
  simpl in *. apply orb_false_elim in Hf as [-> _]. done.
Qed.

Lemma suffixed_contains c name filename :
  str.contains_char c (suffixed name filename)
  = str.contains_char c filename || str.contains_char c ("_" ++ name).
Proof.
  unfold suffixed. rewrite <- (splitext_app filename) at 3.
  rewrite !contains_char_app.
  destruct (str.contains_char c (path.splitext filename).1),
    (str.contains_char c (path.splitext filename).2),
    (str.contains_char c "_"), (str.contains_char c name); reflexivity.
Qed.

Lemma gallery_thumbnail_plain generator name spec base_path filename :
  let tdir := default DEFAULT_THUMBNAIL_DIR (THUMBNAIL_DIR (settings generator)) in
  str.startswith base_path "/" = true ->
  str.contains_char "/" filename = false ->
  plain_dir tdir = true ->
  str.contains_char bs (tdir ++ filename ++ name) = false ->
  gallery_thumbnail generator (mkResizer name spec base_path) filename
  = "/" ++ tdir ++ "/" ++ suffixed name filename.
Proof.
  intros tdir Hb Hf Ht Hbs. unfold gallery_thumbnail. fold tdir.
  rewrite (get_thumbnail_name_bare _ _ _ _ Hb Hf).
  destruct (plain_dir_inv _ Ht) as (Hne & Hs & He).
  unfold path.join. cbn [fold_left].
  assert (path.join_step "/" tdir = "/" ++ tdir) as ->.
  { unfold path.join_step. by rewrite Hs. }
  rewrite join_step_plain;
    [| done | by rewrite endswith_char_app
       | by apply suffixed_no_leading_slash].
  apply replace_char_absent.
  rewrite !contains_char_app in Hbs.
  apply orb_false_elim in Hbs as [B1 [B2 B3]%orb_false_elim].
  rewrite !contains_char_app, suffixed_contains, contains_char_app.
  unfold bs in *. rewrite B1, B2, B3. reflexivity.
Qed.

Lemma gallery_url_plain generator base_path sub filename :
  let idir := default DEFAULT_IMAGE_DIR (IMAGE_PATH (settings generator)) in
  str.startswith base_path "/" = true ->
  str.contains_char "/" filename = false ->
  plain_dir sub = true -> plain_dir idir = true ->
  occurs base_path ("/" ++ sub ++ "/" ++ filename) = false ->
  str.contains_char bs (idir ++ sub ++ filename) = false ->
  gallery_url generator base_path (base_path ++ "/" ++ sub) filename
  = "/static/" ++ idir ++ "/" ++ sub ++ "/" ++ filename.
Proof.
  intros idir Hb Hf Hsub Hidir Hocc Hbs. unfold gallery_url. fold idir.
  destruct (plain_dir_inv _ Hsub) as (Sne & Ss & Se).
  destruct (plain_dir_inv _ Hidir) as (Ine & Is & Ie).
  assert (base_path <> "") as Bne by (by intros ->).
  pose proof (startswith_slash_false _ Hf) as Hfs.
  unfold path.join. cbn [fold_left].
  assert (path.join_step (base_path ++ "/" ++ sub) filename
          = base_path ++ "/" ++ sub ++ "/" ++ filename) as ->.
  { rewrite join_step_plain; [by rewrite !sapp_assoc | | | done].
    - by destruct base_path.
    - change (base_path ++ "/" ++ sub) with (base_path ++ ("/" ++ sub)).
      rewrite <- sapp_assoc. by rewrite endswith_char_app. }
  rewrite (replace_prefix base_path _ Bne Hocc).
  change (str.drop 1 ("/" ++ sub ++ "/" ++ filename)) with (sub ++ "/" ++ filename).
  assert (path.join_step "/static" idir = "/static/" ++ idir) as ->.
  { by rewrite join_step_plain. }
  rewrite join_step_plain.
  - rewrite sapp_assoc. apply replace_char_absent.
    rewrite !contains_char_app in Hbs.
    apply orb_false_elim in Hbs as [B1 [B2 B3]%orb_false_elim].
    rewrite !contains_char_app. unfold bs in *. rewrite B1, B2, B3. reflexivity.
  - done.
  - by rewrite endswith_char_app.
  - destruct sub; [done|]. exact Ss.
Qed.

End gallery_url_facts.

(** C10.  In gallery expansion the thumbnail of a file comes from
    [get_thumbnail_name] applied to the bare file name.  With an absolute
    image root, a file name without a slash and plain directory names without
    backslashes, the thumbnail URL is [/<thumbnail_dir>/<basename>_<name><ext>]
    whatever subdirectory of the gallery the file is in, while the public URL
    of the file in the subdirectory [sub] is
    [/static/<image_dir>/<sub>/<filename>], as long as the text of the image
    root does not occur again in the rest of the file's path. *)
Theorem C10_gallery_thumbnail_without_subdirectory {host : Host}
    (generator : Pelican) (sub filename : string) :
  let base_path := _image_path generator in
  let tdir := default DEFAULT_THUMBNAIL_DIR (THUMBNAIL_DIR (settings generator)) in
  let idir := default DEFAULT_IMAGE_DIR (IMAGE_PATH (settings generator)) in
  let name := default DEFAULT_GALLERY_THUMB (GALLERY_THUMBNAIL (settings generator)) in
  let resizer := mkResizer name "?x?" base_path in
  gallery_thumbnail generator resizer filename
  = str.replace (path.join "/" [tdir; get_thumbnail_name resizer filename])
                backslash "/"
  /\ (str.startswith base_path "/" = true ->
      str.contains_char "/" filename = false ->
      plain_dir tdir = true ->
      str.contains_char bs (tdir ++ filename ++ name) = false ->
      gallery_thumbnail generator resizer filename
      = "/" ++ tdir ++ "/" ++ (path.splitext filename).1 ++ "_" ++ name
        ++ (path.splitext filename).2
      /\ (plain_dir sub = true -> plain_dir idir = true ->
          occurs base_path ("/" ++ sub ++ "/" ++ filename) = false ->
          str.contains_char bs (idir ++ sub ++ filename) = false ->
          gallery_url generator base_path (base_path ++ "/" ++ sub) filename
          = "/static/" ++ idir ++ "/" ++ sub ++ "/" ++ filename)).
Proof.
  intros base_path tdir idir name resizer. split; [reflexivity|].
  intros Hb Hf Ht Hbs. split.
  - by apply gallery_thumbnail_plain.
  - intros Hsub Hidir Hocc Hbs'. by apply gallery_url_plain.
Qed.

Lemma C8_expand_gallery_witness :
  @expand_gallery demo.demo_host demo_gallery.pelican_g ∅ demo.demo_world
  = (inr ∅, demo.demo_world)
  /\ (@expand_gallery demo.demo_host demo_gallery.pelican_g
        demo_gallery.vacation demo.demo_world).1
     = inr (<["gallery_content" := PyStr (str.join nl demo_gallery.vacation_lines)]>
              demo_gallery.vacation).
Proof.
  split.
  - destruct (@C8_expand_gallery demo.demo_host demo_gallery.pelican_g ∅
                demo.demo_world) as [H _].
    apply H. left. reflexivity.
  - destruct (@C8_expand_gallery demo.demo_host demo_gallery.pelican_g
                demo_gallery.vacation demo.demo_world) as [_ H].
    specialize (H "vacation" demo_gallery.vacation_lines eq_refl).
    cbv zeta in H. apply H.
    let t := eval vm_compute in
      (gallery_files (@os_walk demo.demo_host
         (path.join (@_image_path demo_gallery.pelican_g) ["vacation"]))) in
    change (gallery_files _) with t.
    unfold demo_gallery.vacation_lines.
    repeat (constructor; [reflexivity|]). constructor.
Defined.

Lemma C10_gallery_thumbnail_without_subdirectory_witness :
  @gallery_thumbnail demo.demo_pelican
     (mkResizer "thumbnail_square" "?x?" "/site/content/pictures") "b.png"
  = "/thumbnails/b_thumbnail_square.png"
  /\ @gallery_url demo.demo_pelican "/site/content/pictures"
       "/site/content/pictures/vacation/day1" "b.png"
     = "/static/pictures/vacation/day1/b.png".
Proof.
  destruct (@C10_gallery_thumbnail_without_subdirectory demo.demo_host
              demo.demo_pelican "vacation/day1" "b.png") as [_ H].
  destruct (H eq_refl eq_refl eq_refl eq_refl) as [Ht Hu].
  split; [exact Ht | exact (Hu eq_refl eq_refl eq_refl eq_refl)].
Defined.

(** ** resize_file_to, step by step *)

Section resize_file_facts.
Context {pil : PIL} {host : Host}.

Lemma resize_file_to_eq self in_path out_path keep w :
  resize_file_to self in_path out_path keep w
  = let filename := target_filename self in_path out_path keep in
    let d := path.dirname filename in
    match (if present d w then (inr tt, w) else os.makedirs d w) with
    | (inl e, w1) => (inl e, w1)
    | (inr _, w1) =>
        if present filename w1 then (inr tt, w1)
        else attempt self in_path filename w1
    end.
Proof.
  unfold resize_file_to, target_filename, present, attempt.
  cbv zeta. unfold bind at 1. unfold os.path_exists at 1.
  unfold bind at 1.
  destruct (bool_decide (is_Some (fs w !! _))); cbn [negb].
  - unfold ret at 1. unfold bind at 1. unfold os.path_exists at 1.
    by destruct (bool_decide _).
  - destruct (os.makedirs _ w) as [[e|[]] w1]; [done|].
    unfold bind at 1. unfold os.path_exists at 1.
    by destruct (bool_decide _).
Qed.

Lemma attempt_eq self in_path filename w :
  fs w !! filename = None ->
  attempt self in_path filename w
  = apply_outcome filename w
      (attempt_pure self in_path filename
         (source_image (fs w) in_path) (fs w !! path.dirname filename)).
Proof.
  intros Hnone.
  unfold attempt, try_except, attempt_pure, apply_outcome, source_image.
  unfold bind at 1. unfold Image_open at 1. unfold bind at 1, emit at 1.
  cbn [fs trace].
  assert (forall e evs,
    (if decide (e = IOError)
     then logger.info ("Generating Thumbnail for " ++ path.basename filename
                       ++ " skipped") (World (fs w) (trace w ++ evs)%list)
     else (inl e, World (fs w) (trace w ++ evs)%list))
    = ((handled filename e evs).1.1,
       World (fs w) (trace w ++ (handled filename e evs).1.2)%list)
    /\ (handled filename e evs).2 = None) as Hh.
  { intros e evs. unfold handled. destruct (decide (e = IOError)); cbn.
    - unfold logger.info, emit. cbn. by rewrite <- app_assoc.
    - done. }
  destruct (fs w !! in_path) as [[bytes|]|] eqn:Hsrc;
    [ | destruct (Hh IOError [EvOpen in_path]) as [-> ->]; reflexivity
      | destruct (Hh IOError [EvOpen in_path]) as [-> ->]; reflexivity ].
  destruct (decode bytes) as [image|];
    [ | destruct (Hh IOError [EvOpen in_path]) as [-> ->]; reflexivity ].
  unfold bind at 1, resize at 1. unfold bind at 1, lift at 1.
  destruct (resize_locals self image) as [e|l];
    [ destruct (Hh e [EvOpen in_path]) as [-> ->]; reflexivity | ].
  unfold bind at 1. unfold logger.debug at 1, emit at 1. cbn [fs trace].
  fold (using_resizer (resizer l)). rewrite <- app_assoc. cbn [app].
  destruct (targetw l) as [tw|], (targeth l) as [th|]; try reflexivity.
  unfold lift at 1.
  destruct (call (resizer l) tw th image) as [e|thumbnail];
    [ destruct (Hh e [EvOpen in_path; using_resizer (resizer l)]) as [-> ->]; reflexivity | ].
  unfold bind at 1, Image_save at 1. unfold bind at 1, lift at 1.
  destruct (encode thumbnail filename) as [e|bytes'];
    [ destruct (Hh e [EvOpen in_path; using_resizer (resizer l)]) as [-> ->]; reflexivity | ].
  cbn [fs trace]. rewrite Hnone.
  rewrite (bool_decide_eq_false_2 (None = Some Dir)) by discriminate.
  rewrite orb_false_r.
  destruct (negb (String.eqb (path.dirname filename) "")
            && negb (bool_decide (fs w !! path.dirname filename = Some Dir))).
  - destruct (Hh IOError [EvOpen in_path; using_resizer (resizer l)]) as [-> ->]; reflexivity.
  - unfold logger.info, emit. cbn [fs trace]. rewrite <- !app_assoc.
    reflexivity.
Qed.

End resize_file_facts.

Section file_system_facts.
Context {pil : PIL} {host : Host}.

Lemma mkdir_all_lookup ps (m : gmap string node) p :
  os.mkdir_all ps m !! p = if bool_decide (p ∈ ps) then Some Dir else m !! p.
Proof.
  induction ps as [|q ps IH]; unfold os.mkdir_all; cbn [foldr].
  - case_bool_decide as H; [by apply elem_of_nil in H | done].
  - fold (os.mkdir_all ps m). destruct (decide (q = p)) as [->|Hne].
    + rewrite lookup_insert_eq. clear IH.
      case_bool_decide as H; [done | exfalso; apply H, list_elem_of_here].
    + rewrite lookup_insert_ne by done. rewrite IH.
      destruct (decide (p ∈ ps)) as [Hin|Hnin].
      * rewrite !bool_decide_eq_true_2; [done | by apply list_elem_of_further | done].
      * rewrite !bool_decide_eq_false_2; [done | | done].
        intros [?|?]%elem_of_cons; congruence.
Qed.

Lemma unblocked_no_file d (m : gmap string node) p :
  os.makedirs_blocked d m = false ->
  p ∈ (os.dir_prefixes "" d ++ [d])%list -> os.is_file m p = false.
Proof.
  unfold os.makedirs_blocked. intros [_ H]%orb_false_elim Hin.
  destruct (os.is_file m p) eqn:E; [|done].
  assert (existsb (os.is_file m) (os.dir_prefixes "" d ++ [d])%list = true) as Hex.
  { apply existsb_exists. exists p. split; [by apply list_elem_of_In | done]. }
  congruence.
Qed.

Lemma makedirs_mono d (m : gmap string node) :
  os.makedirs_blocked d m = false ->
  m ⊆ os.mkdir_all (os.dir_prefixes "" d ++ [d])%list m.
Proof.
  intros Hb. apply map_subseteq_spec. intros p x Hp.
  rewrite mkdir_all_lookup. case_bool_decide as Hin; [|done].
  pose proof (unblocked_no_file d m p Hb Hin) as Hf.
  unfold os.is_file in Hf. rewrite Hp in Hf. by destruct x.
Qed.

Lemma makedirs_same_files d (m : gmap string node) :
  os.makedirs_blocked d m = false ->
  same_files m (os.mkdir_all (os.dir_prefixes "" d ++ [d])%list m).
Proof.
  intros Hb p c. rewrite mkdir_all_lookup. case_bool_decide as Hin; [|done].
  pose proof (unblocked_no_file d m p Hb Hin) as Hf.
  unfold os.is_file in Hf. split; [done|]. intros Hp. by rewrite Hp in Hf.
Qed.

Lemma makedirs_creates d (m : gmap string node) :
  os.mkdir_all (os.dir_prefixes "" d ++ [d])%list m !! d = Some Dir.
Proof.
  rewrite mkdir_all_lookup, bool_decide_eq_true_2; [done|].
  apply elem_of_app. right. apply list_elem_of_here.
Qed.

Lemma handled_props filename e evs :
  (handled filename e evs).2 = None
  /\ (no_save evs -> no_save (handled filename e evs).1.2).
Proof.
  unfold handled. destruct (decide (e = IOError)); cbn; split; try done.
  intros Hn p [Hin|Hin]%elem_of_app; [by apply (Hn p)|].
  apply list_elem_of_singleton in Hin. discriminate Hin.
Qed.

Lemma no_save_open i : no_save [EvOpen i].
Proof. intros p Hin. apply list_elem_of_singleton in Hin. discriminate. Qed.

Lemma no_save_open_using i f : no_save [EvOpen i; using_resizer f].
Proof.
  intros p Hin. apply elem_of_cons in Hin as [Hin|Hin]; [discriminate|].
  apply list_elem_of_singleton in Hin. discriminate.
Qed.

(** Without bytes written there is no save event. *)
Lemma attempt_pure_none self i filename src parent :
  (attempt_pure self i filename src parent).2 = None ->
  no_save (attempt_pure self i filename src parent).1.2.
Proof.
  unfold attempt_pure.
  destruct src as [image|]; [|intros _; apply handled_props, no_save_open].
  destruct (resize_locals self image) as [e|l];
    [intros _; apply handled_props, no_save_open|].
  destruct (targetw l), (targeth l);
    try (intros _; cbn; apply no_save_open_using).
  destruct (call _ _ _ _); [intros _; apply handled_props, no_save_open_using|].
  destruct (encode _ _); [intros _; apply handled_props, no_save_open_using|].
  destruct (_ && _); [intros _; apply handled_props, no_save_open_using|].
  discriminate.
Qed.

(** A source that cannot be opened is skipped. *)
Lemma attempt_pure_unreadable self i filename parent :
  attempt_pure self i filename None parent
  = (inr tt, [EvOpen i; skipped filename], None).
Proof. reflexivity. Qed.

Lemma attempt_mono self i filename w r w' :
  fs w !! filename = None ->
  attempt self i filename w = (r, w') -> fs w ⊆ fs w'.
Proof.
  intros Hn. rewrite (attempt_eq _ _ _ _ Hn). unfold apply_outcome.
  intros [= _ <-]. cbn [fs]. destruct (_.2); [|done].
  by apply insert_subseteq.
Qed.

Lemma present_true p w : present p w = true <-> is_Some (fs w !! p).
Proof. unfold present. apply bool_decide_eq_true. Qed.

Lemma present_false p w : present p w = false <-> fs w !! p = None.
Proof.
  unfold present. rewrite bool_decide_eq_false. symmetry. apply eq_None_not_Some.
Qed.

Lemma resize_file_to_mono self i o k w r w' :
  resize_file_to self i o k w = (r, w') -> fs w ⊆ fs w'.
Proof.
  rewrite resize_file_to_eq. cbv zeta.
  set (filename := target_filename self i o k).
  set (d := path.dirname filename).
  assert (forall w1, fs w ⊆ fs w1 ->
    (if present filename w1 then (inr tt, w1) else attempt self i filename w1)
    = (r, w') -> fs w ⊆ fs w') as Hstage.
  { intros w1 H1. destruct (present filename w1) eqn:Hp.
    - by intros [= _ <-].
    - apply present_false in Hp. intros Ha%attempt_mono; [|done]. by etrans. }
  destruct (present d w).
  - by apply Hstage.
  - unfold os.makedirs. destruct (os.makedirs_blocked d (fs w)) eqn:Hb.
    + by intros [= _ <-].
    + apply Hstage. cbn [fs]. by apply makedirs_mono.
Qed.

End file_system_facts.

(** ** Running the batch twice *)

Section rerun_facts.
Context {pil : PIL} {host : Host}.

Lemma get_out_path_eq pelican in_path in_filename name w :
  get_out_path pelican in_path in_filename name w
  = (out_path_of pelican in_path in_filename name,
     logged w (processing in_filename name)).
Proof.
  unfold get_out_path, out_path_of, bind, logger.debug, emit, logged, processing.
  destruct (truthy (THUMBNAIL_KEEP_NAME _)); [|done].
  destruct (truthy (THUMBNAIL_KEEP_TREE _)); [|done].
  by destruct (path.relpath _ _ _).
Qed.

Lemma run_job_eq pelican root (j : job) w :
  run_job pelican root j w
  = match out_path_of pelican root j.1.1 j.1.2 with
    | inl e => (inl e, logged w (processing j.1.1 j.1.2))
    | inr o =>
        resize_file_to j.2 j.1.1 o (THUMBNAIL_KEEP_NAME (settings pelican))
                       (logged w (processing j.1.1 j.1.2))
    end.
Proof.
  unfold run_job, bind. rewrite get_out_path_eq.
  by destruct (out_path_of _ _ _ _).
Qed.

Lemma run_job_mono pelican root (j : job) w r w' :
  run_job pelican root j w = (r, w') -> fs w ⊆ fs w'.
Proof.
  rewrite run_job_eq. destruct (out_path_of _ _ _ _).
  - by intros [= _ <-].
  - intros H%resize_file_to_mono. exact H.
Qed.

Lemma for_mono {A} (body : A -> M unit) (l : list A) :
  (forall x w r w', body x w = (r, w') -> fs w ⊆ fs w') ->
  forall w r w', for_ l body w = (r, w') -> fs w ⊆ fs w'.
Proof.
  intros Hb. induction l as [|x l IH]; intros w r w'; simpl.
  - by intros [= _ <-].
  - unfold bind. destruct (body x w) as [[e|[]] w1] eqn:E.
    + intros [= _ <-]. by eapply Hb.
    + intros H%IH. etrans; [by eapply Hb | done].
Qed.

(** A second call, later, for a file whose first call returned: it returns
    too and writes nothing. *)
Lemma resize_file_to_again self i o k w wj w2 :
  resize_file_to self i o k w = (inr tt, wj) ->
  fs wj ⊆ fs w2 ->
  (exists bytes, fs w !! i = Some (File bytes)) ->
  exists evs,
    resize_file_to self i o k w2 = (inr tt, World (fs w2) (trace w2 ++ evs)%list)
    /\ no_save evs.
Proof.
  intros Hrun Hsub [bytes Hsrc].
  pose proof (resize_file_to_mono _ _ _ _ _ _ _ Hrun) as Hmono.
  rewrite resize_file_to_eq in Hrun. rewrite resize_file_to_eq.
  cbv zeta in *.
  set (filename := target_filename self i o k) in *.
  set (d := path.dirname filename) in *.
  (* the directory: present after the first call, so present now *)
  assert (exists w1, fs w ⊆ fs w1 /\ present d w1 = true
     /\ (if present filename w1 then (inr tt, w1)
         else attempt self i filename w1) = (inr tt, wj)) as (w1 & H1 & Hd1 & Hst).
  { destruct (present d w) eqn:Hd.
    - by exists w.
    - unfold os.makedirs in Hrun.
      destruct (os.makedirs_blocked d (fs w)) eqn:Hb; [discriminate|].
      eexists. split; [|split; [|exact Hrun]].
      + cbn [fs]. by apply makedirs_mono.
      + apply present_true. cbn [fs]. rewrite makedirs_creates. by eexists. }
  assert (fs w1 ⊆ fs wj) as H1j.
  { destruct (present filename w1) eqn:Hp.
    - by injection Hst as <-.
    - apply present_false in Hp. by eapply attempt_mono. }
  apply present_true in Hd1 as [nd Hnd].
  assert (fs w2 !! d = Some nd) as Hd2.
  { eapply lookup_weaken; [|exact Hsub]. by eapply lookup_weaken. }
  assert (present d w2 = true) as -> by (apply present_true; by eexists).
  destruct (present filename w2) eqn:Hp2.
  - exists []. split; [by rewrite app_nil_r, world_eta|].
    intros p Hin. by apply elem_of_nil in Hin.
  - apply present_false in Hp2.
    assert (fs wj !! filename = None) as Hpj.
    { destruct (fs wj !! filename) eqn:E; [|done].
      by rewrite (lookup_weaken _ _ _ _ E Hsub) in Hp2. }
    assert (fs w1 !! filename = None) as Hp1.
    { destruct (fs w1 !! filename) eqn:E; [|done].
      by rewrite (lookup_weaken _ _ _ _ E H1j) in Hpj. }
    assert (present filename w1 = false) as Hpf by (by apply present_false).
    rewrite Hpf in Hst.
    rewrite (attempt_eq _ _ _ _ Hp1) in Hst.
    rewrite (attempt_eq _ _ _ _ Hp2). fold d in Hst |- *.
    assert (source_image (fs w1) i = source_image (fs w2) i) as Esrc.
    { unfold source_image.
      rewrite (lookup_weaken _ _ _ _ Hsrc H1).
      assert (fs w ⊆ fs w2) as H02 by (etrans; [exact Hmono | exact Hsub]).
      by rewrite (lookup_weaken _ _ _ _ Hsrc H02). }
    rewrite <- Esrc, Hd2, <- Hnd.
    set (out := attempt_pure self i filename (source_image (fs w1) i)
                             (fs w1 !! d)) in *.
    unfold apply_outcome in Hst. injection Hst as Hr Hw.
    assert (out.2 = None) as Hnone.
    { destruct (out.2) as [b|] eqn:E; [|done].
      rewrite <- Hw in Hpj. cbn [fs] in Hpj.
      by rewrite lookup_insert_eq in Hpj. }
    exists (out.1.2). split.
    + unfold apply_outcome. by rewrite Hr, Hnone.
    + by apply attempt_pure_none.
Qed.

Lemma no_save_cons e evs :
  (forall p, e <> EvSave p) -> no_save evs -> no_save (e :: evs).
Proof.
  intros He Hn p [E|Hin]%elem_of_cons; [by apply (He p) | by apply (Hn p)].
Qed.

Lemma no_save_app evs1 evs2 :
  no_save evs1 -> no_save evs2 -> no_save (evs1 ++ evs2)%list.
Proof.
  intros H1 H2 p [Hin|Hin]%elem_of_app; [by apply (H1 p) | by apply (H2 p)].
Qed.

Lemma run_job_again pelican root (j : job) w wj w2 :
  run_job pelican root j w = (inr tt, wj) ->
  fs wj ⊆ fs w2 ->
  (exists bytes, fs w !! j.1.1 = Some (File bytes)) ->
  exists evs,
    run_job pelican root j w2 = (inr tt, World (fs w2) (trace w2 ++ evs)%list)
    /\ no_save evs.
Proof.
  intros Hrun Hsub Hsrc. rewrite run_job_eq in Hrun. rewrite run_job_eq.
  destruct (out_path_of _ _ _ _) as [e|o]; [discriminate|].
  destruct (resize_file_to_again _ _ _ _ _ _
              (logged w2 (processing j.1.1 j.1.2)) Hrun Hsub Hsrc)
    as (evs & -> & Hn).
  exists (EvLog DEBUG (processing j.1.1 j.1.2) :: evs). split.
  - unfold logged. cbn [fs trace]. by rewrite <- app_assoc.
  - by apply no_save_cons.
Qed.

Lemma batch_again pelican root (jobs : list job) :
  forall w wj w2,
    for_ jobs (run_job pelican root) w = (inr tt, wj) ->
    fs wj ⊆ fs w2 ->
    (forall j : job, j ∈ jobs -> exists bytes, fs w !! j.1.1 = Some (File bytes)) ->
    exists evs,
      for_ jobs (run_job pelican root) w2
      = (inr tt, World (fs w2) (trace w2 ++ evs)%list)
      /\ no_save evs.
Proof.
  induction jobs as [|j jobs IH]; intros w wj w2 Hrun Hsub Hsrc.
  - exists []. split; [simpl; by rewrite app_nil_r, world_eta|].
    intros p Hin. by apply elem_of_nil in Hin.
  - simpl in Hrun. unfold bind in Hrun.
    destruct (run_job pelican root j w) as [[e|[]] wa] eqn:Ej; [discriminate|].
    pose proof (run_job_mono _ _ _ _ _ _ Ej) as Hwa.
    pose proof (for_mono _ jobs (run_job_mono pelican root) _ _ _ Hrun) as Haj.
    destruct (run_job_again _ _ _ _ _ w2 Ej) as (evs1 & E1 & Hn1);
      [by etrans | apply Hsrc, list_elem_of_here |].
    destruct (IH wa wj (World (fs w2) (trace w2 ++ evs1)%list) Hrun)
      as (evs2 & E2 & Hn2); [exact Hsub | |].
    { intros j' Hj'. destruct (Hsrc j') as [b Hb];
        [by apply list_elem_of_further|].
      exists b. by eapply lookup_weaken. }
    exists (evs1 ++ evs2)%list. split; [|by apply no_save_app].
    simpl. unfold bind. rewrite E1, E2. cbn [fs trace]. by rewrite app_assoc.
Qed.

End rerun_facts.

Section skip_facts.
Context {pil : PIL} {host : Host}.

(** The target exists: nothing is opened, resized, saved or logged. *)
Lemma resize_file_to_present self i o k w :
  let filename := target_filename self i o k in
  is_Some (fs w !! filename) ->
  exists r w' evs,
    resize_file_to self i o k w = (r, w')
    /\ same_files (fs w) (fs w')
    /\ trace w' = (trace w ++ evs)%list
    /\ only_makedirs evs
    /\ (is_Some (fs w !! path.dirname filename) -> r = inr tt /\ w' = w).
Proof.
  intros filename Hf. rewrite resize_file_to_eq. cbv zeta. fold filename.
  set (d := path.dirname filename).
  destruct (present d w) eqn:Hd.
  - assert (present filename w = true) as -> by (by apply present_true).
    exists (inr tt), w, []. split_and!; try done.
    + by rewrite app_nil_r.
    + constructor.
  - assert (~ is_Some (fs w !! d)) as Hnd.
    { intros Hd'%present_true. congruence. }
    unfold os.makedirs. destruct (os.makedirs_blocked d (fs w)) eqn:Hb.
    + exists (inl IOError), w, []. split_and!; try done.
      * by rewrite app_nil_r.
      * constructor.
    + set (w1 := World _ _).
      assert (present filename w1 = true) as ->.
      { apply present_true. destruct Hf as [x Hx]. exists x.
        eapply lookup_weaken; [exact Hx|]. by apply makedirs_mono. }
      exists (inr tt), w1, [EvMakedirs d]. split_and!; try done.
      * by apply makedirs_same_files.
      * repeat constructor. by eexists.
Qed.

(** The source cannot be opened: the call returns, no file is written, and
    if the target is still missing the skip is logged. *)
Lemma resize_file_to_unreadable self i o k w :
  let filename := target_filename self i o k in
  let d := path.dirname filename in
  source_image (fs w) i = None ->
  (is_Some (fs w !! d) \/ os.makedirs_blocked d (fs w) = false) ->
  exists w',
    resize_file_to self i o k w = (inr tt, w')
    /\ same_files (fs w) (fs w')
    /\ (fs w' !! filename = None ->
        exists evs,
          trace w' = (trace w ++ evs ++ [EvOpen i; skipped filename])%list).
Proof.
  intros filename d Hsrc Hdir. rewrite resize_file_to_eq. cbv zeta.
  fold filename. fold d.
  assert (forall w1 evs,
    source_image (fs w1) i = None -> same_files (fs w) (fs w1) ->
    trace w1 = (trace w ++ evs)%list ->
    exists w',
      (if present filename w1 then (inr tt, w1) else attempt self i filename w1)
      = (inr tt, w')
      /\ same_files (fs w) (fs w')
      /\ (fs w' !! filename = None ->
          exists evs',
            trace w' = (trace w ++ evs' ++ [EvOpen i; skipped filename])%list))
    as Hstage.
  { intros w1 evs Hs1 Hsame Htr. destruct (present filename w1) eqn:Hp.
    - exists w1. split; [done|]. split; [done|].
      intros Hn. apply present_true in Hp as [x Hx]. congruence.
    - apply present_false in Hp. rewrite (attempt_eq _ _ _ _ Hp), Hs1.
      rewrite attempt_pure_unreadable. unfold apply_outcome. cbn [fst snd].
      eexists. split; [done|]. cbn [fs trace]. split; [done|].
      intros _. exists evs. by rewrite Htr, <- app_assoc. }
  destruct (present d w) eqn:Hd.
  - apply (Hstage w []); [done | done | by rewrite app_nil_r].
  - destruct Hdir as [Hd'%present_true|Hb]; [congruence|].
    unfold os.makedirs. rewrite Hb.
    apply (Hstage _ [EvMakedirs d]); cbn [fs trace]; [| |done].
    + unfold source_image in *. rewrite mkdir_all_lookup.
      by case_bool_decide.
    + by apply makedirs_same_files.
Qed.

End skip_facts.

(** C6.  When the target file exists, [resize_file_to] opens nothing, resizes
    nothing and writes nothing: the regular files stay as they are and the
    only thing it may still do is create the target's directory (which, for
    an existing target, exists already: then the world is unchanged).  When
    a batch pass has returned, with the walk listing regular files of the
    file system it started from, a second pass over the same walk returns as
    well, leaves the file system as it is and saves no file. *)
Theorem C6_resize_file_to_idempotent {pil : PIL} {host : Host} :
  (forall self in_path out_path keep w,
     let filename := target_filename self in_path out_path keep in
     is_Some (fs w !! filename) ->
     exists r w' evs,
       resize_file_to self in_path out_path keep w = (r, w')
       /\ same_files (fs w) (fs w')
       /\ trace w' = (trace w ++ evs)%list
       /\ only_makedirs evs
       /\ (is_Some (fs w !! path.dirname filename) -> r = inr tt /\ w' = w))
  /\ (forall pelican w0 w1,
        (forall dirpath dirs filenames filename,
           (dirpath, dirs, filenames) ∈ os_walk (_image_path pelican) ->
           filename ∈ filenames ->
           exists bytes, fs w0 !! path.join dirpath [filename] = Some (File bytes)) ->
        resize_thumbnails pelican w0 = (inr tt, w1) ->
        exists evs,
          resize_thumbnails pelican w1
          = (inr tt, World (fs w1) (trace w1 ++ evs)%list)
          /\ no_save evs).
Proof.
  split.
  - intros self in_path out_path keep w. apply resize_file_to_present.
  - intros pelican w0 w1 Hwalk Hrun.
    destruct enabled eqn:He.
    + destruct (make_is_included pelican) as [e|f] eqn:Hf.
      { unfold resize_thumbnails in Hrun. rewrite He in Hrun.
        cbn [negb] in Hrun. unfold bind at 1, lift at 1 in Hrun.
        rewrite Hf in Hrun. discriminate. }
      rewrite (resize_thumbnails_jobs _ _ _ He Hf) in Hrun.
      rewrite (resize_thumbnails_jobs _ _ _ He Hf).
      destruct (batch_again _ _ _ _ _ (logged w1 "Thumbnailer Started") Hrun)
        as (evs & E & Hn); [done | |].
      { intros j (dirpath & dirs & filenames & filename & name & res
                  & Hw & Hfn & _ & _ & ->)%batch_jobs_elem.
        cbn [fst snd fs logged]. by eapply Hwalk. }
      exists (EvLog DEBUG "Thumbnailer Started" :: evs). split.
      * rewrite E. unfold logged. cbn [fs trace]. by rewrite <- app_assoc.
      * by apply no_save_cons.
    + rewrite (resize_thumbnails_disabled _ _ He) in Hrun.
      injection Hrun as <-. rewrite (resize_thumbnails_disabled _ _ He).
      exists []. split; [by rewrite app_nil_r, world_eta|].
      intros p Hin. by apply elem_of_nil in Hin.
Qed.

(** C7.  When the source cannot be opened as an image (no such file, or its
    bytes do not decode) and the target's directory exists or can be created,
    [resize_file_to] returns normally, writes no file and, the target being
    absent, logs the skip.  In the batch, such a job returns and the loop goes
    on with all the remaining jobs. *)
Theorem C7_decode_failure_is_skipped {pil : PIL} {host : Host} :
  (forall self in_path out_path keep w,
     let filename := target_filename self in_path out_path keep in
     let d := path.dirname filename in
     source_image (fs w) in_path = None ->
     (is_Some (fs w !! d) \/ os.makedirs_blocked d (fs w) = false) ->
     exists w',
       resize_file_to self in_path out_path keep w = (inr tt, w')
       /\ same_files (fs w) (fs w')
       /\ (fs w' !! filename = None ->
           exists evs,
             trace w' = (trace w ++ evs ++ [EvOpen in_path; skipped filename])%list))
  /\ (forall pelican f w (pre post : list job) (j : job) w1 o,
        let root := _image_path pelican in
        let filename :=
          target_filename j.2 j.1.1 o (THUMBNAIL_KEEP_NAME (settings pelican)) in
        let d := path.dirname filename in
        enabled = true ->
        make_is_included pelican = inr f ->
        batch_jobs pelican f = (pre ++ j :: post)%list ->
        for_ pre (run_job pelican root) (logged w "Thumbnailer Started")
        = (inr tt, w1) ->
        out_path_of pelican root j.1.1 j.1.2 = inr o ->
        source_image (fs w1) j.1.1 = None ->
        (is_Some (fs w1 !! d) \/ os.makedirs_blocked d (fs w1) = false) ->
        exists w2,
          run_job pelican root j w1 = (inr tt, w2)
          /\ resize_thumbnails pelican w = for_ post (run_job pelican root) w2).
Proof.
  split.
  - intros self in_path out_path keep w. apply resize_file_to_unreadable.
  - intros pelican f w pre post j w1 o root filename d He Hf Hjobs Hpre Ho Hsrc Hdir.
    destruct (resize_file_to_unreadable j.2 j.1.1 o
                (THUMBNAIL_KEEP_NAME (settings pelican))
                (logged w1 (processing j.1.1 j.1.2)) Hsrc Hdir)
      as (w2 & Hrun & _).
    exists w2.
    assert (run_job pelican root j w1 = (inr tt, w2)) as Hj.
    { rewrite run_job_eq. fold root. by rewrite Ho. }
    split; [exact Hj|].
    rewrite (resize_thumbnails_jobs _ _ _ He Hf). fold root.
    rewrite Hjobs, for_app. unfold bind at 1. rewrite Hpre.
    cbn [for_]. unfold bind at 1. by rewrite Hj.
Qed.

Section batch_witnesses.
#[local] Existing Instance demo.demo_pil.
#[local] Existing Instance demo.demo_host.

Lemma demo_walk_lists_files dirpath dirs filenames filename :
  (dirpath, dirs, filenames) ∈ os_walk (_image_path demo.demo_pelican) ->
  filename ∈ filenames ->
  exists bytes,
    fs demo.demo_world !! path.join dirpath [filename] = Some (File bytes).
Proof.
  intros Hw Hf.
  let t := eval vm_compute in (os_walk (_image_path demo.demo_pelican)) in
  change (os_walk (_image_path demo.demo_pelican)) with t in Hw.
  repeat (apply elem_of_cons in Hw as [Hw|Hw];
          [injection Hw as -> -> ->;
           repeat (apply elem_of_cons in Hf as [->|Hf];
                   [eexists; vm_compute; reflexivity|]);
           by apply elem_of_nil in Hf|]).
  by apply elem_of_nil in Hw.
Qed.

Lemma C6_resize_file_to_idempotent_witness :
  resize_file_to demo_batch.thumb (demo.pictures ++ "/a.jpg")
                 "/site/output/thumbnails" None demo_batch.after_first
  = (inr tt, demo_batch.after_first)
  /\ exists evs,
       resize_thumbnails demo.demo_pelican demo_batch.after_first
       = (inr tt, World (fs demo_batch.after_first)
                        (trace demo_batch.after_first ++ evs)%list)
       /\ no_save evs.
Proof.
  destruct (@C6_resize_file_to_idempotent demo.demo_pil demo.demo_host)
    as [Ha Hb].
  split.
  - destruct (Ha demo_batch.thumb (demo.pictures ++ "/a.jpg")
                "/site/output/thumbnails" None demo_batch.after_first)
      as (r & w' & evs & E & _ & _ & _ & Hsame).
    { exists (File "IMG"). vm_compute. reflexivity. }
    destruct Hsame as [-> ->]; [|exact E].
    exists Dir. vm_compute. reflexivity.
  - apply (Hb demo.demo_pelican demo.demo_world demo_batch.after_first).
    + exact demo_walk_lists_files.
    + vm_compute. reflexivity.
Defined.

Lemma C7_decode_failure_is_skipped_witness :
  (exists w',
     resize_file_to demo_batch.thumb (demo.pictures ++ "/notes.txt")
                    "/site/output/thumbnails" None demo.demo_world
     = (inr tt, w')
     /\ same_files (fs demo.demo_world) (fs w'))
  /\ (exists w2,
        run_job demo.demo_pelican demo.pictures demo_batch.job_notes
                demo_batch.before_notes = (inr tt, w2)
        /\ resize_thumbnails demo.demo_pelican demo.demo_world
           = for_ demo_batch.jobs_rest
                  (run_job demo.demo_pelican demo.pictures) w2).
Proof.
  destruct (@C7_decode_failure_is_skipped demo.demo_pil demo.demo_host)
    as [Ha Hb].
  split.
  - destruct (Ha demo_batch.thumb (demo.pictures ++ "/notes.txt")
                "/site/output/thumbnails" None demo.demo_world)
      as (w' & E & Hs & _).
    + vm_compute. reflexivity.
    + right. vm_compute. reflexivity.
    + exists w'. by split.
  - apply (Hb demo.demo_pelican (fun name => negb (str.startswith name "."))
              demo.demo_world [demo_batch.job_a] demo_batch.jobs_rest
              demo_batch.job_notes demo_batch.before_notes
              "/site/output/thumbnails").
    + reflexivity.
    + reflexivity.
    + vm_compute. reflexivity.
    + vm_compute. reflexivity.
    + reflexivity.
    + vm_compute. reflexivity.
    + left. exists Dir. vm_compute. reflexivity.
Defined.

End batch_witnesses.

(** ** Paths made of plain components *)

Section component_facts.

Lemma component_inv s :
  component s = true ->
  s <> "" /\ str.contains_char "/" s = false /\ s <> "." /\ s <> "..".
Proof.
  unfold component.
  intros [[[H1 H2]%andb_prop H3]%andb_prop H4]%andb_prop.
  apply negb_true_iff in H1, H2, H3, H4.
  apply String.eqb_neq in H1, H3, H4. done.
Qed.

Lemma component_slash_free s :
  component s = true -> str.contains_char "/" s = false.
Proof. intros H. by destruct (component_inv s H) as (_ & ? & _). Qed.

Lemma component_nonempty s : component s = true -> s <> "".
Proof. intros H. by destruct (component_inv s H) as (? & _). Qed.

Lemma rfind_absent c s : str.contains_char c s = false -> str.rfind c s = -1.
Proof.
  induction s as [|a s IH]; [done|]. simpl.
  intros [Ha Hs]%orb_false_elim. by rewrite (IH Hs), Ha.
Qed.

Lemma rfind_bounds c s : -1 <= str.rfind c s < Z.of_nat (String.length s).
Proof.
  induction s as [|a s IH]; simpl; [lia|].
  destruct (0 <=? str.rfind c s) eqn:E; [lia|].
  destruct (str.eqb_ascii a c); lia.
Qed.

Lemma rfind_absent_inv c s : str.rfind c s = -1 -> str.contains_char c s = false.
Proof.
  induction s as [|a s IH]; [done|]. simpl.
  pose proof (rfind_bounds c s) as Hb.
  destruct (0 <=? str.rfind c s) eqn:E.
  - apply Z.leb_le in E. lia.
  - apply Z.leb_gt in E. destruct (str.eqb_ascii a c); [lia|].
    intros _. simpl. apply IH. lia.
Qed.

Lemma rfind_app_found c p f :
  0 <= str.rfind c f ->
  str.rfind c (p ++ f) = Z.of_nat (String.length p) + str.rfind c f.
Proof.
  intros Hf. induction p as [|x p IH]; simpl; [lia|].
  rewrite IH. pose proof (rfind_bounds c f).
  destruct (0 <=? _) eqn:E; [lia|]. apply Z.leb_gt in E. lia.
Qed.

Lemma rfind_app_absent c p f :
  str.contains_char c f = false -> str.rfind c (p ++ f) = str.rfind c p.
Proof.
  intros Hf. induction p as [|x p IH]; simpl; [by apply rfind_absent|].
  by rewrite IH.
Qed.

(** The last separator of [a/f], for a file name [f], is the one between. *)
Lemma rfind_sep_file a f :
  str.contains_char "/" f = false ->
  str.rfind path.sep (a ++ "/" ++ f) = Z.of_nat (String.length a).
Proof.
  intros Hf. unfold path.sep.
  assert (str.rfind "/" ("/" ++ f) = 0) as E.
  { change ("/" ++ f) with (String "/" f). cbn [str.rfind].
    by rewrite (rfind_absent _ _ Hf). }
  rewrite rfind_app_found; rewrite E; lia.
Qed.

Lemma endswith_absent c s :
  str.contains_char c s = false -> str.endswith_char s c = false.
Proof.
  induction s as [|a s IH]; [done|]. simpl.
  intros [Ha Hs]%orb_false_elim. destruct s; [done | by apply IH].
Qed.

Lemma all_char_app_false c a s :
  a <> "" -> str.endswith_char a c = false -> str.all_char c (a ++ s) = false.
Proof.
  intros Hne He. induction a as [|x a IH]; [done|].
  simpl in *. destruct a as [|y a].
  - by rewrite He.
  - rewrite IH; [apply andb_false_r | done | done].
Qed.

Lemma rstrip_sep_app c a :
  a <> "" -> str.endswith_char a c = false ->
  str.rstrip_char c (a ++ String c "") = a.
Proof.
  unfold str.rstrip_char. intros Hne He. induction a as [|x a IH]; [done|].
  destruct a as [|y a].
  - simpl in *. rewrite eqb_ascii_refl. by rewrite He.
  - change (String x (String y a) ++ String c "")
      with (String x (String y a ++ String c "")).
    cbn [str.rstrip_by]. rewrite IH; [done | done | exact He].
Qed.

Lemma basename_file a f :
  str.contains_char "/" f = false -> path.basename (a ++ "/" ++ f) = f.
Proof.
  intros Hf. unfold path.basename. rewrite (rfind_sep_file a f Hf).
  replace (Z.to_nat (Z.of_nat (String.length a) + 1))
    with (String.length (a ++ "/")) by (rewrite slength_app; simpl; lia).
  rewrite <- sapp_assoc. apply sdrop_app_length.
Qed.

Lemma dirname_file a f :
  a <> "" -> str.endswith_char a path.sep = false ->
  str.contains_char "/" f = false ->
  path.dirname (a ++ "/" ++ f) = a.
Proof.
  intros Hne He Hf. unfold path.dirname. rewrite (rfind_sep_file a f Hf).
  replace (Z.to_nat (Z.of_nat (String.length a) + 1))
    with (String.length (a ++ "/")) by (rewrite slength_app; simpl; lia).
  rewrite <- sapp_assoc, stake_app_length.
  rewrite (all_char_app_false _ _ _ Hne He).
  replace (String.eqb (a ++ "/") "") with false
    by (symmetry; apply String.eqb_neq; by destruct a).
  simpl. by apply rstrip_sep_app.
Qed.

Lemma take_app_plus a b n :
  str.take (String.length a + n) (a ++ b) = a ++ str.take n b.
Proof. induction a as [|x a IH]; simpl; [done | by rewrite IH]. Qed.

Lemma drop_app_plus a b n :
  str.drop (String.length a + n) (a ++ b) = str.drop n b.
Proof. induction a as [|x a IH]; simpl; [done | exact IH]. Qed.

Lemma splitext_file a f :
  str.contains_char "/" f = false ->
  path.splitext (a ++ "/" ++ f)
  = (a ++ "/" ++ (path.splitext f).1, (path.splitext f).2).
Proof.
  intros Hf. unfold path.splitext.
  rewrite (rfind_sep_file a f Hf). unfold path.sep.
  rewrite (rfind_absent "/" f Hf).
  replace (Z.to_nat (Z.of_nat (String.length a) + 1))
    with (String.length (a ++ "/") + 0)%nat by (rewrite slength_app; simpl; lia).
  rewrite <- (sapp_assoc a "/" f), drop_app_plus.
  change (-1 + 1) with 0. change (Z.to_nat 0) with 0%nat. cbn [str.drop].
  pose proof (rfind_bounds "." f) as Hb.
  destruct (decide (0 <= str.rfind "." f)) as [Hdot|Hdot].
  - rewrite (rfind_app_found "." (a ++ "/") f Hdot).
    rewrite slength_app. cbn [String.length].
    replace (Z.of_nat (String.length a) <? Z.of_nat (String.length a + 1) + str.rfind "." f)
      with true by (symmetry; apply Z.ltb_lt; lia).
    replace (-1 <? str.rfind "." f) with true by (symmetry; apply Z.ltb_lt; lia).
    replace (Z.to_nat (Z.of_nat (String.length a + 1) + str.rfind "." f
                       - (Z.of_nat (String.length a) + 1)))
      with (Z.to_nat (str.rfind "." f - 0)) by lia.
    cbn [andb]. destruct (path.skip_dots f _); [|by rewrite sapp_assoc].
    replace (Z.to_nat (Z.of_nat (String.length a + 1) + str.rfind "." f))
      with (String.length (a ++ "/") + Z.to_nat (str.rfind "." f))%nat
      by (rewrite slength_app; simpl; lia).
    rewrite take_app_plus, drop_app_plus. cbn [fst snd]. by rewrite sapp_assoc.
  - assert (str.rfind "." f = -1) as Ef by lia. rewrite Ef.
    pose proof (rfind_bounds "." (a ++ "/" ++ f)) as Hb'.
    assert (str.rfind "." ((a ++ "/") ++ f) <= Z.of_nat (String.length a)) as Hle.
    { destruct (str.contains_char "." f) eqn:Ec.
      - by rewrite (rfind_absent_inv _ _ Ef) in Ec.
      - rewrite (rfind_app_absent _ _ _ Ec).
        pose proof (rfind_bounds "." (a ++ "/")) as Hb2.
        rewrite slength_app in Hb2. simpl in Hb2.
        assert (str.rfind "." (a ++ "/") <> Z.of_nat (String.length a)); [|lia].
        clear. induction a as [|x a IH]; [done|].
        simpl. pose proof (rfind_bounds "." (a ++ "/")) as Hb3.
        rewrite slength_app in Hb3. simpl in Hb3.
        destruct (0 <=? _) eqn:E; [lia|].
        destruct (str.eqb_ascii x "."); lia. }
    replace (Z.of_nat (String.length a) <? str.rfind "." ((a ++ "/") ++ f))
      with false by (symmetry; apply Z.ltb_ge; lia).
    change (-1 <? -1) with false. cbn [andb fst snd]. by rewrite sapp_assoc.
Qed.

Lemma suffixed_file name a f :
  str.contains_char "/" f = false ->
  suffixed name (a ++ "/" ++ f) = a ++ "/" ++ suffixed name f.
Proof.
  intros Hf. unfold suffixed. rewrite (splitext_file a f Hf). cbn [fst snd].
  by rewrite !sapp_assoc.
Qed.

End component_facts.

Section component_list_facts.

Lemma split_nonempty c s : str.split_char c s <> [].
Proof.
  destruct s as [|a s]; [done|]. simpl.
  destruct (str.eqb_ascii a c); [done|]. by destruct (str.split_char c s).
Qed.

Lemma split_app c a b :
  str.split_char c (a ++ String c b)
  = (str.split_char c a ++ str.split_char c b)%list.
Proof.
  induction a as [|x a IH]; simpl.
  - by rewrite eqb_ascii_refl.
  - rewrite IH. destruct (str.eqb_ascii x c); [done|].
    pose proof (split_nonempty c a) as Hne.
    by destruct (str.split_char c a).
Qed.

Lemma split_absent c s :
  str.contains_char c s = false -> str.split_char c s = [s].
Proof.
  induction s as [|a s IH]; [done|]. simpl.
  intros [Ha Hs]%orb_false_elim. by rewrite Ha, (IH Hs).
Qed.

Lemma join_cons sep x y r :
  str.join sep (x :: y :: r) = x ++ sep ++ str.join sep (y :: r).
Proof. reflexivity. Qed.

Lemma join_app sep a b :
  a <> [] -> b <> [] ->
  str.join sep (a ++ b) = str.join sep a ++ sep ++ str.join sep b.
Proof.
  intros Ha Hb. induction a as [|x a IH]; [done|].
  destruct a as [|y a].
  - destruct b as [|z b]; [done|]. reflexivity.
  - change ((x :: y :: a) ++ b)%list with (x :: y :: (a ++ b))%list.
    rewrite !join_cons. change (y :: (a ++ b))%list with ((y :: a) ++ b)%list.
    rewrite IH by done. by rewrite !sapp_assoc.
Qed.

Lemma components_slash_free cs :
  Forall (fun c => component c = true) cs ->
  Forall (fun c => str.contains_char "/" c = false) cs.
Proof.
  intros H. eapply Forall_impl; [exact H|].
  intros c Hc. by apply component_slash_free.
Qed.

Lemma split_join cs :
  cs <> [] -> Forall (fun c => str.contains_char "/" c = false) cs ->
  str.split_char "/" (str.join "/" cs) = cs.
Proof.
  intros Hne Hcs. induction cs as [|x cs IH]; [done|].
  apply Forall_cons in Hcs as [Hx Hcs]. destruct cs as [|y cs].
  - by apply split_absent.
  - rewrite join_cons. change ("/" ++ str.join "/" (y :: cs))
      with (String "/" (str.join "/" (y :: cs))).
    rewrite split_app, (split_absent _ _ Hx), IH by done. reflexivity.
Qed.

Lemma norm_fold_components i cs acc :
  Forall (fun c => component c = true) cs ->
  fold_left (path.norm_step i) cs acc = (acc ++ cs)%list.
Proof.
  revert acc. induction cs as [|c cs IH]; intros acc Hcs; simpl.
  - by rewrite app_nil_r.
  - apply Forall_cons in Hcs as [Hc Hcs].
    destruct (component_inv c Hc) as (H1 & _ & H3 & H4).
    unfold path.norm_step at 2.
    apply String.eqb_neq in H1, H3, H4. rewrite H1, H3, H4. simpl.
    rewrite (IH _ Hcs). by rewrite <- app_assoc.
Qed.

Lemma join_starts cs :
  cs <> [] -> Forall (fun c => component c = true) cs ->
  str.startswith (str.join "/" cs) "/" = false.
Proof.
  intros Hne Hcs. destruct cs as [|x cs]; [done|].
  apply Forall_cons in Hcs as [Hx _].
  destruct (component_inv x Hx) as (Hxe & Hxs & _).
  destruct x as [|a x]; [done|]. simpl in Hxs.
  apply orb_false_elim in Hxs as [Ha _].
  destruct cs; simpl; by rewrite Ha.
Qed.

Lemma join_nonempty cs :
  cs <> [] -> Forall (fun c => component c = true) cs -> str.join "/" cs <> "".
Proof.
  intros Hne Hcs. destruct cs as [|x cs]; [done|].
  apply Forall_cons in Hcs as [Hx _].
  destruct (component_inv x Hx) as (Hxe & _).
  destruct x; [done|]. by destruct cs.
Qed.

Lemma join_ends cs :
  cs <> [] -> Forall (fun c => component c = true) cs ->
  str.endswith_char (str.join "/" cs) path.sep = false.
Proof.
  intros Hne Hcs. induction cs as [|x cs IH]; [done|].
  apply Forall_cons in Hcs as [Hx Hcs]. destruct cs as [|y cs].
  - apply endswith_absent. by apply component_slash_free.
  - rewrite join_cons, <- sapp_assoc, endswith_char_app.
    + by apply IH.
    + by apply join_nonempty.
Qed.

Lemma rooted_split cs :
  cs <> [] -> Forall (fun c => component c = true) cs ->
  str.split_char "/" (rooted cs) = "" :: cs.
Proof.
  intros Hne Hcs. unfold rooted.
  change ("/" ++ str.join "/" cs) with (String "/" (str.join "/" cs)).
  cbn [str.split_char]. rewrite eqb_ascii_refl.
  by rewrite split_join by (done || by apply components_slash_free).
Qed.

Lemma rooted_normpath cs :
  cs <> [] -> Forall (fun c => component c = true) cs ->
  path.normpath (rooted cs) = rooted cs.
Proof.
  intros Hne Hcs. unfold path.normpath, path.sep.
  rewrite (rooted_split cs Hne Hcs).
  pose proof (join_starts cs Hne Hcs) as Hs.
  assert (str.startswith (rooted cs) "//" = false) as H2.
  { unfold rooted. change ("/" ++ str.join "/" cs)
      with (String "/" (str.join "/" cs)).
    cbn [str.startswith]. rewrite eqb_ascii_refl. cbn [andb].
    destruct (str.join "/" cs) as [|a r]; [done|].
    simpl in Hs |- *. by destruct (str.eqb_ascii a "/"). }
  assert (str.startswith (rooted cs) "/" = true) as H1 by reflexivity.
  rewrite H1, H2. cbn [andb Nat.eqb fold_left].
  change (path.norm_step 1 [] "") with (@nil string).
  rewrite (norm_fold_components 1 cs [] Hcs). cbn [app].
  reflexivity.
Qed.

Lemma rooted_abspath cwd cs :
  cs <> [] -> Forall (fun c => component c = true) cs ->
  path.abspath cwd (rooted cs) = rooted cs.
Proof.
  intros Hne Hcs. unfold path.abspath.
  assert (str.startswith (rooted cs) "/" = true) as -> by reflexivity.
  by apply rooted_normpath.
Qed.

Lemma filter_nonempty_components cs :
  Forall (fun c => component c = true) cs ->
  filter (fun x : string => x <> "") cs = cs.
Proof.
  induction 1 as [|c cs Hc _ IH]; [done|].
  rewrite filter_cons_True; [by rewrite IH|].
  by apply component_nonempty.
Qed.

Lemma commonprefix_list_app a b : path.commonprefix_list a (a ++ b)%list = a.
Proof.
  induction a as [|x a IH]; simpl; [by destruct b|].
  by rewrite String.eqb_refl, IH.
Qed.

Lemma path_join_components acc cs :
  acc <> "" -> str.endswith_char acc path.sep = false ->
  cs <> [] -> Forall (fun c => component c = true) cs ->
  path.join acc cs = acc ++ "/" ++ str.join "/" cs.
Proof.
  unfold path.join. revert acc.
  induction cs as [|c cs IH]; intros acc Ha He Hne Hcs; [done|].
  apply Forall_cons in Hcs as [Hc Hcs]. cbn [fold_left].
  destruct (component_inv c Hc) as (Hce & Hcs' & _).
  rewrite join_step_plain; [|done|done|by apply startswith_slash_false].
  destruct cs as [|y cs]; [done|].
  rewrite IH; [| | |done|done].
  - rewrite join_cons. by rewrite !sapp_assoc.
  - by destruct acc.
  - change (acc ++ "/" ++ c) with (acc ++ ("/" ++ c)).
    rewrite <- sapp_assoc, endswith_char_app by done.
    by apply endswith_absent.
Qed.

(** The path of a file below a root, relative to the root. *)
Lemma relpath_below cwd rc rel :
  rc <> [] -> rel <> [] ->
  Forall (fun c => component c = true) rc ->
  Forall (fun c => component c = true) rel ->
  path.relpath cwd (rooted (rc ++ rel)) (rooted rc) = Some (str.join "/" rel).
Proof.
  intros Hrc Hrel Frc Frel. unfold path.relpath, path.sep.
  assert (rc ++ rel <> [])%list as Hne by (by destruct rc).
  assert (Forall (fun c => component c = true) (rc ++ rel)) as Fall
    by (by apply Forall_app).
  replace (String.eqb (rooted (rc ++ rel)) "") with false by reflexivity.
  rewrite !rooted_abspath, !rooted_split by done.
  rewrite !filter_cons_False by (intros H; by apply H).
  rewrite !filter_nonempty_components by done.
  rewrite commonprefix_list_app, Nat.sub_diag. cbn [replicate app].
  rewrite drop_app_length. destruct rel as [|c rel]; [done|].
  apply Forall_cons in Frel as [Hc Frel].
  destruct (component_inv c Hc) as (Hce & Hcs & _).
  destruct rel as [|y rel]; [done|].
  rewrite path_join_components; [done | done | | done | done].
  by apply endswith_absent.
Qed.

End component_list_facts.

(** ** Where a thumbnail is written *)

Section out_path_facts.
Context {pil : PIL} {host : Host}.

Lemma dir_path_inv s :
  dir_path s = true -> s <> "" /\ str.endswith_char s path.sep = false.
Proof.
  unfold dir_path. intros [H1 H2]%andb_prop.
  apply negb_true_iff in H1, H2. by apply String.eqb_neq in H1.
Qed.

Lemma dir_path_extend a b :
  dir_path a = true -> b <> "" -> str.endswith_char b path.sep = false ->
  dir_path (a ++ "/" ++ b) = true.
Proof.
  intros [Ha _]%dir_path_inv Hb He. unfold dir_path.
  change (a ++ "/" ++ b) with (a ++ ("/" ++ b)).
  rewrite <- sapp_assoc, endswith_char_app, He by done.
  replace (String.eqb ((a ++ "/") ++ b) "") with false; [done|].
  symmetry. apply String.eqb_neq. by destruct a.
Qed.

Lemma startswith_app_nonempty a b :
  a <> "" -> str.startswith (a ++ b) "/" = str.startswith a "/".
Proof. by destruct a. Qed.

Lemma join_one a b :
  dir_path a = true -> str.startswith b "/" = false ->
  path.join a [b] = a ++ "/" ++ b.
Proof.
  intros [Ha He]%dir_path_inv Hb. unfold path.join. cbn [fold_left].
  by apply join_step_plain.
Qed.

(** What the events of a call say about the file saved. *)
Lemma attempt_pure_saves self i filename src parent p :
  EvSave p ∈ (attempt_pure self i filename src parent).1.2 -> p = filename.
Proof.
  assert (forall e evs, no_save evs ->
            EvSave p ∈ (handled filename e evs).1.2 -> p = filename) as Hh.
  { intros e evs Hn Hin. exfalso.
    by apply (proj2 (handled_props filename e evs) Hn p). }
  unfold attempt_pure.
  destruct src as [image|]; [|apply Hh, no_save_open].
  destruct (resize_locals self image) as [e|l]; [apply Hh, no_save_open|].
  destruct (targetw l), (targeth l);
    try (cbn; intros Hin; exfalso; by apply (no_save_open_using i (resizer l) p)).
  destruct (call _ _ _ _); [apply Hh, no_save_open_using|].
  destruct (encode _ _); [apply Hh, no_save_open_using|].
  destruct (_ && _); [apply Hh, no_save_open_using|].
  cbn. intros Hin.
  repeat (apply elem_of_cons in Hin as [Hin|Hin]; [by inversion Hin|]).
  by apply elem_of_nil in Hin.
Qed.

Lemma resize_file_to_saves self i o k w r w' :
  resize_file_to self i o k w = (r, w') ->
  exists evs,
    trace w' = (trace w ++ evs)%list
    /\ forall p, EvSave p ∈ evs -> p = target_filename self i o k.
Proof.
  rewrite resize_file_to_eq. cbv zeta.
  set (filename := target_filename self i o k).
  set (d := path.dirname filename).
  assert (forall w1 evs1,
    trace w1 = (trace w ++ evs1)%list -> no_save evs1 ->
    (if present filename w1 then (inr tt, w1) else attempt self i filename w1)
    = (r, w') ->
    exists evs, trace w' = (trace w ++ evs)%list
                /\ forall p, EvSave p ∈ evs -> p = filename) as Hstage.
  { intros w1 evs1 Htr Hn. destruct (present filename w1) eqn:Hp.
    - intros [= _ <-]. exists evs1. split; [done|].
      intros p Hin. by apply Hn in Hin.
    - apply present_false in Hp. rewrite (attempt_eq _ _ _ _ Hp).
      unfold apply_outcome. intros [= _ <-]. cbn [trace].
      eexists. split; [by rewrite Htr, <- app_assoc|].
      intros p [Hin|Hin]%elem_of_app; [by apply Hn in Hin|].
      by apply attempt_pure_saves in Hin. }
  destruct (present d w).
  - apply (Hstage w []); [by rewrite app_nil_r|].
    intros p Hin. by apply elem_of_nil in Hin.
  - unfold os.makedirs. destruct (os.makedirs_blocked d (fs w)).
    + intros [= _ <-]. exists []. split; [by rewrite app_nil_r|].
      intros p Hin. by apply elem_of_nil in Hin.
    + apply (Hstage _ [EvMakedirs d]); [done|].
      intros p Hin. apply list_elem_of_singleton in Hin. discriminate.
Qed.

End out_path_facts.

Section nested_file.
Context {pil : PIL} {host : Host}.
Variables (pelican : Pelican) (name spec filename : string)
          (rc dirs : list string).

Let root := _image_path pelican.
Let base :=
  path.join (OUTPUT_PATH (settings pelican))
            [default DEFAULT_THUMBNAIL_DIR (THUMBNAIL_DIR (settings pelican))].
Let reldir := str.join "/" dirs.
Let in_filename := path.join (root ++ "/" ++ reldir) [filename].
Let keep := THUMBNAIL_KEEP_NAME (settings pelican).
Let tree := THUMBNAIL_KEEP_TREE (settings pelican).

Hypothesis Hroot : root = rooted rc.
Hypothesis Hrc : rc <> [] /\ Forall (fun c => component c = true) rc.
Hypothesis Hdirs : dirs <> [] /\ Forall (fun c => component c = true) dirs.
Hypothesis Hfile : component filename = true.
Hypothesis Hname : component name = true.
Hypothesis Hbase : dir_path base = true.

Lemma reldir_facts :
  reldir <> "" /\ str.startswith reldir "/" = false
  /\ str.endswith_char reldir path.sep = false.
Proof.
  destruct Hdirs as [Hne Hcs]. split; [|split].
  - by apply join_nonempty.
  - by apply join_starts.
  - by apply join_ends.
Qed.

Lemma root_dir_path : dir_path (root ++ "/" ++ reldir) = true.
Proof.
  destruct reldir_facts as (R1 & _ & R3). unfold dir_path.
  change (root ++ "/" ++ reldir) with (root ++ ("/" ++ reldir)).
  rewrite <- sapp_assoc, endswith_char_app, R3 by done.
  replace (String.eqb ((root ++ "/") ++ reldir) "") with false; [done|].
  symmetry. apply String.eqb_neq. rewrite Hroot. done.
Qed.

Lemma in_filename_eq : in_filename = root ++ "/" ++ reldir ++ "/" ++ filename.
Proof.
  unfold in_filename. rewrite join_one.
  - by rewrite !sapp_assoc.
  - apply root_dir_path.
  - by apply startswith_slash_false, component_slash_free.
Qed.

Lemma in_filename_rooted : in_filename = rooted (rc ++ dirs ++ [filename]).
Proof.
  destruct Hrc as [Hr _], Hdirs as [Hd _].
  rewrite in_filename_eq, Hroot. unfold rooted, reldir.
  rewrite (join_app "/" rc) by (done || by destruct dirs).
  rewrite (join_app "/" dirs [filename]) by done.
  by rewrite !sapp_assoc.
Qed.

Lemma relpath_in_filename :
  path.relpath getcwd in_filename root = Some (reldir ++ "/" ++ filename).
Proof.
  destruct Hrc as [Hr Fr], Hdirs as [Hd Fd].
  rewrite in_filename_rooted, Hroot, relpath_below;
    [| done | by destruct dirs | done | ].
  - unfold reldir. by rewrite (join_app "/" dirs [filename]).
  - apply Forall_app. split; [done|]. by apply Forall_singleton.
Qed.

Lemma out_path_of_nested :
  out_path_of pelican root in_filename name = inr (out_dir pelican name dirs).
Proof.
  destruct reldir_facts as (R1 & R2 & R3).
  pose proof (component_slash_free _ Hname) as Hn.
  pose proof (component_nonempty _ Hname) as Hne.
  unfold out_path_of, out_dir. fold base keep tree reldir.
  destruct (truthy keep); [|done]. destruct (truthy tree).
  - rewrite relpath_in_filename.
    rewrite dirname_file; [|done|done|by apply component_slash_free].
    unfold path.join. cbn [fold_left].
    destruct (dir_path_inv _ Hbase) as [B1 B2].
    rewrite (join_step_plain base name); [|done|done|by apply startswith_slash_false].
    rewrite join_step_plain; [by rewrite !sapp_assoc | by destruct base | | done].
    change (base ++ "/" ++ name) with (base ++ ("/" ++ name)).
    rewrite <- sapp_assoc, endswith_char_app by done. by apply endswith_absent.
  - rewrite join_one; [done | done | by apply startswith_slash_false].
Qed.

Lemma out_dir_path : truthy keep = true -> dir_path (out_dir pelican name dirs) = true.
Proof.
  intros Hk. unfold out_dir. fold base keep tree reldir. rewrite Hk.
  destruct reldir_facts as (R1 & R2 & R3).
  pose proof (component_slash_free _ Hname) as Hn.
  pose proof (component_nonempty _ Hname) as Hne.
  assert (dir_path (base ++ "/" ++ name) = true) as Hbn.
  { apply dir_path_extend; [done | done | by apply endswith_absent]. }
  destruct (truthy tree); [|done].
  replace (base ++ "/" ++ name ++ "/" ++ reldir)
    with ((base ++ "/" ++ name) ++ "/" ++ reldir) by (by rewrite !sapp_assoc).
  by apply dir_path_extend.
Qed.

Lemma written_dir_nested :
  path.dirname (target_filename (mkResizer name spec root) in_filename
                                  (out_dir pelican name dirs) keep)
  = written_dir pelican name dirs.
Proof.
  destruct reldir_facts as (R1 & R2 & R3).
  pose proof (component_slash_free _ Hfile) as Hf.
  pose proof (component_slash_free _ Hname) as Hn.
  unfold target_filename, written_dir. fold base keep reldir.
  destruct (truthy keep) eqn:Hk.
  - pose proof (out_dir_path Hk) as Hd.
    rewrite in_filename_eq.
    replace (root ++ "/" ++ reldir ++ "/" ++ filename)
      with ((root ++ "/" ++ reldir) ++ "/" ++ filename)
      by (by rewrite !sapp_assoc).
    rewrite basename_file by done.
    rewrite join_one by (done || by apply startswith_slash_false).
    destruct (dir_path_inv _ Hd) as [D1 D2]. by apply dirname_file.
  - unfold out_dir. fold base keep tree reldir. rewrite Hk. rewrite in_filename_eq.
    rewrite get_thumbnail_name_under_root, suffixed_file by done.
    rewrite join_one; [|done|by rewrite startswith_app_nonempty].
    replace (base ++ "/" ++ reldir ++ "/" ++ suffixed name filename)
      with ((base ++ "/" ++ reldir) ++ "/" ++ suffixed name filename)
      by (by rewrite !sapp_assoc).
    pose proof (dir_path_extend base reldir Hbase R1 R3) as Hd.
    destruct (dir_path_inv _ Hd) as [D1 D2].
    rewrite dirname_file; [done | done | done |].
    rewrite suffixed_contains, Hf. simpl. by rewrite Hn.
Qed.

End nested_file.

(** C5, as the code has it.  For a source file in a subdirectory [reldir] of
    the image root, [get_out_path] returns the directory of the table:
    [<thumbnail_root>] without keep_filename, [<thumbnail_root>/<name>] with
    keep_filename only, [<thumbnail_root>/<name>/<reldir>] with keep_filename
    and keep_tree.  The directory the thumbnail file is written in is that
    directory when keep_filename is set; without keep_filename it is
    [<thumbnail_root>/<reldir>], since the thumbnail name carries the relative
    directory: the thumbnails of nested files are not in one flat directory. *)
Theorem C5_output_directory {pil : PIL} {host : Host} (pelican : Pelican)
    (name spec filename : string) (rc dirs : list string) (w : world) :
  let root := _image_path pelican in
  let base :=
    path.join (OUTPUT_PATH (settings pelican))
              [default DEFAULT_THUMBNAIL_DIR (THUMBNAIL_DIR (settings pelican))] in
  let reldir := str.join "/" dirs in
  let in_filename := path.join (root ++ "/" ++ reldir) [filename] in
  let keep := THUMBNAIL_KEEP_NAME (settings pelican) in
  let tree := THUMBNAIL_KEEP_TREE (settings pelican) in
  let self := mkResizer name spec root in
  root = rooted rc ->
  rc <> [] /\ Forall (fun c => component c = true) rc ->
  dirs <> [] /\ Forall (fun c => component c = true) dirs ->
  component filename = true ->
  component name = true ->
  dir_path base = true ->
  exists out written,
    get_out_path pelican root in_filename name w
    = (inr out, logged w (processing in_filename name))
    /\ out = (if truthy keep
              then if truthy tree then base ++ "/" ++ name ++ "/" ++ reldir
                   else base ++ "/" ++ name
              else base)
    /\ written = (if truthy keep then out else base ++ "/" ++ reldir)
    /\ path.dirname (target_filename self in_filename out keep) = written
    /\ forall w0 r w',
         resize_file_to self in_filename out keep w0 = (r, w') ->
         exists evs,
           trace w' = (trace w0 ++ evs)%list
           /\ forall p, EvSave p ∈ evs -> path.dirname p = written.
Proof.
  intros root base reldir in_filename keep tree self Hroot Hrc Hdirs Hfile Hname Hbase.
  exists (out_dir pelican name dirs), (written_dir pelican name dirs).
  assert (path.dirname (target_filename self in_filename
                                        (out_dir pelican name dirs) keep)
          = written_dir pelican name dirs) as Hw
    by (eapply written_dir_nested; eassumption).
  split_and!.
  - rewrite get_out_path_eq. f_equal.
    eapply out_path_of_nested; eassumption.
  - reflexivity.
  - reflexivity.
  - exact Hw.
  - intros w0 r w' Hrun.
    destruct (resize_file_to_saves _ _ _ _ _ _ _ Hrun) as (evs & Htr & Hs).
    exists evs. split; [done|]. intros p Hp. rewrite (Hs p Hp). exact Hw.
Qed.

Section path_witnesses.
#[local] Existing Instance demo.demo_pil.
#[local] Existing Instance demo.demo_host.

Lemma C5_output_directory_witness :
  path.dirname
    (target_filename demo_batch.thumb "/site/content/pictures/sub/img.jpg"
                     "/site/output/thumbnails" None)
  = "/site/output/thumbnails/sub"
  /\ path.dirname
       (target_filename demo_batch.thumb "/site/content/pictures/sub/img.jpg"
                        "/site/output/thumbnails/thumb/sub" (Some true))
     = "/site/output/thumbnails/thumb/sub".
Proof.
  split.
  - destruct (C5_output_directory demo.demo_pelican "thumb" "100x100" "img.jpg"
                ["site"; "content"; "pictures"] ["sub"] demo.demo_world)
      as (out & written & _ & -> & -> & E & _).
    + reflexivity.
    + split; [done|]. repeat constructor.
    + split; [done|]. repeat constructor.
    + reflexivity.
    + reflexivity.
    + reflexivity.
    + exact E.
  - destruct (C5_output_directory demo_tree.pelican_tree "thumb" "100x100"
                "img.jpg" ["site"; "content"; "pictures"] ["sub"] demo.demo_world)
      as (out & written & _ & -> & -> & E & _).
    + reflexivity.
    + split; [done|]. repeat constructor.
    + split; [done|]. repeat constructor.
    + reflexivity.
    + reflexivity.
    + reflexivity.
    + exact E.
Defined.

(** C5 as stated fails: without keep_filename the thumbnail of the nested
    file [sub/img.jpg] is saved in [<thumbnail_root>/sub], not in
    [<thumbnail_root>]. *)
Lemma C5_counterexample :
  truthy (THUMBNAIL_KEEP_NAME (settings demo.demo_pelican)) = false
  /\ EvSave "/site/output/thumbnails/sub/img_thumb.jpg"
     ∈ trace (resize_thumbnails demo.demo_pelican demo.demo_world).2
  /\ path.dirname "/site/output/thumbnails/sub/img_thumb.jpg"
     <> path.join (OUTPUT_PATH (settings demo.demo_pelican))
          [default DEFAULT_THUMBNAIL_DIR
                   (THUMBNAIL_DIR (settings demo.demo_pelican))].
Proof.
  split; [reflexivity|]. split.
  - apply list_elem_of_In. vm_compute. tauto.
  - vm_compute. discriminate.
Qed.

End path_witnesses.

(** ** Further properties: the image root and the resize specification *)

Section more_resize_facts.
Context {pil : PIL} {host : Host}.

Lemma rstrip_char_no_trailing c s :
  str.endswith_char (str.rstrip_char c s) c = false.
Proof.
  unfold str.rstrip_char. induction s as [|a s IH]; [done|].
  cbn [str.rstrip_by]. destruct (str.rstrip_by _ s) as [|b r] eqn:E.
  - destruct (str.eqb_ascii a c) eqn:Ea; simpl; [done | exact Ea].
  - exact IH.
Qed.

Lemma rstrip_char_suffix c s :
  exists t, s = str.rstrip_char c s ++ t /\ str.all_char c t = true.
Proof.
  unfold str.rstrip_char. induction s as [|a s IH]; [by exists ""|].
  destruct IH as (t & Hs & Ht). cbn [str.rstrip_by].
  destruct (str.rstrip_by _ s) as [|b r] eqn:E.
  - simpl in Hs. destruct (str.eqb_ascii a c) eqn:Ea.
    + exists (String a t). split; [by rewrite <- Hs|]. simpl. by rewrite Ea.
    + exists t. split; [simpl; by rewrite <- Hs | done].
  - exists t. split; [|done]. simpl. f_equal. exact Hs.
Qed.

Lemma Lang_star_digits s : Lang (re.RStar re.CDigit) s -> all_digits s = true.
Proof.
  intros H. remember (re.RStar re.CDigit) as r eqn:Er.
  induction H; inversion Er; subst; simpl; [done|].
  simpl in H. rewrite H. by apply IHLang.
Qed.

Lemma Lang_dim_token m : Lang dim m -> token m = true.
Proof.
  unfold dim, token. intros H. inversion H as [| | | | | |? ? ? H1|? ? ? H1|]; subst.
  - inversion H1; subst. apply orb_true_intro. left.
    unfold numeric. simpl. simpl in *.
    rewrite H2. by apply Lang_star_digits.
  - inversion H1 as [|? ? Hc| | | | | | |]; subst. simpl in Hc.
    apply eqb_ascii_true in Hc as ->. reflexivity.
Qed.

Lemma star_groups k s x : x ∈ re.star k s -> re.groups x = [].
Proof.
  revert x. induction s as [|a s IH]; intros x Hx; simpl in Hx.
  - by apply list_elem_of_singleton in Hx as ->.
  - destruct (re.in_class k a).
    + apply elem_of_app in Hx as [Hx|Hx].
      * apply list_elem_of_In, in_map_iff in Hx as (y & <- & Hy).
        apply list_elem_of_In in Hy. simpl. by apply IH.
      * by apply list_elem_of_singleton in Hx as ->.
    + by apply list_elem_of_singleton in Hx as ->.
Qed.

Lemma run_dim_result s x :
  x ∈ re.run dim s -> re.groups x = [] /\ token (re.matched x) = true.
Proof.
  intros Hx. split; [|by apply Lang_dim_token, (run_sound dim s x)].
  unfold dim in Hx. cbn [re.run] in Hx. apply elem_of_app in Hx as [Hx|Hx].
  - destruct s as [|a s]; [by apply elem_of_nil in Hx|].
    destruct (re.in_class re.CDigit a); [|by apply elem_of_nil in Hx].
    apply list_elem_of_In, in_map_iff in Hx as (y & <- & Hy).
    apply list_elem_of_In in Hy. simpl. by eapply star_groups.
  - destruct s as [|a s]; [by apply elem_of_nil in Hx|].
    destruct (re.in_class _ a); [|by apply elem_of_nil in Hx].
    by apply list_elem_of_singleton in Hx as ->.
Qed.

(** Every match of [REGEX] captures both groups, each a dimension token. *)
Lemma run_REGEX_groups s x :
  x ∈ re.run REGEX s ->
  exists a b, token a = true /\ token b = true
              /\ re.group x 1 = Some a /\ re.group x 2 = Some b.
Proof.
  rewrite REGEX_eq. cbn [re.run].
  intros Hx. apply list_elem_of_bind in Hx as (g1 & Hx & Hg1).
  apply list_elem_of_bind in Hx as (y & Hx & Hy).
  apply list_elem_of_singleton in Hx as ->.
  apply list_elem_of_In, in_map_iff in Hg1 as (d1 & <- & Hd1).
  apply list_elem_of_In, run_dim_result in Hd1 as [G1 T1].
  apply list_elem_of_bind in Hy as (cx & Hy & Hcx).
  apply list_elem_of_bind in Hy as (g2 & Hy & Hg2).
  apply list_elem_of_singleton in Hy as ->.
  apply list_elem_of_In, in_map_iff in Hg2 as (d2 & <- & Hd2).
  apply list_elem_of_In, run_dim_result in Hd2 as [G2 T2].
  assert (re.groups cx = []) as Gx.
  { cbn [re.rest] in Hcx. destruct (re.rest d1) as [|c r];
      [by apply elem_of_nil in Hcx|].
    destruct (re.in_class _ c); [|by apply elem_of_nil in Hcx].
    by apply list_elem_of_singleton in Hcx as ->. }
  exists (re.matched d1), (re.matched d2).
  split; [done|]. split; [done|].
  unfold re.group. cbn [re.groups]. rewrite G1, G2, Gx. split; reflexivity.
Qed.

Lemma search_in_run r s x :
  re.search r s = Some x -> exists t, x ∈ re.run r t.
Proof.
  induction s as [|a s IH]; cbn [re.search]; unfold re.match_.
  - destruct (re.run r "") as [|y l] eqn:E; [done|].
    intros [= <-]. exists "". rewrite E. apply list_elem_of_here.
  - destruct (re.run r (String a s)) as [|y l] eqn:E; [exact IH|].
    intros [= <-]. exists (String a s). rewrite E. apply list_elem_of_here.
Qed.

Lemma int_token a :
  token a = true -> a = "?" \/ int (Some a) = inr (decimal a).
Proof.
  intros [H|H]%orb_prop; [right; by apply int_numeric|].
  left. by apply String.eqb_eq.
Qed.

Lemma resize_locals_cases self image :
  (exists w h, resize_locals self image
               = inr (Locals exact_resize (Some w) (Some h)))
  \/ (exists w h, resize_locals self image
                  = inr (Locals aspect_resize (Some w) (Some h)))
  \/ resize_locals self image = inl ValueError
  \/ resize_locals self image = inl AttributeError.
Proof.
  unfold resize_locals. destruct (str.contains_char "x" (_spec self)); cbn [negb].
  - destruct (re.search REGEX (_spec self)) as [m|] eqn:Es; [|by repeat right].
    destruct (search_in_run _ _ _ Es) as [t Ht].
    destruct (run_REGEX_groups _ _ Ht) as (a & b & Ta & Tb & -> & ->).
    destruct (int_token a Ta) as [->|Ia], (int_token b Tb) as [->|Ib].
    + right. right. left. reflexivity.
    + right. left. rewrite bool_decide_eq_true_2 by done. cbv zeta.
      rewrite Ib. by eexists _, _.
    + right. left.
      destruct (decide (a = "?")) as [->|Hne]; [by vm_compute in Ia|].
      rewrite bool_decide_eq_false_2 by congruence.
      rewrite bool_decide_eq_true_2 by done. cbv zeta. rewrite Ia.
      by eexists _, _.
    + destruct (decide (a = "?")) as [->|Ha]; [by vm_compute in Ia|].
      * rewrite (bool_decide_eq_false_2 (Some a = Some "?")) by congruence.
        destruct (decide (b = "?")) as [->|Hb].
        -- right. left. rewrite bool_decide_eq_true_2 by done. cbv zeta.
           rewrite Ia. by eexists _, _.
        -- left. rewrite bool_decide_eq_false_2 by congruence. cbv zeta.
           rewrite Ia, Ib. by eexists _, _.
  - unfold int. destruct (int_literal (_spec self)); [|by right; right; left].
    left. by eexists _, _.
Qed.

Lemma search_REGEX_tail a b t :
  token a = true -> token b = true -> stops t = true ->
  exists m, re.search REGEX (a ++ "x" ++ b ++ t) = Some m
            /\ re.group m 1 = Some a /\ re.group m 2 = Some b.
Proof.
  intros Ha Hb Ht.
  destruct (run_dim_token a (String "x" (b ++ t)) Ha eq_refl) as [l1 H1].
  destruct (run_dim_token b t Hb Ht) as [l2 H2].
  destruct (run_group_head 1 _ _ _ _ H1) as [l1' G1].
  destruct (run_group_head 2 _ _ _ _ H2) as [l2' G2].
  assert (re.run (re.RClass (re.CChar "x")) (String "x" (b ++ t))
          = [re.Result "x" [] (b ++ t)]) as Hx by reflexivity.
  destruct (run_seq_head _ _ _ _ _ _ _ Hx G2) as [l3 G3].
  destruct (run_seq_head _ _ _ _ _ _ _ G1 G3) as [l Hl].
  rewrite <- REGEX_eq in Hl.
  eexists. split; [|split].
  - change ("x" ++ b ++ t) with (String "x" (b ++ t)).
    apply search_at_start. unfold re.match_. by rewrite Hl.
  - reflexivity.
  - reflexivity.
Qed.

Lemma int_literal_negative n :
  numeric n = true -> int_literal ("-" ++ n) = Some (- decimal n).
Proof.
  intros H. apply andb_prop in H as H'. destruct H' as [Hne Hd].
  unfold int_literal. change ("-" ++ n) with (String "-" n).
  cbn [str.lstrip_by]. change (is_space "-") with false. cbv iota.
  cbn [str.rstrip_by]. rewrite (rstrip_digits n Hd).
  destruct n as [|a n]; [discriminate|]. cbv iota.
  change (Z.opp <$> int_digits 0 false (String a n) = Some (- decimal (String a n))).
  rewrite int_digits_all; [done | done | by left].
Qed.

End more_resize_facts.

Section more_resize_properties.
Context {pil : PIL} {host : Host}.

(** X1 ([_image_path]).  The image root never ends with a slash, whatever
    [PATH] and [IMAGE_PATH] are, and differs from the joined path only by
    the slashes that [rstrip] removed from its end. *)
Theorem image_path_has_no_trailing_slash pelican :
  str.endswith_char (_image_path pelican) "/" = false
  /\ exists t,
       path.join (PATH (settings pelican))
                 [default DEFAULT_IMAGE_DIR (IMAGE_PATH (settings pelican))]
       = _image_path pelican ++ t
       /\ str.all_char "/" t = true.
Proof.
  split; [apply rstrip_char_no_trailing | apply rstrip_char_suffix].
Qed.

(** X2 ([Resizer.resize]).  No spec ever selects [_null_resize]: a call of
    [resize] either logs one debug line and hands the image to
    [_exact_resize] or [_aspect_resize] with both targets bound, or raises
    [ValueError] or [AttributeError] before anything is logged. *)
Theorem resize_never_uses_null_resize self image w :
  (exists f tw th,
     f <> null_resize
     /\ resize self image w
        = (call f tw th image, logged w ("Using resizer " ++ __name__ f)))
  \/ resize self image w = (inl ValueError, w)
  \/ resize self image w = (inl AttributeError, w).
Proof.
  destruct (resize_locals_cases self image)
    as [(tw & th & H)|[(tw & th & H)|[H|H]]].
  - left. exists exact_resize, tw, th. split; [done|]. by apply resize_ok.
  - left. exists aspect_resize, tw, th. split; [done|]. by apply resize_ok.
  - right. left. by apply resize_err.
  - right. right. by apply resize_err.
Qed.

(** X3 ([Resizer.resize]).  [REGEX] is applied with [search], so text after
    a well-formed [WxH] that does not start with a digit is ignored: the
    spec is resized exactly to [W] by [H] as if the text were absent. *)
Theorem resize_ignores_trailing_text name root image W H t w :
  numeric W = true -> numeric H = true -> stops t = true ->
  resize (mkResizer name (W ++ "x" ++ H ++ t) root) image w
  = (_exact_resize (decimal W) (decimal H) image,
     logged w "Using resizer _exact_resize").
Proof.
  intros HW HH Ht.
  destruct (search_REGEX_tail W H t) as (m & Hm & G1 & G2);
    [by unfold token; rewrite HW | by unfold token; rewrite HH | done |].
  apply (resize_ok _ _ exact_resize).
  unfold resize_locals. cbn [_spec]. rewrite contains_x, Hm, G1, G2. cbn [negb].
  rewrite !bool_decide_eq_false_2
    by (intros [= E]; first [by apply (numeric_not_q W HW)
                            | by apply (numeric_not_q H HH)]).
  cbv zeta. by rewrite (int_numeric W HW), (int_numeric H HH).
Qed.

(** X4 ([Resizer.resize]).  A spec without an [x] goes through [int], which
    accepts a sign: a minus sign followed by digits is not rejected, and the
    negative number is passed to [_exact_resize] as both width and height. *)
Theorem resize_accepts_negative_size name root image n w :
  numeric n = true ->
  resize (mkResizer name ("-" ++ n) root) image w
  = (_exact_resize (- decimal n) (- decimal n) image,
     logged w "Using resizer _exact_resize").
Proof.
  intros Hn. apply (resize_ok _ _ exact_resize).
  unfold resize_locals. cbn [_spec].
  assert (str.contains_char "x" ("-" ++ n) = false) as ->.
  { rewrite contains_char_app. apply andb_prop in Hn as [_ Hd].
    by rewrite (digits_no_x n Hd). }
  cbn [negb]. unfold int. by rewrite (int_literal_negative n Hn).
Qed.

End more_resize_properties.

Lemma resize_ignores_trailing_text_witness :
  numeric "300" = true /\ numeric "200" = true /\ stops "px" = true
  /\ resize (mkResizer "thumb" "300x200px" "/pics")
            ((400, 300) : @Image demo.demo_pil) demo.demo_world
     = (inr (300, 200), logged demo.demo_world "Using resizer _exact_resize").
Proof.
  split; [reflexivity|]. split; [reflexivity|]. split; [reflexivity|].
  exact (@resize_ignores_trailing_text demo.demo_pil "thumb" "/pics"
           (400, 300) "300" "200" "px" demo.demo_world eq_refl eq_refl eq_refl).
Defined.

Lemma resize_accepts_negative_size_witness :
  numeric "5" = true
  /\ resize (mkResizer "thumb" "-5" "/pics")
            ((400, 300) : @Image demo.demo_pil) demo.demo_world
     = (@_exact_resize demo.demo_pil (-5) (-5) (400, 300),
        logged demo.demo_world "Using resizer _exact_resize").
Proof.
  split; [reflexivity|].
  exact (@resize_accepts_negative_size demo.demo_pil "thumb" "/pics"
           (400, 300) "5" demo.demo_world eq_refl).
Defined.

(** ** Further properties: thumbnail names *)

Section more_naming_facts.

Lemma sapp_inv_l (c a b : string) : c ++ a = c ++ b -> a = b.
Proof. induction c as [|x c IH]; simpl; [done|]. intros [= H]. by apply IH. Qed.

Lemma sapp_inv_r (a b c : string) : a ++ c = b ++ c -> a = b.
Proof.
  revert b. induction a as [|x a IH]; intros [|y b] H; simpl in H.
  - done.
  - apply (f_equal String.length) in H. simpl in H. rewrite slength_app in H. lia.
  - apply (f_equal String.length) in H. simpl in H. rewrite slength_app in H. lia.
  - injection H as -> H. f_equal. by apply IH.
Qed.

Lemma suffixed_inj_name n1 n2 s : suffixed n1 s = suffixed n2 s -> n1 = n2.
Proof.
  unfold suffixed. intros H. apply sapp_inv_l in H.
  change ("_" ++ ?a) with (String "_" a) in H. injection H as H.
  by apply sapp_inv_r in H.
Qed.

Lemma suffixed_starts n1 n2 s :
  str.startswith (suffixed n1 s) "/" = str.startswith (suffixed n2 s) "/".
Proof. unfold suffixed. by destruct (path.splitext s).1. Qed.

Lemma join_step_inj acc b1 b2 :
  str.startswith b1 "/" = str.startswith b2 "/" ->
  path.join_step acc b1 = path.join_step acc b2 -> b1 = b2.
Proof.
  unfold path.join_step. intros <-. destruct (str.startswith b1 "/"); [done|].
  destruct (_ || _); intros H.
  - by apply sapp_inv_l in H.
  - rewrite <- !sapp_assoc in H. by apply sapp_inv_l in H.
Qed.

Lemma rfind_split c s :
  0 <= str.rfind c s ->
  exists a e, s = a ++ String c e /\ str.contains_char c e = false
              /\ Z.of_nat (String.length a) = str.rfind c s.
Proof.
  induction s as [|x s IH]; simpl; [lia|].
  pose proof (rfind_bounds c s) as Hb.
  destruct (0 <=? str.rfind c s) eqn:E.
  - apply Z.leb_le in E. destruct (IH E) as (a & e & -> & He & Hl). intros _.
    exists (String x a), e. split; [done|]. split; [done|]. simpl. lia.
  - apply Z.leb_gt in E. destruct (str.eqb_ascii x c) eqn:Ex; [|lia]. intros _.
    apply eqb_ascii_true in Ex as ->. exists "", s.
    split; [done|]. split; [|done]. apply rfind_absent_inv. lia.
Qed.

Lemma rfind_app_before c a f :
  str.rfind c (a ++ f) < Z.of_nat (String.length a) ->
  str.contains_char c f = false.
Proof.
  intros H. destruct (str.contains_char c f) eqn:E; [|done].
  pose proof (rfind_bounds c f) as Hb.
  destruct (decide (0 <= str.rfind c f)) as [Hf|Hf].
  - rewrite (rfind_app_found c a f Hf) in H. lia.
  - rewrite rfind_absent_inv in E; [done | lia].
Qed.

Lemma drop_app_le k (a b : string) :
  (k <= String.length a)%nat -> str.drop k (a ++ b) = str.drop k a ++ b.
Proof.
  revert a. induction k as [|k IH]; intros [|x a] H; simpl in *;
    [by destruct b | done | lia | apply IH; lia].
Qed.

Lemma drop_length k (a : string) :
  String.length (str.drop k a) = (String.length a - k)%nat.
Proof. revert a. induction k as [|k IH]; intros [|x a]; simpl; auto with lia. Qed.

Lemma skip_dots_app_false a t n :
  path.skip_dots a n = false -> path.skip_dots (a ++ t) n = false.
Proof.
  revert a. induction n as [|n IH]; intros a; [by destruct a, t|].
  destruct a as [|x a]; simpl; [done|].
  destruct (str.eqb_ascii x "."); [apply IH | done].
Qed.

Lemma skip_dots_underscore b y m :
  path.skip_dots (b ++ String "_" y) (String.length b + S m) = true.
Proof. induction b as [|x b IH]; simpl; [done|]. by destruct (str.eqb_ascii x "."). Qed.

End more_naming_facts.

Section more_naming_properties.
Context {pil : PIL} {host : Host}.

(** The suffix goes in front of the extension and the extension stays the
    extension, when the suffix holds no dot and no slash. *)
Lemma splitext_suffixed name s :
  str.contains_char "." name = false -> str.contains_char "/" name = false ->
  path.splitext (suffixed name s)
  = ((path.splitext s).1 ++ "_" ++ name, (path.splitext s).2).
Proof.
  intros Hdot Hsep.
  assert (forall c, c = "."%char \/ c = "/"%char ->
                    str.contains_char c ("_" ++ name) = false) as Ht.
  { intros c [-> | ->]; simpl; by rewrite ?Hdot, ?Hsep. }
  pose proof (rfind_bounds "/" s) as Bs. pose proof (rfind_bounds "." s) as Bd.
  unfold suffixed.
  destruct (path.splitext s) as [stem ext] eqn:E. cbn [fst snd].
  unfold path.splitext, path.sep in E.
  destruct (str.rfind "/" s <? str.rfind "." s) eqn:Elt; cbn [andb] in E.
  - apply Z.ltb_lt in Elt.
    destruct (path.skip_dots _ _) eqn:Esk.
    + injection E as <- <-.
      destruct (rfind_split "." s) as (a & e & -> & He & Hl); [lia|].
      rewrite <- Hl in *. rewrite Nat2Z.id.
      rewrite stake_app_length, sdrop_app_length.
      assert (str.contains_char "/" (String "." e) = false) as Hse
        by (apply (rfind_app_before "/" a); lia).
      rewrite (rfind_app_absent "/" a _ Hse) in *.
      replace (a ++ "_" ++ name ++ String "." e)
        with ((a ++ "_" ++ name) ++ String "." e) by (by rewrite !sapp_assoc).
      unfold path.splitext, path.sep.
      rewrite (rfind_app_absent "/" _ _ Hse).
      rewrite (rfind_app_absent "/" a _ (Ht _ (or_intror eq_refl))).
      rewrite (rfind_app_found "." (a ++ "_" ++ name) (String "." e))
        by (simpl; by rewrite (rfind_absent "." e He)).
      replace (str.rfind "." (String "." e)) with 0
        by (simpl; by rewrite (rfind_absent "." e He)).
      rewrite Z.add_0_r, Nat2Z.id, stake_app_length, sdrop_app_length.
      pose proof (rfind_bounds "/" a) as Ba.
      replace (str.rfind "/" a <? Z.of_nat (String.length (a ++ "_" ++ name)))
        with true by (symmetry; apply Z.ltb_lt; rewrite slength_app; lia).
      cbn [andb].
      set (k := Z.to_nat (str.rfind "/" a + 1)).
      assert (k <= String.length a)%nat as Hk by (unfold k; lia).
      replace ((a ++ "_" ++ name) ++ String "." e)
        with (a ++ String "_" (name ++ String "." e))
        by (first [by rewrite sapp_assoc | by rewrite <- sapp_assoc]).
      rewrite drop_app_le by done.
      replace (Z.to_nat (Z.of_nat (String.length (a ++ "_" ++ name))
                         - (str.rfind "/" a + 1)))
        with (String.length (str.drop k a) + S (String.length name))%nat
        by (rewrite drop_length, slength_app; simpl; unfold k; lia).
      by rewrite skip_dots_underscore.
    + injection E as <- <-. rewrite sapp_nil_r. unfold path.splitext, path.sep.
      rewrite !(rfind_app_absent _ s) by (apply Ht; auto).
      replace (str.rfind "/" s <? str.rfind "." s) with true
        by (symmetry; by apply Z.ltb_lt).
      cbn [andb]. rewrite drop_app_le by lia.
      by rewrite (skip_dots_app_false _ _ _ Esk).
  - injection E as <- <-. rewrite sapp_nil_r. unfold path.splitext, path.sep.
    rewrite !(rfind_app_absent _ s) by (apply Ht; auto).
    by rewrite Elt.
Qed.

(** X5 ([Resizer.get_thumbnail_name], [Resizer.resize_file_to]).  For one
    source file, two resizers of the same root with different names get
    different thumbnail names, and, when the file name is not kept,
    different target files in the same output directory. *)
Theorem thumbnail_names_differ_by_resizer n1 s1 n2 s2 root p out keep :
  n1 <> n2 -> truthy keep = false ->
  get_thumbnail_name (mkResizer n1 s1 root) p
  <> get_thumbnail_name (mkResizer n2 s2 root) p
  /\ target_filename (mkResizer n1 s1 root) p out keep
     <> target_filename (mkResizer n2 s2 root) p out keep.
Proof.
  intros Hn Hk. rewrite !get_thumbnail_name_eq. cbn [_name _root].
  assert (forall s, suffixed n1 s <> suffixed n2 s) as Hs
    by (intros s E; by apply suffixed_inj_name in E).
  split; [apply Hs|].
  unfold target_filename. rewrite Hk, !get_thumbnail_name_eq. cbn [_name _root].
  unfold path.join. cbn [fold_left]. intros E.
  apply join_step_inj in E; [by apply Hs in E | apply suffixed_starts].
Qed.

(** X6 ([Resizer.get_thumbnail_name]).  The root is cut off as text, by
    [commonprefix]: any path that begins with the root's characters loses
    them and at most one following slash, so a sibling directory whose name
    extends the root's name is named as if it lay under the root. *)
Theorem get_thumbnail_name_cuts_root_text name spec root rest :
  get_thumbnail_name (mkResizer name spec root) (root ++ rest)
  = suffixed name (strip_sep rest).
Proof.
  rewrite get_thumbnail_name_eq. cbn [_name _root].
  by rewrite commonprefix_app, sdrop_app_length.
Qed.

(** X7 ([Resizer.get_thumbnail_name]).  When the resizer's name holds no dot
    and no slash, the thumbnail name of a file under the root splits, with
    [splitext], into the suffixed stem and the extension of the source: the
    thumbnail keeps the source's extension. *)
Theorem thumbnail_name_keeps_extension name spec root rel :
  str.contains_char "." name = false -> str.contains_char "/" name = false ->
  path.splitext (get_thumbnail_name (mkResizer name spec root) (root ++ "/" ++ rel))
  = ((path.splitext rel).1 ++ "_" ++ name, (path.splitext rel).2).
Proof.
  intros Hdot Hsep. rewrite get_thumbnail_name_under_root.
  by apply splitext_suffixed.
Qed.

End more_naming_properties.

Lemma thumbnail_names_differ_by_resizer_witness :
  "thumbnail_wide" <> "thumbnail_tall" /\ truthy None = false
  /\ get_thumbnail_name (mkResizer "thumbnail_wide" "150x?" "/pics") "/pics/a/cat.jpg"
     <> get_thumbnail_name (mkResizer "thumbnail_tall" "?x150" "/pics") "/pics/a/cat.jpg"
  /\ target_filename (mkResizer "thumbnail_wide" "150x?" "/pics") "/pics/a/cat.jpg"
                     "/out/thumbnails" None
     <> target_filename (mkResizer "thumbnail_tall" "?x150" "/pics") "/pics/a/cat.jpg"
                        "/out/thumbnails" None.
Proof.
  split; [discriminate|]. split; [reflexivity|].
  apply (thumbnail_names_differ_by_resizer "thumbnail_wide" "150x?"
           "thumbnail_tall" "?x150" "/pics" "/pics/a/cat.jpg" "/out/thumbnails"
           None); [discriminate | reflexivity].
Defined.

Lemma thumbnail_name_keeps_extension_witness :
  str.contains_char "." "thumb" = false /\ str.contains_char "/" "thumb" = false
  /\ path.splitext (get_thumbnail_name (mkResizer "thumb" "100" "/pics")
                                       "/pics/a/cat.tar.gz")
     = ("a/cat.tar_thumb", ".gz").
Proof.
  split; [reflexivity|]. split; [reflexivity|].
  exact (thumbnail_name_keeps_extension "thumb" "100" "/pics" "a/cat.tar.gz"
           eq_refl eq_refl).
Defined.

(** ** Further properties: writing one thumbnail *)

Section more_file_facts.
Context {pil : PIL} {host : Host}.

(** [resize_file_to] in three stages: the directory, the existence test,
    the [try] statement. *)
Lemma resize_file_to_stages self i o k w :
  resize_file_to self i o k w
  = let filename := target_filename self i o k in
    let d := path.dirname filename in
    if present d w then generate self i filename w
    else if os.makedirs_blocked d (fs w) then (inl IOError, w)
    else generate self i filename (made d w).
Proof.
  rewrite resize_file_to_eq. cbv zeta. unfold generate, os.makedirs, made.
  set (filename := target_filename self i o k).
  destruct (present (path.dirname filename) w).
  - destruct (present filename w) eqn:Hp; [done|].
    apply attempt_eq. by apply present_false.
  - destruct (os.makedirs_blocked _ _); [done|].
    destruct (present filename _) eqn:Hp; [done|].
    apply attempt_eq. by apply present_false.
Qed.

Lemma handled_returns filename e evs :
  (handled filename e evs).1.1 = inr tt ->
  (handled filename e evs).1.2 = (evs ++ [skipped filename])%list.
Proof. unfold handled. by destruct (decide (e = IOError)). Qed.

Lemma handled_raises filename e evs :
  e <> IOError -> handled filename e evs = (inl e, evs, None).
Proof. intros He. unfold handled. by destruct (decide (e = IOError)). Qed.

Lemma attempt_pure_raises self i filename image parent e :
  thumbnail_bytes self image filename = inl e ->
  exists evs, attempt_pure self i filename (Some image) parent
              = handled filename e evs.
Proof.
  unfold thumbnail_bytes, attempt_pure.
  destruct (resize_locals self image) as [e'|l]; [intros [= ->]; by eexists|].
  destruct (targetw l), (targeth l); try (intros [= <-]; by eexists).
  destruct (call _ _ _ _); [intros [= ->]; by eexists|].
  intros ->. by eexists.
Qed.

Lemma attempt_pure_writes self i filename image bytes :
  thumbnail_bytes self image filename = inr bytes ->
  exists f,
    attempt_pure self i filename (Some image) (Some Dir)
    = (inr tt,
       [EvOpen i; using_resizer f; EvSave filename; generated filename],
       Some bytes).
Proof.
  unfold thumbnail_bytes, attempt_pure.
  destruct (resize_locals self image) as [e'|l]; [done|].
  destruct (targetw l), (targeth l); try done.
  destruct (call _ _ _ _); [done|]. intros ->.
  rewrite bool_decide_eq_true_2 by done. rewrite andb_false_r.
  by exists (resizer l).
Qed.

Lemma attempt_pure_returns self i filename src parent :
  (attempt_pure self i filename src parent).1.1 = inr tt ->
  is_Some (attempt_pure self i filename src parent).2
  \/ exists evs, (attempt_pure self i filename src parent).1.2
                 = (evs ++ [skipped filename])%list.
Proof.
  unfold attempt_pure.
  destruct src as [image|]; [|intros H; right; eexists; by apply handled_returns].
  destruct (resize_locals self image) as [e|l];
    [intros H; right; eexists; by apply handled_returns|].
  destruct (targetw l), (targeth l); try done.
  destruct (call _ _ _ _);
    [intros H; right; eexists; by apply handled_returns|].
  destruct (encode _ _); [intros H; right; eexists; by apply handled_returns|].
  destruct (_ && _); [intros H; right; eexists; by apply handled_returns|].
  intros _. left. by eexists.
Qed.

End more_file_facts.

Section more_file_properties.
Context {pil : PIL} {host : Host}.

Lemma generate_files self i filename w :
  fs w ⊆ fs (generate self i filename w).2
  /\ forall p c, fs (generate self i filename w).2 !! p = Some (File c) ->
                 fs w !! p = Some (File c) \/ p = filename.
Proof.
  unfold generate. destruct (present filename w) eqn:Hp; [by auto|].
  apply present_false in Hp. unfold apply_outcome. cbn [snd fs].
  destruct (attempt_pure _ _ _ _ _).2 as [bytes|]; [|by auto].
  split; [by apply insert_subseteq|].
  intros p c [[<- _]|[_ H]]%lookup_insert_Some; auto.
Qed.

Lemma made_files d w :
  os.makedirs_blocked d (fs w) = false ->
  fs w ⊆ fs (made d w) /\ same_files (fs w) (fs (made d w))
  /\ fs (made d w) !! d = Some Dir.
Proof.
  intros Hb. unfold made. cbn [fs]. split_and!.
  - by apply makedirs_mono.
  - by apply makedirs_same_files.
  - apply makedirs_creates.
Qed.

(** X8 ([Resizer.resize_file_to]).  Whatever the outcome of a call, normal
    or exceptional, every file and directory that existed before is still
    there unchanged, and the only regular file the call can have added is
    its own target. *)
Theorem resize_file_to_only_adds_target self i o k w :
  fs w ⊆ fs (resize_file_to self i o k w).2
  /\ forall p c,
       fs (resize_file_to self i o k w).2 !! p = Some (File c) ->
       fs w !! p = Some (File c) \/ p = target_filename self i o k.
Proof.
  rewrite resize_file_to_stages. cbv zeta.
  set (filename := target_filename self i o k).
  destruct (present _ w); [apply generate_files|].
  destruct (os.makedirs_blocked _ _) eqn:Hb; [by auto|].
  destruct (made_files _ w Hb) as (Hsub & Hsame & _).
  destruct (generate_files self i filename (made (path.dirname filename) w))
    as [Hg Hadd].
  split; [by etrans|].
  intros p c [H| ->]%Hadd; [left; by apply Hsame | by right].
Qed.

(** X9 ([resize_thumbnails]).  A batch pass never deletes or changes an
    entry of the file system: whether PIL is missing, the inclusion regex
    is invalid, the pass completes or an exception aborts it, everything
    that existed before is still there unchanged. *)
Theorem resize_thumbnails_keeps_existing_entries pelican w :
  fs w ⊆ fs (resize_thumbnails pelican w).2.
Proof.
  destruct enabled eqn:He; [|by rewrite resize_thumbnails_disabled].
  destruct (make_is_included pelican) as [e|f] eqn:Hf.
  - unfold resize_thumbnails, bind, lift. by rewrite He, Hf.
  - rewrite (resize_thumbnails_jobs pelican f w He Hf).
    destruct (for_ _ _ _) as [r w'] eqn:E.
    apply for_mono in E; [done|]. intros j w1 r1 w1'. apply run_job_mono.
Qed.

(** X10 ([Resizer.resize_file_to]).  When the directory of the target
    cannot be made, because it or a component of it is a regular file or
    the directory path is empty, the [OSError] of [os.makedirs] is raised
    outside the [try] statement: it is not turned into a skip, and nothing
    is written or logged. *)
Theorem resize_file_to_makedirs_failure self i o k w :
  let d := path.dirname (target_filename self i o k) in
  fs w !! d = None -> os.makedirs_blocked d (fs w) = true ->
  resize_file_to self i o k w = (inl IOError, w).
Proof.
  intros d Hd Hb. rewrite resize_file_to_stages. cbv zeta. fold d.
  apply present_false in Hd. by rewrite Hd, Hb.
Qed.

(** X11 ([Resizer.resize_file_to]).  After a normal return the directory of
    the target exists, and either the target exists or the last thing the
    call did was to log that generating it was skipped. *)
Theorem resize_file_to_normal_return self i o k w :
  let filename := target_filename self i o k in
  let w' := (resize_file_to self i o k w).2 in
  (resize_file_to self i o k w).1 = inr tt ->
  present (path.dirname filename) w' = true
  /\ (present filename w' = true
      \/ exists evs, trace w' = (trace w ++ evs ++ [skipped filename])%list).
Proof.
  intros filename w'. unfold w'. clear w'.
  rewrite resize_file_to_stages. cbv zeta. fold filename.
  set (d := path.dirname filename).
  assert (forall w1 pre, present d w1 = true ->
            trace w1 = (trace w ++ pre)%list ->
            (generate self i filename w1).1 = inr tt ->
            present d (generate self i filename w1).2 = true
            /\ (present filename (generate self i filename w1).2 = true
                \/ exists evs, trace (generate self i filename w1).2
                               = (trace w ++ evs ++ [skipped filename])%list))
    as Hstage.
  { intros w1 pre Hd Ht Hr.
    pose proof (generate_files self i filename w1) as [Hsub _].
    split.
    { apply present_true. apply present_true in Hd as [n Hn].
      exists n. by eapply lookup_weaken. }
    revert Hr. unfold generate. destruct (present filename w1) eqn:Hp; [by left|].
    unfold apply_outcome. cbn [fst snd fs trace]. intros Hr.
    destruct (attempt_pure_returns _ _ _ _ _ Hr) as [[b Hb]|[evs Hevs]].
    - left. apply present_true. cbn [fs]. rewrite Hb, lookup_insert_eq. by eexists.
    - right. exists (pre ++ evs)%list. rewrite Hevs, Ht.
      by rewrite <- !app_assoc. }
  destruct (present d w) eqn:Hd.
  - apply (Hstage w []); [done | by rewrite app_nil_r].
  - destruct (os.makedirs_blocked d (fs w)) eqn:Hb; [done|].
    apply (Hstage (made d w) [EvMakedirs d]); [|done].
    apply present_true. destruct (made_files d w Hb) as (_ & _ & ->). by eexists.
Qed.

End more_file_properties.

Section more_file_witnesses.
#[local] Existing Instance demo.demo_pil.
#[local] Existing Instance demo.demo_host.

Lemma resize_file_to_makedirs_failure_witness :
  let w := World (<["/out" := File "not a directory"]> ∅) [] in
  fs w !! "/out/thumbnails" = None
  /\ os.makedirs_blocked "/out/thumbnails" (fs w) = true
  /\ resize_file_to (mkResizer "thumb" "100" "/pics") "/pics/a.jpg"
                    "/out/thumbnails" None w
     = (inl IOError, w).
Proof.
  intros w. split; [vm_compute; reflexivity|]. split; [vm_compute; reflexivity|].
  apply (resize_file_to_makedirs_failure (mkResizer "thumb" "100" "/pics")
           "/pics/a.jpg" "/out/thumbnails" None w);
    vm_compute; reflexivity.
Defined.

Lemma resize_file_to_normal_return_witness :
  let filename := "/site/output/thumbnails/a_thumb.jpg" in
  let r := resize_file_to demo_batch.thumb (demo.pictures ++ "/a.jpg")
                          "/site/output/thumbnails" None demo.demo_world in
  r.1 = inr tt
  /\ present "/site/output/thumbnails" r.2 = true
  /\ (present filename r.2 = true
      \/ exists evs, trace r.2
                     = (trace demo.demo_world ++ evs ++ [skipped filename])%list).
Proof.
  intros filename r. split; [vm_compute; reflexivity|].
  apply (resize_file_to_normal_return demo_batch.thumb (demo.pictures ++ "/a.jpg")
           "/site/output/thumbnails" None demo.demo_world).
  vm_compute. reflexivity.
Defined.

End more_file_witnesses.

(** ** Further properties: a thumbnail that is generated, and one that fails *)

Section more_generate_facts.
Context {pil : PIL} {host : Host}.

Lemma take_length_le n s : (String.length (str.take n s) <= String.length s)%nat.
Proof.
  revert s. induction n as [|n IH]; intros [|a s]; simpl; try lia.
  specialize (IH s). lia.
Qed.

Lemma dirname_length p : (String.length (path.dirname p) <= String.length p)%nat.
Proof.
  unfold path.dirname.
  pose proof (take_length_le (Z.to_nat (str.rfind path.sep p + 1)) p) as Ht.
  destruct (_ && _); [|done].
  destruct (rstrip_char_suffix path.sep
              (str.take (Z.to_nat (str.rfind path.sep p + 1)) p))
    as (t & Hs & _).
  apply (f_equal String.length) in Hs. rewrite slength_app in Hs. lia.
Qed.

Lemma dir_prefixes_length acc s q :
  q ∈ os.dir_prefixes acc s ->
  (String.length q < String.length acc + String.length s)%nat.
Proof.
  revert acc. induction s as [|c r IH]; intros acc; simpl.
  - by intros ?%elem_of_nil.
  - destruct (str.eqb_ascii c path.sep).
    + intros [Hq|Hq]%elem_of_app.
      * destruct (_ || _); [by apply elem_of_nil in Hq|].
        apply list_elem_of_singleton in Hq as ->. lia.
      * apply IH in Hq. rewrite slength_app in Hq. simpl in Hq. lia.
    + intros Hq. apply IH in Hq. rewrite slength_app in Hq. simpl in Hq. lia.
Qed.

(** [os.makedirs] on the directory of a file never creates the file's own
    path as a directory. *)
Lemma target_not_made filename (m : gmap string node) :
  path.dirname filename <> filename ->
  os.mkdir_all (os.dir_prefixes "" (path.dirname filename)
                ++ [path.dirname filename])%list m !! filename
  = m !! filename.
Proof.
  intros Hne. rewrite mkdir_all_lookup. rewrite bool_decide_eq_false_2; [done|].
  intros [Hq|Hq]%elem_of_app.
  - apply dir_prefixes_length in Hq. pose proof (dirname_length filename).
    simpl in Hq. lia.
  - apply list_elem_of_singleton in Hq. done.
Qed.

Lemma source_image_mono (m m' : gmap string node) i image :
  m ⊆ m' -> source_image m i = Some image -> source_image m' i = Some image.
Proof.
  intros Hsub. unfold source_image.
  destruct (m !! i) as [[bytes|]|] eqn:E; try done.
  by rewrite (lookup_weaken _ _ _ _ E Hsub).
Qed.

Lemma generate_writes self i filename w image bytes :
  source_image (fs w) i = Some image ->
  thumbnail_bytes self image filename = inr bytes ->
  fs w !! filename = None ->
  fs w !! path.dirname filename = Some Dir ->
  exists f,
    generate self i filename w
    = (inr tt,
       World (<[filename := File bytes]> (fs w))
             (trace w ++ [EvOpen i; using_resizer f; EvSave filename;
                          generated filename])%list).
Proof.
  intros Hsrc Hb Hf Hd. unfold generate.
  apply present_false in Hf. rewrite Hf, Hsrc, Hd.
  destruct (attempt_pure_writes self i filename image bytes Hb) as [f ->].
  by exists f.
Qed.

Lemma generate_raises self i filename w image e :
  source_image (fs w) i = Some image ->
  thumbnail_bytes self image filename = inl e -> e <> IOError ->
  fs w !! filename = None ->
  exists evs, generate self i filename w
              = (inl e, World (fs w) (trace w ++ evs)%list).
Proof.
  intros Hsrc Hb He Hf. unfold generate.
  apply present_false in Hf. rewrite Hf, Hsrc.
  destruct (attempt_pure_raises self i filename image
              (fs w !! path.dirname filename) e Hb) as [evs ->].
  rewrite (handled_raises _ _ _ He). by exists evs.
Qed.

Lemma for_abort {A} (body : A -> M unit) pre x post w w1 e w2 :
  for_ pre body w = (inr tt, w1) -> body x w1 = (inl e, w2) ->
  for_ (pre ++ x :: post)%list body w = (inl e, w2).
Proof.
  intros Hpre Hx. rewrite for_app. unfold bind at 1. rewrite Hpre.
  cbn [for_]. unfold bind at 1. by rewrite Hx.
Qed.

End more_generate_facts.

Section more_generate_properties.
Context {pil : PIL} {host : Host}.

(** The world in which the second half of [resize_file_to] runs, when the
    directory of the target is there or can be made. *)
Lemma resize_file_to_ready self i o k w :
  let filename := target_filename self i o k in
  let d := path.dirname filename in
  fs w !! filename = None -> d <> filename ->
  (fs w !! d = Some Dir
   \/ (fs w !! d = None /\ os.makedirs_blocked d (fs w) = false)) ->
  exists w1 pre,
    resize_file_to self i o k w = generate self i filename w1
    /\ fs w ⊆ fs w1 /\ same_files (fs w) (fs w1)
    /\ fs w1 !! d = Some Dir /\ fs w1 !! filename = None
    /\ trace w1 = (trace w ++ pre)%list.
Proof.
  intros filename d Hf Hne Hd. rewrite resize_file_to_stages. cbv zeta.
  fold filename. fold d. destruct Hd as [Hd|[Hd Hb]].
  - exists w, []. rewrite (proj2 (present_true d w)) by (by eexists).
    split_and!; try done. by rewrite app_nil_r.
  - exists (made d w), [EvMakedirs d].
    rewrite (proj2 (present_false d w) Hd), Hb.
    destruct (made_files d w Hb) as (Hsub & Hsame & Hdir).
    split_and!; try done. unfold made. cbn [fs].
    by rewrite target_not_made.
Qed.

(** X12 ([Resizer.resize_file_to]).  When the source decodes, resizing and
    encoding succeed, the target does not exist yet and its directory is
    there or can be made, the call returns normally, the target holds the
    encoded thumbnail, every other regular file is as before, and the call
    ends with opening the source, the resizer's debug line, the save and
    the message that the thumbnail was generated. *)
Theorem resize_file_to_generates self i o k w image bytes :
  let filename := target_filename self i o k in
  let d := path.dirname filename in
  let w' := (resize_file_to self i o k w).2 in
  source_image (fs w) i = Some image ->
  thumbnail_bytes self image filename = inr bytes ->
  fs w !! filename = None -> d <> filename ->
  (fs w !! d = Some Dir
   \/ (fs w !! d = None /\ os.makedirs_blocked d (fs w) = false)) ->
  (resize_file_to self i o k w).1 = inr tt
  /\ fs w' !! filename = Some (File bytes)
  /\ fs w' !! d = Some Dir
  /\ (forall p c, p <> filename ->
        fs w' !! p = Some (File c) <-> fs w !! p = Some (File c))
  /\ exists pre f,
       trace w' = (trace w ++ pre ++ [EvOpen i; using_resizer f;
                                      EvSave filename; generated filename])%list.
Proof.
  intros filename d w' Hsrc Hb Hf Hne Hd. unfold w'. clear w'.
  destruct (resize_file_to_ready self i o k w Hf Hne Hd)
    as (w1 & pre & -> & Hsub & Hsame & Hd1 & Hf1 & Ht).
  fold filename in Hd1, Hf1 |- *. fold d in Hd1.
  destruct (generate_writes self i filename w1 image bytes
              (source_image_mono _ _ _ _ Hsub Hsrc) Hb Hf1 Hd1) as [f ->].
  cbn [fst snd fs trace]. split_and!.
  - done.
  - by rewrite lookup_insert_eq.
  - by rewrite lookup_insert_ne.
  - intros p c Hp. rewrite lookup_insert_ne by done. apply Hsame.
  - exists pre, f. by rewrite Ht, <- app_assoc.
Qed.

(** X13 ([Resizer.resize_file_to], [resize_thumbnails]).  The [try]
    statement catches [IOError] only.  When the source decodes but resizing
    or encoding raises another exception (the [ValueError] of [int], the
    [AttributeError] of a spec [REGEX] does not match, an error of PIL), the
    call raises it and writes no file; in a batch pass the exception ends
    the pass, and the jobs after the failing one are not run. *)
Theorem resize_file_to_other_exception_escapes :
  (forall self i o k w image e,
     let filename := target_filename self i o k in
     let d := path.dirname filename in
     let w' := (resize_file_to self i o k w).2 in
     source_image (fs w) i = Some image ->
     thumbnail_bytes self image filename = inl e -> e <> IOError ->
     fs w !! filename = None -> d <> filename ->
     (fs w !! d = Some Dir
      \/ (fs w !! d = None /\ os.makedirs_blocked d (fs w) = false)) ->
     (resize_file_to self i o k w).1 = inl e
     /\ same_files (fs w) (fs w')
     /\ fs w' !! filename = None)
  /\ (forall pelican f w (pre post : list job) (j : job) w1 e w2,
        let root := _image_path pelican in
        enabled = true ->
        make_is_included pelican = inr f ->
        batch_jobs pelican f = (pre ++ j :: post)%list ->
        for_ pre (run_job pelican root) (logged w "Thumbnailer Started")
        = (inr tt, w1) ->
        run_job pelican root j w1 = (inl e, w2) ->
        resize_thumbnails pelican w = (inl e, w2)).
Proof.
  split.
  - intros self i o k w image e filename d w' Hsrc Hb He Hf Hne Hd.
    unfold w'. clear w'.
    destruct (resize_file_to_ready self i o k w Hf Hne Hd)
      as (w1 & pre & -> & Hsub & Hsame & Hd1 & Hf1 & Ht).
    fold filename in Hf1 |- *.
    destruct (generate_raises self i filename w1 image e
                (source_image_mono _ _ _ _ Hsub Hsrc) Hb He Hf1) as [evs ->].
    cbn [fst snd fs]. by split_and!.
  - intros pelican f w pre post j w1 e w2 root He Hf Hjobs Hpre Hj.
    rewrite (resize_thumbnails_jobs _ _ _ He Hf). fold root. rewrite Hjobs.
    by apply (for_abort _ pre j post _ w1).
Qed.

End more_generate_properties.

Section more_generate_witnesses.
#[local] Existing Instance demo.demo_pil.
#[local] Existing Instance demo.demo_host.

Lemma resize_file_to_generates_witness :
  let filename := "/site/output/thumbnails/a_thumb.jpg" in
  let r := resize_file_to demo_batch.thumb (demo.pictures ++ "/a.jpg")
                          "/site/output/thumbnails" None demo.demo_world in
  source_image (fs demo.demo_world) (demo.pictures ++ "/a.jpg") = Some (400, 300)
  /\ thumbnail_bytes demo_batch.thumb ((400, 300) : Image) filename = inr "IMG"
  /\ fs demo.demo_world !! filename = None
  /\ fs demo.demo_world !! "/site/output/thumbnails" = None
  /\ os.makedirs_blocked "/site/output/thumbnails" (fs demo.demo_world) = false
  /\ r.1 = inr tt
  /\ fs r.2 !! filename = Some (File "IMG")
  /\ fs r.2 !! "/site/output/thumbnails" = Some Dir.
Proof.
  intros filename r.
  assert (fs demo.demo_world !! "/site/output/thumbnails" = None) as Hd
    by (vm_compute; reflexivity).
  assert (os.makedirs_blocked "/site/output/thumbnails" (fs demo.demo_world)
          = false) as Hb by (vm_compute; reflexivity).
  destruct (resize_file_to_generates (pil := demo.demo_pil) demo_batch.thumb
              (demo.pictures ++ "/a.jpg") "/site/output/thumbnails" None
              demo.demo_world (400, 300) "IMG")
    as (H1 & H2 & H3 & _).
  - vm_compute. reflexivity.
  - vm_compute. reflexivity.
  - vm_compute. reflexivity.
  - vm_compute. discriminate.
  - right. by split.
  - split_and!; try (vm_compute; reflexivity); done.
Defined.

Lemma resize_file_to_other_exception_escapes_witness :
  (let filename := "/site/output/thumbnails/a_full.jpg" in
   let r := resize_file_to demo_full.full (demo.pictures ++ "/a.jpg")
                           "/site/output/thumbnails" None demo.demo_world in
   thumbnail_bytes demo_full.full ((400, 300) : Image) filename = inl ValueError
   /\ r.1 = inl ValueError /\ fs r.2 !! filename = None)
  /\ demo_full.job_a :: demo_full.jobs_rest
     = batch_jobs demo_full.pelican_full not_hidden
  /\ resize_thumbnails demo_full.pelican_full demo.demo_world
     = (inl ValueError, demo_full.stopped).
Proof.
  destruct (@resize_file_to_other_exception_escapes demo.demo_pil demo.demo_host)
    as [Ha Hb].
  split; [|split].
  - intros filename r. split; [vm_compute; reflexivity|].
    destruct (Ha demo_full.full (demo.pictures ++ "/a.jpg")
                "/site/output/thumbnails" None demo.demo_world (400, 300)
                ValueError) as (H1 & _ & H3).
    + vm_compute. reflexivity.
    + vm_compute. reflexivity.
    + discriminate.
    + vm_compute. reflexivity.
    + vm_compute. discriminate.
    + right. split; vm_compute; reflexivity.
    + by split.
  - vm_compute. reflexivity.
  - apply (Hb demo_full.pelican_full not_hidden demo.demo_world []
              demo_full.jobs_rest demo_full.job_a
              (logged demo.demo_world "Thumbnailer Started")).
    + reflexivity.
    + reflexivity.
    + vm_compute. reflexivity.
    + reflexivity.
    + vm_compute. reflexivity.
Defined.

End more_generate_witnesses.

(** ** Further properties: the start of a pass, output paths, galleries *)

Section more_gallery_facts.
Context {pil : PIL} {host : Host}.

Lemma relpath_none cwd p start : path.relpath cwd p start = None <-> p = "".
Proof.
  unfold path.relpath. destruct (String.eqb p "") eqn:E.
  - apply String.eqb_eq in E. done.
  - apply String.eqb_neq in E. cbv zeta.
    destruct (_ ++ _)%list; split; intros; done.
Qed.

Lemma only_debug_refl w : only_debug w w.
Proof. split; [done|]. exists []. by rewrite app_nil_r. Qed.

Lemma only_debug_trans w1 w2 w3 :
  only_debug w1 w2 -> only_debug w2 w3 -> only_debug w1 w3.
Proof.
  intros [F1 (e1 & T1 & D1)] [F2 (e2 & T2 & D2)]. split; [congruence|].
  exists (e1 ++ e2)%list. split; [by rewrite T2, T1, app_assoc|].
  by apply Forall_app.
Qed.

Lemma gallery_step_only_debug generator template base_path resizer lines df w :
  only_debug w (gallery_step generator template base_path resizer lines df w).2.
Proof.
  unfold gallery_step, gallery_line.
  destruct (negb _); [|apply only_debug_refl].
  unfold bind, logger.debug, emit, lift, ret.
  assert (only_debug w
            (World (fs w)
               (trace w ++ [EvLog DEBUG ("GALLERY: "
                  ++ gallery_url generator base_path df.1 df.2)])%list)) as H.
  { split; [done|]. eexists. split; [done|]. constructor; [by eexists|done]. }
  by destruct (str_format _ _).
Qed.

Lemma fold_only_debug {A S} (body : S -> A -> M S) (l : list A) :
  (forall acc x w, only_debug w (body acc x w).2) ->
  forall acc w, only_debug w (fold_ l acc body w).2.
Proof.
  intros Hb. induction l as [|x l IH]; intros acc w; cbn [fold_].
  - apply only_debug_refl.
  - unfold bind. pose proof (Hb acc x w) as H.
    destruct (body acc x w) as [[e|acc'] w1]; [done|].
    eapply only_debug_trans; [exact H | apply IH].
Qed.

Lemma fold_app {A S} (body : S -> A -> M S) (l1 l2 : list A) acc w :
  fold_ (l1 ++ l2)%list acc body w
  = match fold_ l1 acc body w with
    | (inr a, w') => fold_ l2 a body w'
    | (inl e, w') => (inl e, w')
    end.
Proof.
  revert acc w. induction l1 as [|x l1 IH]; intros acc w; [done|].
  cbn [app fold_]. unfold bind.
  destruct (body acc x w) as [[e|acc'] w1]; [done | apply IH].
Qed.

(** The two nested loops of [expand_gallery] are one loop over the files
    the gallery shows. *)
Lemma gallery_flat generator template base_path resizer :
  forall walk acc w,
    fold_ walk acc
          (fun lines '(dirpath, _, filenames) =>
             fold_ filenames lines
                   (gallery_line generator template base_path resizer dirpath)) w
    = fold_ (gallery_files walk) acc
            (gallery_step generator template base_path resizer) w.
Proof.
  assert (forall d filenames acc w,
    fold_ filenames acc
          (gallery_line generator template base_path resizer d) w
    = fold_ (map (pair d) (List.filter not_hidden filenames)) acc
            (gallery_step generator template base_path resizer) w) as Hin.
  { intros d. induction filenames as [|f fl IH]; intros acc w; [done|].
    cbn [List.filter fold_]. destruct (not_hidden f) eqn:Hh.
    - cbn [map fold_]. unfold bind. unfold gallery_step at 1. cbn [fst snd].
      destruct (gallery_line _ _ _ _ _ _ _ w) as [[e|a] w1]; [done | apply IH].
    - unfold bind. unfold gallery_line at 1. fold (not_hidden f). rewrite Hh.
      apply IH. }
  induction walk as [|[[d dirs] filenames] walk IH]; intros acc w; [done|].
  assert (gallery_files ((d, dirs, filenames) :: walk)
          = (map (pair d) (List.filter not_hidden filenames)
             ++ gallery_files walk)%list) as ->.
  { unfold gallery_files. cbn [mbind list_bind fst snd]. f_equal. }
  rewrite fold_app. cbn [fold_]. unfold bind. rewrite Hin.
  destruct (fold_ _ acc _ w) as [[e|a] w1]; [done | apply IH].
Qed.

(** A gallery loop that ends normally rendered every file it went over. *)
Lemma gallery_flat_returns generator template base_path resizer :
  forall files acc w out w',
    Forall (fun df => not_hidden df.2 = true) files ->
    fold_ files acc (gallery_step generator template base_path resizer) w
    = (inr out, w') ->
    exists lines,
      Forall2 (rendered generator template base_path resizer) files lines
      /\ out = (acc ++ lines)%list.
Proof.
  induction files as [|df files IH]; intros acc w out w' Hn.
  - intros [= <- _]. exists []. split; [constructor | by rewrite app_nil_r].
  - apply Forall_cons in Hn as [Hh Hn]. cbn [fold_]. unfold bind.
    unfold gallery_step at 1, gallery_line. fold (not_hidden df.2). rewrite Hh.
    unfold bind, logger.debug, emit, lift, ret.
    destruct (str_format _ _) as [e|line] eqn:Hf; [done|].
    intros H. apply IH in H as (lines & HF & ->); [|done].
    exists (line :: lines). split; [by constructor|].
    by rewrite <- app_assoc.
Qed.

Lemma gallery_files_shown walk :
  Forall (fun df => not_hidden df.2 = true) (gallery_files walk).
Proof.
  apply Forall_forall. intros [d f] (dirs & fl & _ & _ & H)%gallery_files_elem.
  unfold not_hidden. cbn [snd]. by rewrite H.
Qed.

(** [expand_gallery] on a metadata whose [gallery] is a string. *)
Lemma expand_gallery_eq generator metadata gallery w :
  metadata !! "gallery" = Some (PyStr gallery) ->
  let base_path := _image_path generator in
  expand_gallery generator metadata w
  = match fold_ (gallery_files (os_walk (path.join base_path [gallery]))) []
            (gallery_step generator
               (default DEFAULT_TEMPLATE (GALLERY_TEMPLATE (settings generator)))
               base_path
               (mkResizer
                  (default DEFAULT_GALLERY_THUMB
                           (GALLERY_THUMBNAIL (settings generator)))
                  "?x?" base_path)) w with
    | (inr lines, w') =>
        (inr (<["gallery_content" := PyStr (str.join nl lines)]> metadata), w')
    | (inl e, w') => (inl e, w')
    end.
Proof.
  intros Hg base_path. unfold expand_gallery. rewrite Hg. cbv zeta.
  unfold Resizer__init__. unfold bind at 1, lift at 1. unfold bind at 1.
  fold base_path. rewrite gallery_flat.
  by destruct (fold_ _ _ _ w) as [[e|lines] w'].
Qed.

End more_gallery_facts.

Section more_gallery_properties.
Context {pil : PIL} {host : Host}.

(** X14 ([resize_thumbnails]).  Without PIL the pass returns at once and
    does nothing, even with an invalid inclusion regex in the settings; with
    PIL, an inclusion regex that [re.compile] rejects makes the pass raise
    that error before anything is logged, walked or written. *)
Theorem resize_thumbnails_stops_at_once :
  (forall pelican w,
     enabled = false -> resize_thumbnails pelican w = (inr tt, w))
  /\ (forall pelican w rx e,
        enabled = true ->
        THUMBNAIL_INCLUDE_REGEX (settings pelican) = Some rx -> rx <> "" ->
        re_compile rx = inl e ->
        resize_thumbnails pelican w = (inl e, w)).
Proof.
  split.
  - intros pelican w He. unfold resize_thumbnails. by rewrite He.
  - intros pelican w rx e He Hrx Hne Hc.
    unfold resize_thumbnails, make_is_included. rewrite He, Hrx. cbn [negb].
    unfold truthy_str. apply String.eqb_neq in Hne. rewrite Hne.
    change (default "" (Some rx)) with rx. cbn [negb]. unfold bind, lift, ebind.
    by rewrite Hc.
Qed.

(** X15 ([get_out_path]).  [get_out_path] always logs its one debug line and
    changes nothing else.  It raises only [ValueError], and exactly when
    both [THUMBNAIL_KEEP_NAME] and [THUMBNAIL_KEEP_TREE] are set and the
    file path is empty, the one input [path.relpath] refuses. *)
Theorem get_out_path_raises_only_on_empty_path
    pelican in_path in_filename name w :
  exists o,
    get_out_path pelican in_path in_filename name w
    = (if truthy (THUMBNAIL_KEEP_NAME (settings pelican))
          && truthy (THUMBNAIL_KEEP_TREE (settings pelican))
          && String.eqb in_filename ""
       then inl ValueError else inr o,
       logged w (processing in_filename name)).
Proof.
  rewrite get_out_path_eq. unfold out_path_of.
  destruct (truthy (THUMBNAIL_KEEP_NAME _)); [|by eexists].
  destruct (truthy (THUMBNAIL_KEEP_TREE _)); [|by eexists].
  cbn [andb].
  destruct (path.relpath getcwd in_filename in_path) as [rel|] eqn:E.
  - destruct (String.eqb in_filename "") eqn:Hn; [|by eexists].
    apply String.eqb_eq in Hn.
    apply (relpath_none getcwd in_filename in_path) in Hn. congruence.
  - apply relpath_none in E as ->. by exists "".
Qed.

(** X16 ([expand_gallery]).  Whatever the metadata and whatever the
    outcome, [expand_gallery] leaves the file system as it is and does
    nothing but write debug lines to the log. *)
Theorem expand_gallery_only_logs generator metadata w :
  only_debug w (expand_gallery generator metadata w).2.
Proof.
  destruct (metadata !! "gallery") as [[|gallery]|] eqn:Hg.
  - unfold expand_gallery. rewrite Hg. apply only_debug_refl.
  - rewrite (expand_gallery_eq _ _ _ _ Hg). cbv zeta.
    match goal with |- context [fold_ ?l ?a ?b w] =>
      pose proof (fold_only_debug b l (gallery_step_only_debug _ _ _ _) a w) as H;
      destruct (fold_ l a b w) as [[e|lines] w'] end; exact H.
  - unfold expand_gallery. rewrite Hg. apply only_debug_refl.
Qed.

(** X17 ([expand_gallery]).  A gallery comes back only if the template
    rendered for every file shown: when [expand_gallery] returns normally,
    [gallery_content] is the rendered lines of all the files, in order,
    joined by newlines; and when [template.format] raises for one of the
    files, [expand_gallery] raises and returns no metadata. *)
Theorem expand_gallery_all_or_nothing generator metadata gallery w :
  let base_path := _image_path generator in
  let template :=
    default DEFAULT_TEMPLATE (GALLERY_TEMPLATE (settings generator)) in
  let resizer :=
    mkResizer (default DEFAULT_GALLERY_THUMB (GALLERY_THUMBNAIL (settings generator)))
              "?x?" base_path in
  let files := gallery_files (os_walk (path.join base_path [gallery])) in
  metadata !! "gallery" = Some (PyStr gallery) ->
  (forall metadata',
     (expand_gallery generator metadata w).1 = inr metadata' ->
     exists lines,
       Forall2 (rendered generator template base_path resizer) files lines
       /\ metadata'
          = <["gallery_content" := PyStr (str.join nl lines)]> metadata)
  /\ (forall df e,
        df ∈ files ->
        str_format template
          [("filename", df.2);
           ("url", gallery_url generator base_path df.1 df.2);
           ("thumbnail", gallery_thumbnail generator resizer df.2)] = inl e ->
        exists e', (expand_gallery generator metadata w).1 = inl e').
Proof.
  intros base_path template resizer files Hg.
  rewrite (expand_gallery_eq _ _ _ _ Hg). cbv zeta.
  fold base_path template resizer files.
  destruct (fold_ files [] _ w) as [[e|lines] w'] eqn:E; cbn [fst].
  - split; [done|]. intros. by exists e.
  - apply gallery_flat_returns in E as (ls & HF & ->);
      [|apply gallery_files_shown].
    split.
    + intros m' [= <-]. by exists ls.
    + intros df e Hdf He. exfalso.
      apply list_elem_of_lookup in Hdf as [n Hn].
      destruct (Forall2_lookup_l _ _ _ _ _ HF Hn) as (line & _ & Hr).
      unfold rendered in Hr. congruence.
Qed.

(** X18 ([expand_gallery]).  A gallery directory that the walk does not
    find, or in which every file is a dot file, is no error: the metadata
    gets an empty [gallery_content] and nothing is logged. *)
Theorem expand_gallery_without_files generator metadata gallery w :
  metadata !! "gallery" = Some (PyStr gallery) ->
  gallery_files (os_walk (path.join (_image_path generator) [gallery])) = [] ->
  expand_gallery generator metadata w
  = (inr (<["gallery_content" := PyStr ""]> metadata), w).
Proof.
  intros Hg Hf. rewrite (expand_gallery_eq _ _ _ _ Hg). cbv zeta.
  by rewrite Hf.
Qed.

End more_gallery_properties.

Lemma resize_thumbnails_stops_at_once_witness :
  (@enabled demo_failing.host_without_pil = false
   /\ @resize_thumbnails demo.demo_pil demo_failing.host_without_pil
        demo_failing.pelican_bad_regex demo.demo_world
      = (inr tt, demo.demo_world))
  /\ (@enabled demo_failing.host_strict = true
      /\ @re_compile demo_failing.host_strict "(" = inl re_error
      /\ @resize_thumbnails demo.demo_pil demo_failing.host_strict
           demo_failing.pelican_bad_regex demo.demo_world
         = (inl re_error, demo.demo_world)).
Proof.
  split.
  - split; [reflexivity|].
    destruct (@resize_thumbnails_stops_at_once demo.demo_pil
                demo_failing.host_without_pil) as [H _].
    apply H. reflexivity.
  - split; [reflexivity|]. split; [reflexivity|].
    destruct (@resize_thumbnails_stops_at_once demo.demo_pil
                demo_failing.host_strict) as [_ H].
    apply (H demo_failing.pelican_bad_regex demo.demo_world "(" re_error);
      [reflexivity | reflexivity | discriminate | reflexivity].
Defined.

Lemma expand_gallery_all_or_nothing_witness :
  (exists lines,
     (@expand_gallery demo.demo_host demo_gallery.pelican_g
        demo_gallery.vacation demo.demo_world).1
     = inr (<["gallery_content" := PyStr (str.join nl lines)]>
              demo_gallery.vacation)
     /\ length lines = 2%nat)
  /\ exists e',
       (@expand_gallery demo.demo_host demo_failing.pelican_bad_template
          demo_gallery.vacation demo.demo_world).1 = inl e'.
Proof.
  split.
  - destruct (@expand_gallery_all_or_nothing demo.demo_host
                demo_gallery.pelican_g demo_gallery.vacation "vacation"
                demo.demo_world eq_refl) as [H _].
    destruct (H (<["gallery_content" := PyStr (str.join nl demo_gallery.vacation_lines)]>
                   demo_gallery.vacation)) as (lines & HF & Hm).
    + vm_compute. reflexivity.
    + exists lines. split.
      * rewrite <- Hm. vm_compute. reflexivity.
      * apply Forall2_length in HF. rewrite <- HF. vm_compute. reflexivity.
  - destruct (@expand_gallery_all_or_nothing demo.demo_host
                demo_failing.pelican_bad_template demo_gallery.vacation
                "vacation" demo.demo_world eq_refl) as [_ H].
    apply (H (demo.pictures ++ "/vacation", "a.jpg") (OtherError "KeyError")).
    + vm_compute. apply list_elem_of_here.
    + vm_compute. reflexivity.
Defined.

Lemma expand_gallery_without_files_witness :
  demo_failing.missing !! "gallery" = Some (PyStr "nowhere")
  /\ gallery_files (@os_walk demo.demo_host
       (path.join (_image_path demo.demo_pelican) ["nowhere"])) = []
  /\ @expand_gallery demo.demo_host demo.demo_pelican demo_failing.missing
       demo.demo_world
     = (inr (<["gallery_content" := PyStr ""]> demo_failing.missing),
        demo.demo_world).
Proof.
  split; [reflexivity|]. split; [vm_compute; reflexivity|].
  apply (@expand_gallery_without_files demo.demo_host demo.demo_pelican
           demo_failing.missing "nowhere" demo.demo_world);
    [reflexivity | vm_compute; reflexivity].
Defined.
